(** * The sampling profiler of src/profiler.c

    A shallow embedding of the bounded-memory aggregation engine of the
    profiler (slot pool, free list, hash table, eviction, control
    functions and snapshot export), followed by the properties proved
    about it.

    Conventions of the embedding.
    - A [struct prof_slot *] is [option nat]: [None] is the null pointer
      and [Some i] is [&prof_slot_heap[i]].  Every slot pointer the
      program ever holds is null or points into [prof_slot_heap].
    - [prof_slot_heap] is [option (list prof_slot)]: [None] is the null
      pointer (no pool), [Some h] the allocated array.  The same holds
      for the scratch buffer [prof_backtrace].
    - A function that would dereference a null or dangling pointer, run
      past the end of the slot array, fail an [eassert] or loop forever
      has no result ([None]).
    - [unsigned long] counters are integers reduced modulo
      [2 ^ ULONG_WIDTH]; [unsigned int] is reduced modulo [2 ^ 32].
    - What profiler.c takes from lisp.h and from the operating system
      is collected in the class [LispHost] and in explicit arguments
      (the current time, the outcome of [sigaction] and [setitimer],
      the contents of freshly allocated memory). *)

From Stdlib Require Import ZArith Lia String.
From stdpp Require Import base tactics option numbers list.

Set Default Proof Using "Type".

(** ** The host interface (lisp.h, limits.h) *)

(** A [Lisp_Object] is a tagged machine word. *)
Abbreviation Lisp_Object := Z.

(** Modelled from the spec: [EQ] is identity of frame tokens, that is,
    equality of the two words (lisp.h is not among the sources). *)
Definition EQ (a b : Lisp_Object) : bool := Z.eqb a b.

Class LispHost := {
  Qnil : Lisp_Object;
  Qt : Lisp_Object;
  XUINT : Lisp_Object -> Z;
  XINT : Lisp_Object -> Z;
  SXHASH_COMBINE : Z -> Z -> Z;
  SYMBOLP : Lisp_Object -> bool;
  Ffboundp : Lisp_Object -> Lisp_Object;
  intern : string -> Lisp_Object;
  make_number : Z -> Lisp_Object;
  ULONG_WIDTH : positive
}.

(** Lisp data built by the exporter: an object of the host, or a list
    freshly consed by the exporter. *)
#[warnings="-register-all"]
Inductive lisp_data : Type :=
| Atom (o : Lisp_Object)
| LList (l : list lisp_data).

Definition list1 (a : lisp_data) : lisp_data := LList [a].
Definition list2 (a b : lisp_data) : lisp_data := LList [a; b].

(** ** Data model *)

Record prof_slot := {
  next : option nat;
  prev : option nat;
  backtrace : list Lisp_Object;
  count : Z;
  used : bool
}.

Definition with_next (p : option nat) (sl : prof_slot) : prof_slot :=
  {| next := p; prev := prev sl; backtrace := backtrace sl;
     count := count sl; used := used sl |}.
Definition with_prev (p : option nat) (sl : prof_slot) : prof_slot :=
  {| next := next sl; prev := p; backtrace := backtrace sl;
     count := count sl; used := used sl |}.
Definition with_backtrace (b : list Lisp_Object) (sl : prof_slot) : prof_slot :=
  {| next := next sl; prev := prev sl; backtrace := b;
     count := count sl; used := used sl |}.
Definition with_count (c : Z) (sl : prof_slot) : prof_slot :=
  {| next := next sl; prev := prev sl; backtrace := backtrace sl;
     count := c; used := used sl |}.
Definition with_used (u : bool) (sl : prof_slot) : prof_slot :=
  {| next := next sl; prev := prev sl; backtrace := backtrace sl;
     count := count sl; used := u |}.

Definition PROF_HASH_TABLE_SIZE : nat := 128.

(** The file-level variables of profiler.c, the two Lisp variables
    [profiler_max_stack_depth] and [profiler_slot_heap_size], and the
    part of the process state the profiler acts on: whether the SIGPROF
    action is [prof_signal_handler], the value of the ITIMER_PROF timer
    in microseconds (0: disarmed) and whether SIGPROF is blocked. *)
Record profiler := {
  prof_mode : Lisp_Object;
  prof_start_time : Lisp_Object;
  prof_sample_interval : Lisp_Object;
  prof_backtrace : option (list Lisp_Object);
  prof_max_stack_depth : nat;
  prof_hash_table : list (option nat);
  prof_slot_heap : option (list prof_slot);
  prof_slot_heap_size : nat;
  prof_free_list : option nat;
  prof_total_count : Z;
  prof_others_count : Z;
  profiler_max_stack_depth : Z;
  profiler_slot_heap_size : Z;
  sigprof_action : bool;
  itimer_prof : Z;
  sigprof_blocked : bool
}.

Definition set_hash_table (t : list (option nat)) (s : profiler) : profiler :=
  {| prof_mode := prof_mode s; prof_start_time := prof_start_time s;
     prof_sample_interval := prof_sample_interval s;
     prof_backtrace := prof_backtrace s;
     prof_max_stack_depth := prof_max_stack_depth s;
     prof_hash_table := t;
     prof_slot_heap := prof_slot_heap s;
     prof_slot_heap_size := prof_slot_heap_size s;
     prof_free_list := prof_free_list s;
     prof_total_count := prof_total_count s;
     prof_others_count := prof_others_count s;
     profiler_max_stack_depth := profiler_max_stack_depth s;
     profiler_slot_heap_size := profiler_slot_heap_size s;
     sigprof_action := sigprof_action s; itimer_prof := itimer_prof s;
     sigprof_blocked := sigprof_blocked s |}.

Definition set_slot_heap (h : option (list prof_slot)) (s : profiler) : profiler :=
  {| prof_mode := prof_mode s; prof_start_time := prof_start_time s;
     prof_sample_interval := prof_sample_interval s;
     prof_backtrace := prof_backtrace s;
     prof_max_stack_depth := prof_max_stack_depth s;
     prof_hash_table := prof_hash_table s;
     prof_slot_heap := h;
     prof_slot_heap_size := prof_slot_heap_size s;
     prof_free_list := prof_free_list s;
     prof_total_count := prof_total_count s;
     prof_others_count := prof_others_count s;
     profiler_max_stack_depth := profiler_max_stack_depth s;
     profiler_slot_heap_size := profiler_slot_heap_size s;
     sigprof_action := sigprof_action s; itimer_prof := itimer_prof s;
     sigprof_blocked := sigprof_blocked s |}.

Definition set_free_list (p : option nat) (s : profiler) : profiler :=
  {| prof_mode := prof_mode s; prof_start_time := prof_start_time s;
     prof_sample_interval := prof_sample_interval s;
     prof_backtrace := prof_backtrace s;
     prof_max_stack_depth := prof_max_stack_depth s;
     prof_hash_table := prof_hash_table s;
     prof_slot_heap := prof_slot_heap s;
     prof_slot_heap_size := prof_slot_heap_size s;
     prof_free_list := p;
     prof_total_count := prof_total_count s;
     prof_others_count := prof_others_count s;
     profiler_max_stack_depth := profiler_max_stack_depth s;
     profiler_slot_heap_size := profiler_slot_heap_size s;
     sigprof_action := sigprof_action s; itimer_prof := itimer_prof s;
     sigprof_blocked := sigprof_blocked s |}.

Definition set_total_count (c : Z) (s : profiler) : profiler :=
  {| prof_mode := prof_mode s; prof_start_time := prof_start_time s;
     prof_sample_interval := prof_sample_interval s;
     prof_backtrace := prof_backtrace s;
     prof_max_stack_depth := prof_max_stack_depth s;
     prof_hash_table := prof_hash_table s;
     prof_slot_heap := prof_slot_heap s;
     prof_slot_heap_size := prof_slot_heap_size s;
     prof_free_list := prof_free_list s;
     prof_total_count := c;
     prof_others_count := prof_others_count s;
     profiler_max_stack_depth := profiler_max_stack_depth s;
     profiler_slot_heap_size := profiler_slot_heap_size s;
     sigprof_action := sigprof_action s; itimer_prof := itimer_prof s;
     sigprof_blocked := sigprof_blocked s |}.

Definition set_others_count (c : Z) (s : profiler) : profiler :=
  {| prof_mode := prof_mode s; prof_start_time := prof_start_time s;
     prof_sample_interval := prof_sample_interval s;
     prof_backtrace := prof_backtrace s;
     prof_max_stack_depth := prof_max_stack_depth s;
     prof_hash_table := prof_hash_table s;
     prof_slot_heap := prof_slot_heap s;
     prof_slot_heap_size := prof_slot_heap_size s;
     prof_free_list := prof_free_list s;
     prof_total_count := prof_total_count s;
     prof_others_count := c;
     profiler_max_stack_depth := profiler_max_stack_depth s;
     profiler_slot_heap_size := profiler_slot_heap_size s;
     sigprof_action := sigprof_action s; itimer_prof := itimer_prof s;
     sigprof_blocked := sigprof_blocked s |}.

Definition set_backtrace (b : option (list Lisp_Object)) (s : profiler) : profiler :=
  {| prof_mode := prof_mode s; prof_start_time := prof_start_time s;
     prof_sample_interval := prof_sample_interval s;
     prof_backtrace := b;
     prof_max_stack_depth := prof_max_stack_depth s;
     prof_hash_table := prof_hash_table s;
     prof_slot_heap := prof_slot_heap s;
     prof_slot_heap_size := prof_slot_heap_size s;
     prof_free_list := prof_free_list s;
     prof_total_count := prof_total_count s;
     prof_others_count := prof_others_count s;
     profiler_max_stack_depth := profiler_max_stack_depth s;
     profiler_slot_heap_size := profiler_slot_heap_size s;
     sigprof_action := sigprof_action s; itimer_prof := itimer_prof s;
     sigprof_blocked := sigprof_blocked s |}.

Definition set_blocked (b : bool) (s : profiler) : profiler :=
  {| prof_mode := prof_mode s; prof_start_time := prof_start_time s;
     prof_sample_interval := prof_sample_interval s;
     prof_backtrace := prof_backtrace s;
     prof_max_stack_depth := prof_max_stack_depth s;
     prof_hash_table := prof_hash_table s;
     prof_slot_heap := prof_slot_heap s;
     prof_slot_heap_size := prof_slot_heap_size s;
     prof_free_list := prof_free_list s;
     prof_total_count := prof_total_count s;
     prof_others_count := prof_others_count s;
     profiler_max_stack_depth := profiler_max_stack_depth s;
     profiler_slot_heap_size := profiler_slot_heap_size s;
     sigprof_action := sigprof_action s; itimer_prof := itimer_prof s;
     sigprof_blocked := b |}.

Definition set_itimer (v : Z) (s : profiler) : profiler :=
  {| prof_mode := prof_mode s; prof_start_time := prof_start_time s;
     prof_sample_interval := prof_sample_interval s;
     prof_backtrace := prof_backtrace s;
     prof_max_stack_depth := prof_max_stack_depth s;
     prof_hash_table := prof_hash_table s;
     prof_slot_heap := prof_slot_heap s;
     prof_slot_heap_size := prof_slot_heap_size s;
     prof_free_list := prof_free_list s;
     prof_total_count := prof_total_count s;
     prof_others_count := prof_others_count s;
     profiler_max_stack_depth := profiler_max_stack_depth s;
     profiler_slot_heap_size := profiler_slot_heap_size s;
     sigprof_action := sigprof_action s; itimer_prof := v;
     sigprof_blocked := sigprof_blocked s |}.

Definition set_sigprof_action (b : bool) (s : profiler) : profiler :=
  {| prof_mode := prof_mode s; prof_start_time := prof_start_time s;
     prof_sample_interval := prof_sample_interval s;
     prof_backtrace := prof_backtrace s;
     prof_max_stack_depth := prof_max_stack_depth s;
     prof_hash_table := prof_hash_table s;
     prof_slot_heap := prof_slot_heap s;
     prof_slot_heap_size := prof_slot_heap_size s;
     prof_free_list := prof_free_list s;
     prof_total_count := prof_total_count s;
     prof_others_count := prof_others_count s;
     profiler_max_stack_depth := profiler_max_stack_depth s;
     profiler_slot_heap_size := profiler_slot_heap_size s;
     sigprof_action := b; itimer_prof := itimer_prof s;
     sigprof_blocked := sigprof_blocked s |}.

Definition set_sampling (mode start interval : Lisp_Object) (s : profiler) : profiler :=
  {| prof_mode := mode; prof_start_time := start;
     prof_sample_interval := interval;
     prof_backtrace := prof_backtrace s;
     prof_max_stack_depth := prof_max_stack_depth s;
     prof_hash_table := prof_hash_table s;
     prof_slot_heap := prof_slot_heap s;
     prof_slot_heap_size := prof_slot_heap_size s;
     prof_free_list := prof_free_list s;
     prof_total_count := prof_total_count s;
     prof_others_count := prof_others_count s;
     profiler_max_stack_depth := profiler_max_stack_depth s;
     profiler_slot_heap_size := profiler_slot_heap_size s;
     sigprof_action := sigprof_action s; itimer_prof := itimer_prof s;
     sigprof_blocked := sigprof_blocked s |}.

Definition set_config (depth size : Z) (s : profiler) : profiler :=
  {| prof_mode := prof_mode s; prof_start_time := prof_start_time s;
     prof_sample_interval := prof_sample_interval s;
     prof_backtrace := prof_backtrace s;
     prof_max_stack_depth := prof_max_stack_depth s;
     prof_hash_table := prof_hash_table s;
     prof_slot_heap := prof_slot_heap s;
     prof_slot_heap_size := prof_slot_heap_size s;
     prof_free_list := prof_free_list s;
     prof_total_count := prof_total_count s;
     prof_others_count := prof_others_count s;
     profiler_max_stack_depth := depth;
     profiler_slot_heap_size := size;
     sigprof_action := sigprof_action s; itimer_prof := itimer_prof s;
     sigprof_blocked := sigprof_blocked s |}.

(** [unsigned int] conversion of a Lisp integer variable. *)
Definition uint (z : Z) : nat := Z.to_nat (z mod 2 ^ 32).

(** Contents of memory as [xmalloc] returns it: indeterminate. *)
Record xmalloc_image := {
  junk_backtrace : list Lisp_Object;
  junk_slot : nat -> prof_slot
}.

(** ** The program *)

Section Profiler.
Context `{LispHost}.

Definition NILP (x : Lisp_Object) : bool := EQ x Qnil.

(** [unsigned long] arithmetic. *)
Definition ulong (z : Z) : Z := z mod 2 ^ Z.pos ULONG_WIDTH.

(** Reading element [i] of a backtrace buffer.  Every buffer the
    program reads holds [prof_max_stack_depth] elements and is only
    read below that bound. *)
Definition aref (a : list Lisp_Object) (i : nat) : Lisp_Object :=
  default Qnil (a !! i).

(** Reading and writing through a slot pointer. *)
Definition slot_at (s : profiler) (i : nat) : option prof_slot :=
  h ← prof_slot_heap s; h !! i.

Definition update_slot (i : nat) (f : prof_slot -> prof_slot) (s : profiler)
  : option profiler :=
  h ← prof_slot_heap s;
  sl ← h !! i;
  Some (set_slot_heap (Some (<[i := f sl]> h)) s).

(** *** Backtrace canonicalization *)

Fixpoint prof_backtrace_hash_from (k i : nat) (backtrace : list Lisp_Object)
  (hash : Z) : Z :=
  match k with
  | O => hash
  | S k' =>
      prof_backtrace_hash_from k' (S i) backtrace
        (SXHASH_COMBINE (XUINT (aref backtrace i)) hash)
  end.

Definition prof_backtrace_hash (D : nat) (backtrace : list Lisp_Object) : Z :=
  prof_backtrace_hash_from D 0 backtrace 0.

Definition prof_backtrace_index (D : nat) (backtrace : list Lisp_Object) : nat :=
  Z.to_nat (prof_backtrace_hash D backtrace mod Z.of_nat PROF_HASH_TABLE_SIZE).

(** [k] is the number of positions left before [prof_max_stack_depth]. *)
Fixpoint prof_backtrace_list_from (k n : nat) (backtrace : list Lisp_Object)
  : list Lisp_Object :=
  match k with
  | O => []
  | S k' =>
      if NILP (aref backtrace n) then []
      else aref backtrace n :: prof_backtrace_list_from k' (S n) backtrace
  end.

Definition prof_backtrace_list (D : nat) (backtrace : list Lisp_Object) (n : nat)
  : list Lisp_Object :=
  prof_backtrace_list_from (D - n) n backtrace.

Fixpoint prof_backtrace_equal_from (k i : nat) (a b : list Lisp_Object) : bool :=
  match k with
  | O => true
  | S k' =>
      if EQ (aref a i) (aref b i)
      then prof_backtrace_equal_from k' (S i) a b
      else false
  end.

Definition prof_backtrace_equal (D : nat) (a b : list Lisp_Object) : bool :=
  prof_backtrace_equal_from D 0 a b.

(** *** Slot pool and free list *)

Definition prof_unlink_slot (slot : nat) (s : profiler) : option profiler :=
  sl ← slot_at s slot;
  s1 ← match prev sl with
       | Some p => update_slot p (with_next (next sl)) s
       | None =>
           Some (set_hash_table
                   (<[prof_backtrace_index (prof_max_stack_depth s) (backtrace sl)
                      := next sl]> (prof_hash_table s)) s)
       end;
  sl1 ← slot_at s1 slot;
  match next sl1 with
  | Some n => update_slot n (with_prev (prev sl1)) s1
  | None => Some s1
  end.

Definition prof_free_slot (slot : nat) (s : profiler) : option profiler :=
  sl ← slot_at s slot;
  if used sl then
    s1 ← prof_unlink_slot slot s;
    s2 ← update_slot slot (with_used false) s1;
    s3 ← update_slot slot (with_next (prof_free_list s2)) s2;
    Some (set_free_list (Some slot) s3)
  else None.

Definition prof_evict_slot (slot : nat) (s : profiler) : option profiler :=
  sl ← slot_at s slot;
  prof_free_slot slot
    (set_others_count (ulong (prof_others_count s + count sl)) s).

(** The provisional minimum [min] after the first [k] iterations of the
    scan of [prof_evict_min_slot]. *)
Fixpoint prof_evict_min_scan (h : list prof_slot) (k : nat) : option (option nat) :=
  match k with
  | O => Some None
  | S i =>
      min ← prof_evict_min_scan h i;
      s ← h !! i;
      match min with
      | None => Some (Some i)
      | Some m =>
          if used s then
            sm ← h !! m;
            Some (if (count s <? count sm)%Z then Some i else Some m)
          else Some (Some m)
      end
  end.

Definition prof_evict_min_slot (s : profiler) : option profiler :=
  h ← prof_slot_heap s;
  min ← prof_evict_min_scan h (prof_slot_heap_size s);
  slot ← min;
  prof_evict_slot slot s.

Definition prof_allocate_slot (s : profiler) : option (nat * profiler) :=
  s1 ← match prof_free_list s with
       | None =>
           s' ← prof_evict_min_slot s;
           if prof_free_list s' is Some _ then Some s' else None
       | Some _ => Some s
       end;
  slot ← prof_free_list s1;
  s2 ← update_slot slot (with_used true) s1;
  fl ← prof_free_list s2;
  sl ← slot_at s2 fl;
  Some (slot, set_free_list (next sl) s2).

Fixpoint prof_copy_backtrace (k : nat) (src dst : list Lisp_Object)
  : list Lisp_Object :=
  match k with
  | O => dst
  | S i => <[i := aref src i]> (prof_copy_backtrace i src dst)
  end.

Definition prof_make_slot (backtrace0 : list Lisp_Object) (s : profiler)
  : option (nat * profiler) :=
  '(slot, s1) ← prof_allocate_slot s;
  s2 ← update_slot slot
         (fun sl => with_backtrace
            (prof_copy_backtrace (prof_max_stack_depth s1) backtrace0 (backtrace sl))
            sl) s1;
  s3 ← update_slot slot (with_prev None) s2;
  s4 ← update_slot slot (with_next None) s3;
  s5 ← update_slot slot (with_count 0) s4;
  Some (slot, s5).

(** *** Hash table *)

(** The [while (slot)] loop of [prof_ensure_slot], from the current
    values of [slot] and [prev]; the result is the pair of their values
    when the loop is left (by [goto found] when the first component is
    not null). *)
Fixpoint prof_ensure_scan (fuel : nat) (h : list prof_slot) (D : nat)
  (backtrace0 : list Lisp_Object) (slot prev0 : option nat)
  : option (option nat * option nat) :=
  match slot with
  | None => Some (None, prev0)
  | Some i =>
      match fuel with
      | O => None
      | S fuel' =>
          sl ← h !! i;
          if prof_backtrace_equal D backtrace0 (backtrace sl)
          then Some (Some i, prev0)
          else prof_ensure_scan fuel' h D backtrace0 (next sl) (Some i)
      end
  end.

Definition prof_ensure_slot (backtrace0 : list Lisp_Object) (s : profiler)
  : option (nat * profiler) :=
  let index := prof_backtrace_index (prof_max_stack_depth s) backtrace0 in
  head ← prof_hash_table s !! index;
  h ← prof_slot_heap s;
  '(found, prev0) ← prof_ensure_scan (S (length h)) h (prof_max_stack_depth s)
                      backtrace0 head head;
  match found with
  | Some slot => Some (slot, s)
  | None =>
      '(slot, s1) ← prof_make_slot backtrace0 s;
      match prev0 with
      | Some p =>
          s2 ← update_slot slot (with_prev (Some p)) s1;
          s3 ← update_slot p (with_next (Some slot)) s2;
          Some (slot, s3)
      | None =>
          Some (slot, set_hash_table (<[index := Some slot]> (prof_hash_table s1)) s1)
      end
  end.

(** *** The trigger *)

Fixpoint prof_clear_backtrace (k : nat) (buf : list Lisp_Object) : list Lisp_Object :=
  match k with
  | O => buf
  | S i => <[i := Qnil]> (prof_clear_backtrace i buf)
  end.

(** The second loop of [prof_signal_handler]; [backlist] is the list of
    the [function] objects of the host's [backtrace_list] frames. *)
Fixpoint prof_walk_backtrace (i D : nat) (backlist : list Lisp_Object)
  (buf : list Lisp_Object) : list Lisp_Object :=
  match backlist with
  | [] => buf
  | function :: rest =>
      if decide (i < D) then
        prof_walk_backtrace (S i) D rest
          (if SYMBOLP function && negb (NILP (Ffboundp function))
           then <[i := function]> buf else buf)
      else buf
  end.

(** Lines 212-217: what the handler does with the captured backtrace. *)
Definition prof_record_sample (s : profiler) : option profiler :=
  buf ← prof_backtrace s;
  first ← buf !! 0;
  if negb (NILP first) then
    '(slot, s1) ← prof_ensure_slot buf s;
    sl ← slot_at s1 slot;
    s2 ← update_slot slot (with_count (ulong (count sl + 1))) s1;
    Some (set_total_count (ulong (prof_total_count s2 + 1)) s2)
  else Some s.

Definition prof_signal_handler (backtrace_list : list Lisp_Object) (s : profiler)
  : option profiler :=
  buf ← prof_backtrace s;
  let D := prof_max_stack_depth s in
  let buf1 := prof_clear_backtrace D buf in
  let buf2 := prof_walk_backtrace 0 D backtrace_list buf1 in
  prof_record_sample (set_backtrace (Some buf2) s).

Definition prof_block_signal (s : profiler) : profiler := set_blocked true s.
Definition prof_unblock_signal (s : profiler) : profiler := set_blocked false s.

(** *** Control functions *)

(** The loop of [prof_init] that chains the slots into the free list:
    [k] iterations are left, [i] is the loop index and [free_list] the
    local pointer. *)
Fixpoint prof_init_link (k i free_list : nat) (h : list prof_slot)
  : option (nat * list prof_slot) :=
  match k with
  | O => Some (free_list, h)
  | S k' =>
      sl ← h !! free_list;
      prof_init_link k' (S i) i (<[free_list := with_next (Some i) sl]> h)
  end.

Definition prof_init (mem : xmalloc_image) (s : profiler) : option profiler :=
  let D := uint (profiler_max_stack_depth s) in
  let N := uint (profiler_slot_heap_size s) in
  let h0 :=
    (fun i =>
       {| next := next (junk_slot mem i); prev := prev (junk_slot mem i);
          backtrace := resize D Qnil (backtrace (junk_slot mem i));
          count := ulong (count (junk_slot mem i));
          used := false |}) <$> seq 0 N in
  '(free_list, h1) ← prof_init_link (N - 1) 1 0 h0;
  sl ← h1 !! free_list;
  Some {| prof_mode := prof_mode s; prof_start_time := prof_start_time s;
          prof_sample_interval := prof_sample_interval s;
          prof_backtrace := Some (resize D Qnil (junk_backtrace mem));
          prof_max_stack_depth := D;
          prof_hash_table := replicate PROF_HASH_TABLE_SIZE None;
          prof_slot_heap := Some (<[free_list := with_next None sl]> h1);
          prof_slot_heap_size := N;
          prof_free_list := Some 0;
          prof_total_count := 0;
          prof_others_count := 0;
          profiler_max_stack_depth := profiler_max_stack_depth s;
          profiler_slot_heap_size := profiler_slot_heap_size s;
          sigprof_action := sigprof_action s; itimer_prof := itimer_prof s;
          sigprof_blocked := sigprof_blocked s |}.

Definition Fprofiler_mode (s : profiler) : Lisp_Object := prof_mode s.

(** [now] is the value of [Fcurrent_time ()], [mem] what [xmalloc]
    returns should [prof_init] run, and [sigaction_ok], [setitimer_ok]
    tell whether the two system calls succeed (their return values,
    which the function does not read). *)
Definition Fprofiler_start_sampling (sample_interval now : Lisp_Object)
  (mem : xmalloc_image) (sigaction_ok setitimer_ok : bool) (s : profiler)
  : option (Lisp_Object * profiler) :=
  s1 ← (if prof_slot_heap s is Some _ then Some s else prof_init mem s);
  let s2 := set_sampling (intern "sample") now sample_interval s1 in
  let s3 := if sigaction_ok then set_sigprof_action true s2 else s2 in
  let s4 := if setitimer_ok
            then set_itimer (XINT sample_interval * 1000) s3 else s3 in
  Some (Qt, s4).

(** [setitimer (ITIMER_PROF, NULL, 0)]: when the call succeeds the
    timer is disarmed. *)
Definition Fprofiler_stop_sampling (setitimer_ok : bool) (s : profiler) : profiler :=
  if setitimer_ok then set_itimer 0 s else s.

Definition Fprofiler_reset (s : profiler) : profiler :=
  let s1 := prof_block_signal s in
  let s2 := if prof_slot_heap s1 is Some _
            then set_slot_heap None (set_backtrace None s1) else s1 in
  prof_unblock_signal s2.

(** The loop of [Fprofiler_take_snapshot] after [k] iterations, from
    the initial value [slots0] of [slots]. *)
Fixpoint prof_snapshot_slots (heap : option (list prof_slot)) (D k : nat)
  (slots0 : list lisp_data) : option (list lisp_data) :=
  match k with
  | O => Some slots0
  | S i =>
      slots ← prof_snapshot_slots heap D i slots0;
      h ← heap;
      s ← h !! i;
      Some (if used s
            then list2 (LList (Atom <$> prof_backtrace_list D (backtrace s) 0))
                       (Atom (make_number (count s))) :: slots
            else slots)
  end.

Definition Fprofiler_take_snapshot (now : Lisp_Object) (s : profiler)
  : option (lisp_data * profiler) :=
  let s1 := prof_block_signal s in
  let stop_time := now in
  slots ← prof_snapshot_slots (prof_slot_heap s1) (prof_max_stack_depth s1)
            (prof_slot_heap_size s1)
            [list2 (list1 (Atom Qt)) (Atom (make_number (prof_others_count s1)))];
  let snapshot :=
    LList [Atom (intern "mode"); Atom (prof_mode s1);
           Atom (intern "start-time"); Atom (prof_start_time s1);
           Atom (intern "stop-time"); Atom stop_time;
           Atom (intern "slots"); LList slots;
           Atom (intern "sample-interval"); Atom (prof_sample_interval s1);
           Atom (intern "sample-count"); Atom (make_number (prof_total_count s1))] in
  Some (snapshot, prof_unblock_signal s1).

(** The state [syms_of_profiler] leaves: the file-level variables are
    zero, [prof_mode] is [Qnil] and the two Lisp variables hold their
    defaults. *)
Definition syms_of_profiler : profiler :=
  {| prof_mode := Qnil; prof_start_time := 0%Z; prof_sample_interval := 0%Z;
     prof_backtrace := None; prof_max_stack_depth := 0;
     prof_hash_table := replicate PROF_HASH_TABLE_SIZE None;
     prof_slot_heap := None; prof_slot_heap_size := 0;
     prof_free_list := None; prof_total_count := 0; prof_others_count := 0;
     profiler_max_stack_depth := 16; profiler_slot_heap_size := 10000;
     sigprof_action := false; itimer_prof := 0; sigprof_blocked := false |}.

(** ** Runs of the program

    The calls the Lisp side and the operating system can make, and the
    states the program reaches through them.  The trigger only runs
    while [prof_signal_handler] is the SIGPROF action. *)
Inductive call : Type :=
| CallSetq (depth size : Z)
| CallStart (sample_interval now : Lisp_Object) (mem : xmalloc_image)
            (sigaction_ok setitimer_ok : bool)
| CallStop (setitimer_ok : bool)
| CallReset
| CallSnapshot (now : Lisp_Object)
| CallSignal (backtrace_list : list Lisp_Object).

Definition step (c : call) (s : profiler) : option profiler :=
  match c with
  | CallSetq depth size => Some (set_config depth size s)
  | CallStart i now mem a t => snd <$> Fprofiler_start_sampling i now mem a t s
  | CallStop t => Some (Fprofiler_stop_sampling t s)
  | CallReset => Some (Fprofiler_reset s)
  | CallSnapshot now => snd <$> Fprofiler_take_snapshot now s
  | CallSignal bl =>
      if sigprof_action s then prof_signal_handler bl s else None
  end.

Fixpoint run (cs : list call) (s : profiler) : option profiler :=
  match cs with
  | [] => Some s
  | c :: cs' => s' ← step c s; run cs' s'
  end.

Definition reachable (s : profiler) : Prop :=
  exists cs, run cs syms_of_profiler = Some s.

End Profiler.

(** ** A concrete host, for evaluating the program *)

Module Example64.

(** One instance of the interface, used only to run the program on
    concrete inputs: a rotate-and-add [SXHASH_COMBINE] on a 64-bit
    [EMACS_UINT]; every nonzero word is an fbound symbol. *)
#[export] Instance host : LispHost := {|
  Qnil := 0%Z;
  Qt := 1%Z;
  XUINT := fun x => x;
  XINT := fun x => x;
  SXHASH_COMBINE := fun x y =>
    ((Z.shiftl x 4 + Z.shiftr x 60 + y) mod 2 ^ 64)%Z;
  SYMBOLP := fun x => negb (x =? 0)%Z;
  Ffboundp := fun x => if (x =? 0)%Z then 0%Z else 1%Z;
  intern := fun s => Z.of_nat (String.length s);
  make_number := fun n => n;
  ULONG_WIDTH := 64%positive
|}.

Definition mem0 : xmalloc_image :=
  {| junk_backtrace := [];
     junk_slot := fun _ => {| next := Some 7; prev := Some 9; backtrace := [5%Z];
                              count := 42; used := true |} |}.

Definition boot (depth size : Z) : list call :=
  [CallSetq depth size; CallStart 1%Z 100%Z mem0 true true].

End Example64.

(** ** Definitions used by the statements and the proofs *)

Section Definitions.
Context `{LispHost}.

(** Array updates, pointwise: [<[i := f si]> h = imap (upd i f) h]. *)
Definition upd (i : nat) (f : prof_slot -> prof_slot) (j : nat) (sl : prof_slot)
  : prof_slot :=
  if decide (j = i) then f sl else sl.

(** What [prof_unlink_slot] makes of slot [j] and of the hash table
    when the slot it unlinks has contents [si]. *)
Definition unlink_adjust (si : prof_slot) (j : nat) (sj : prof_slot) : prof_slot :=
  {| next := if decide (prev si = Some j) then next si else next sj;
     prev := if decide (next si = Some j) then prev si else prev sj;
     backtrace := backtrace sj; count := count sj; used := used sj |}.

Definition unlink_table (D : nat) (si : prof_slot) (t : list (option nat))
  : list (option nat) :=
  if prev si is Some _ then t
  else <[prof_backtrace_index D (backtrace si) := next si]> t.

(** What [prof_free_slot] makes of slot [j] when it frees slot [i] of
    contents [si] while the free list is [fl]. *)
Definition free_adjust (i : nat) (si : prof_slot) (fl : option nat)
  (j : nat) (sj : prof_slot) : prof_slot :=
  upd i (fun x => with_next fl (with_used false x)) j (unlink_adjust si j sj).

(** The slot [prof_make_slot] returns, made from a slot of contents
    [si] taken from the free list. *)
Definition made_slot (D : nat) (backtrace0 : list Lisp_Object) (si : prof_slot)
  : prof_slot :=
  {| next := None; prev := None;
     backtrace := prof_copy_backtrace D backtrace0 (backtrace si);
     count := 0; used := true |}.

(** The state [prof_evict_slot] leaves when it evicts slot [v] of
    contents [sv] from the array [h]. *)
Definition evicted (v : nat) (sv : prof_slot) (h : list prof_slot) (s : profiler)
  : profiler :=
  set_others_count (ulong (prof_others_count s + count sv))
    (set_free_list (Some v)
       (set_hash_table
          (unlink_table (prof_max_stack_depth s) sv (prof_hash_table s))
          (set_slot_heap
             (Some (imap (free_adjust v sv (prof_free_list s)) h)) s))).

(** The slot array [prof_init] builds: no slot is in use and each is
    chained to the next one. *)
Definition init_slot (mem : xmalloc_image) (D N j : nat) : prof_slot :=
  {| next := if decide (S j < N) then Some (S j) else None;
     prev := prev (junk_slot mem j);
     backtrace := resize D Qnil (backtrace (junk_slot mem j));
     count := ulong (count (junk_slot mem j));
     used := false |}.

Definition init_heap (mem : xmalloc_image) (D N : nat) : list prof_slot :=
  init_slot mem D N <$> seq 0 N.

(** The state [prof_init] leaves. *)
Definition initialized (mem : xmalloc_image) (s : profiler) : profiler :=
  let D := uint (profiler_max_stack_depth s) in
  let N := uint (profiler_slot_heap_size s) in
  {| prof_mode := prof_mode s; prof_start_time := prof_start_time s;
     prof_sample_interval := prof_sample_interval s;
     prof_backtrace := Some (resize D Qnil (junk_backtrace mem));
     prof_max_stack_depth := D;
     prof_hash_table := replicate PROF_HASH_TABLE_SIZE None;
     prof_slot_heap := Some (init_heap mem D N);
     prof_slot_heap_size := N;
     prof_free_list := Some 0;
     prof_total_count := 0;
     prof_others_count := 0;
     profiler_max_stack_depth := profiler_max_stack_depth s;
     profiler_slot_heap_size := profiler_slot_heap_size s;
     sigprof_action := sigprof_action s; itimer_prof := itimer_prof s;
     sigprof_blocked := sigprof_blocked s |}.

(** *** The pool invariant *)

Definition bucket_of (D : nat) (sl : prof_slot) : nat :=
  prof_backtrace_index D (backtrace sl).

(** The links of the slots in use are consistent: a [next] link is
    answered by the [prev] link of its target, within one bucket; a
    bucket head has no [prev]; a slot without [prev] is the head of the
    bucket of its backtrace. *)
Record links_ok (D : nat) (h : list prof_slot) (t : list (option nat)) : Prop := {
  lk_next : forall y sy x,
    h !! y = Some sy -> used sy = true -> next sy = Some x ->
    exists sx, h !! x = Some sx /\ used sx = true /\ prev sx = Some y /\
               bucket_of D sx = bucket_of D sy;
  lk_prev : forall y sy x,
    h !! y = Some sy -> used sy = true -> prev sy = Some x ->
    exists sx, h !! x = Some sx /\ used sx = true /\ next sx = Some y;
  lk_head : forall b x,
    t !! b = Some (Some x) ->
    exists sx, h !! x = Some sx /\ used sx = true /\ prev sx = None /\
               bucket_of D sx = b;
  lk_first : forall x sx,
    h !! x = Some sx -> used sx = true -> prev sx = None ->
    t !! bucket_of D sx = Some (Some x)
}.

(** [next_path h p l]: following [next] from the pointer [p] visits
    the slots [l] and ends at the null pointer.  It describes the free
    list and the chain of a bucket. *)
Inductive next_path (h : list prof_slot) : option nat -> list nat -> Prop :=
| next_path_nil : next_path h None []
| next_path_cons i sl l :
    h !! i = Some sl -> next_path h (next sl) l -> next_path h (Some i) (i :: l).

(** The free list holds exactly the slots not in use, each once. *)
Definition free_ok (h : list prof_slot) (fl : option nat) : Prop :=
  exists l, next_path h fl l /\ NoDup l /\
            forall i sl, h !! i = Some sl -> (used sl = false <-> i ∈ l).

(** [prev_path h x l]: following [prev] from slot [x] visits the slots
    [l] (starting with [x]) and ends at a slot without [prev]. *)
Inductive prev_path (h : list prof_slot) : nat -> list nat -> Prop :=
| prev_path_head x sx :
    h !! x = Some sx -> prev sx = None -> prev_path h x [x]
| prev_path_step x sx y l :
    h !! x = Some sx -> prev sx = Some y -> prev_path h y l ->
    prev_path h x (x :: l).

(** What [prof_make_slot] followed by the linking code of
    [prof_ensure_slot] makes of slot [j], when slot [i] is taken from
    the free list and the scan left [prev0] in [prev]. *)
Definition link_adjust (D : nat) (backtrace0 : list Lisp_Object) (i : nat)
  (prev0 : option nat) (j : nat) (sj : prof_slot) : prof_slot :=
  let base := upd i (made_slot D backtrace0) j sj in
  match prev0 with
  | Some p => upd p (with_next (Some i)) j (upd i (with_prev (Some p)) j base)
  | None => base
  end.

(** The state [prof_ensure_slot] leaves on that path. *)
Definition inserted (backtrace0 : list Lisp_Object) (i : nat) (si : prof_slot)
  (prev0 : option nat) (h : list prof_slot) (s : profiler) : profiler :=
  let D := prof_max_stack_depth s in
  let s1 := set_free_list (next si)
              (set_slot_heap (Some (imap (link_adjust D backtrace0 i prev0) h)) s) in
  match prev0 with
  | Some _ => s1
  | None =>
      set_hash_table
        (<[prof_backtrace_index D backtrace0 := Some i]> (prof_hash_table s)) s1
  end.

(** Where the scan of [prof_ensure_slot] may have left [prev], seen
    from the state in which slot [i] heads the free list: null with an
    empty bucket, at slot [i] itself (which the eviction has just
    freed), or at a slot in use that ends a chain of the bucket. *)
Definition tail_ok (D : nat) (h : list prof_slot) (t : list (option nat))
  (idx i : nat) (prev0 : option nat) : Prop :=
  match prev0 with
  | None => t !! idx = Some None
  | Some p =>
      p = i \/
      exists sp, h !! p = Some sp /\ used sp = true /\ next sp = None /\
                 bucket_of D sp = idx
  end.

(** The state the trigger leaves after it has counted a sample in
    slot [j]. *)
Definition counted (j : nat) (h : list prof_slot) (s : profiler) : profiler :=
  set_total_count (ulong (prof_total_count s + 1))
    (set_slot_heap
       (Some (imap (upd j (fun sl => with_count (ulong (count sl + 1)) sl)) h)) s).

(** The slot [m] is the first one, in the order of the array, whose
    count is minimal. *)
Definition first_min (h : list prof_slot) (m : nat) (sm : prof_slot) : Prop :=
  h !! m = Some sm /\
  (forall j sj, h !! j = Some sj -> (count sm <= count sj)%Z) /\
  (forall j sj, j < m -> h !! j = Some sj -> (count sm < count sj)%Z).

Definition slot_weight (sl : prof_slot) : Z := if used sl then count sl else 0%Z.

(** Sum of the counts of the slots in use. *)
Definition sum_used (h : list prof_slot) : Z := foldr Z.add 0%Z (slot_weight <$> h).

Record pool_ok (s : profiler) (h : list prof_slot) : Prop := {
  pool_heap : prof_slot_heap s = Some h;
  pool_size : length h = prof_slot_heap_size s;
  pool_pos : 0 < length h;
  pool_table : length (prof_hash_table s) = PROF_HASH_TABLE_SIZE;
  pool_scratch : exists buf,
    prof_backtrace s = Some buf /\ length buf = prof_max_stack_depth s;
  pool_buffers : forall i sl,
    h !! i = Some sl -> length (backtrace sl) = prof_max_stack_depth s;
  pool_links : links_ok (prof_max_stack_depth s) h (prof_hash_table s);
  pool_free : free_ok h (prof_free_list s);
  pool_count_range : forall i sl,
    h !! i = Some sl -> used sl = true -> (0 <= count sl)%Z;
  pool_others_range : (0 <= prof_others_count s)%Z;
  pool_balance :
    prof_total_count s = ulong (sum_used h + prof_others_count s)
}.

(** The invariant of the whole state: it constrains the state only
    while a pool is allocated. *)
Definition wf (s : profiler) : Prop :=
  forall h, prof_slot_heap s = Some h -> pool_ok s h.

(** *** Samples *)

(** The backtrace the two loops of [prof_signal_handler] leave in a
    scratch buffer of [D] elements for the host frames [backlist]. *)
Definition captured (D : nat) (backlist : list Lisp_Object) : list Lisp_Object :=
  prof_walk_backtrace 0 D backlist (replicate D Qnil).

(** The trigger firing once for each stack of [bls], in order. *)
Fixpoint signals (bls : list (list Lisp_Object)) (s : profiler) : option profiler :=
  match bls with
  | [] => Some s
  | bl :: rest => s' ← prof_signal_handler bl s; signals rest s'
  end.

(** Number of times the backtrace [k] was sampled in [seen]. *)
Definition occurrences (k : list Lisp_Object) (seen : list (list Lisp_Object)) : nat :=
  length (filter (fun x => x = k) seen).

(** The distinct backtraces of a sequence of samples, in the order of
    their first occurrence. *)
Definition add_key (ks : list (list Lisp_Object)) (k : list Lisp_Object)
  : list (list Lisp_Object) :=
  if decide (k ∈ ks) then ks else ks ++ [k].

Definition keys_of (seen : list (list Lisp_Object)) : list (list Lisp_Object) :=
  foldl add_key [] seen.

(** The pool while it fills, after the samples [seen] with distinct
    backtraces [ks]: slot [i] holds the [i]-th of them with the number
    of its occurrences and is on the chain of its bucket; the other
    slots are on the free list in the order of the array; nothing was
    evicted. *)
Record fill_ok (s : profiler) (h : list prof_slot)
  (seen ks : list (list Lisp_Object)) : Prop := {
  fill_pool : pool_ok s h;
  fill_nodup : NoDup ks;
  fill_seen : forall k, k ∈ ks <-> k ∈ seen;
  fill_used : forall i k, ks !! i = Some k ->
    exists sl p c, h !! i = Some sl /\ used sl = true /\ backtrace sl = k /\
      count sl = ulong (Z.of_nat (occurrences k seen)) /\
      prof_hash_table s !! bucket_of (prof_max_stack_depth s) sl = Some p /\
      next_path h p c /\ i ∈ c;
  fill_unused : forall i sl, h !! i = Some sl -> length ks <= i ->
    used sl = false /\
    next sl = if decide (S i < length h) then Some (S i) else None;
  fill_free :
    prof_free_list s =
    if decide (length ks < length h) then Some (length ks) else None;
  fill_others : prof_others_count s = 0%Z
}.

(** The data of a slot, without its links. *)
Definition slot_data (sl : prof_slot) : list Lisp_Object * Z * bool :=
  (backtrace sl, count sl, used sl).

(** *** The snapshot *)

(** The frames of an exported entry in the words of the specification:
    the real (non-sentinel) prefix of the backtrace, in its original
    order.  It is compared with [prof_backtrace_list] below. *)
Fixpoint spec_real_prefix (backtrace0 : list Lisp_Object) : list Lisp_Object :=
  match backtrace0 with
  | [] => []
  | x :: rest => if NILP x then [] else x :: spec_real_prefix rest
  end.

(** The entry of a slot and the synthetic overflow entry. *)
Definition slot_entry (D : nat) (sl : prof_slot) : lisp_data :=
  list2 (LList (Atom <$> spec_real_prefix (take D (backtrace sl))))
        (Atom (make_number (count sl))).

Definition overflow_entry (s : profiler) : lisp_data :=
  list2 (list1 (Atom Qt)) (Atom (make_number (prof_others_count s))).

(** The report [Fprofiler_take_snapshot] builds around the list
    [slots]. *)
Definition snapshot_of (now : Lisp_Object) (slots : list lisp_data) (s : profiler)
  : lisp_data :=
  LList [Atom (intern "mode"); Atom (prof_mode s);
         Atom (intern "start-time"); Atom (prof_start_time s);
         Atom (intern "stop-time"); Atom now;
         Atom (intern "slots"); LList slots;
         Atom (intern "sample-interval"); Atom (prof_sample_interval s);
         Atom (intern "sample-count"); Atom (make_number (prof_total_count s))].

(** The entries sequence of a report: the value of its [slots] key. *)
Definition snapshot_entries (report : lisp_data) : option (list lisp_data) :=
  match report with
  | LList [_; _; _; _; _; _; _; LList slots; _; _; _; _] => Some slots
  | _ => None
  end.

(** *** The partition of the pool *)

Definition on_free_list (s : profiler) (h : list prof_slot) (i : nat) : Prop :=
  exists l, next_path h (prof_free_list s) l /\ i ∈ l.

Definition on_chain (s : profiler) (h : list prof_slot) (b i : nat) : Prop :=
  exists p c, prof_hash_table s !! b = Some p /\ next_path h p c /\ i ∈ c.

(** Every slot is on the free list and not in use, or in use and on
    the chain of exactly one bucket. *)
Definition partitioned (s : profiler) (h : list prof_slot) : Prop :=
  forall i sl, h !! i = Some sl ->
    (used sl = false /\ on_free_list s h i /\ forall b, ~ on_chain s h b i) \/
    (used sl = true /\ ~ on_free_list s h i /\
     exists b, on_chain s h b i /\ forall b', on_chain s h b' i -> b' = b).

End Definitions.

(** *** Concrete runs on the host of [Example64] *)

Module Trace.
Import Example64.

(** Fbound symbols: the one-frame backtraces of [A] and [B] fall into
    one bucket, those of [C] and [F] into another, that of [E] into a
    third. *)
Definition A : Lisp_Object := 10%Z.
Definition B : Lisp_Object := 138%Z.
Definition C : Lisp_Object := 11%Z.
Definition E : Lisp_Object := 12%Z.
Definition F : Lisp_Object := 19%Z.

Definition state_after (cs : list call) : profiler :=
  default syms_of_profiler (run cs syms_of_profiler).

(** Capacity 1, depth 1. *)
Definition calls_A : list call := boot 1 1 ++ [CallSignal [A]].
Definition calls_AB : list call := calls_A ++ [CallSignal [B]].
Definition calls_ABB : list call := calls_AB ++ [CallSignal [B]].
Definition calls_AC : list call := calls_A ++ [CallSignal [C]].

Definition after_A : profiler := Eval vm_compute in state_after calls_A.
Definition after_AB : profiler := Eval vm_compute in state_after calls_AB.
Definition after_ABB : profiler := Eval vm_compute in state_after calls_ABB.

(** A start, with capacity 1 and depth 1, during which [setitimer]
    fails. *)
Definition config1 : profiler := set_config 1 1 syms_of_profiler.
Definition after_failed_start : profiler :=
  Eval vm_compute in
    default syms_of_profiler
      (snd <$> Fprofiler_start_sampling 1%Z 100%Z mem0 true false config1).

(** Capacity 2, depth 1. *)
Definition config2 : profiler := set_config 1 2 syms_of_profiler.
Definition stacks2 : list (list Lisp_Object) := [[A]; [A]; [C]].

(** Capacity 2, depth 1: three samples of [A], two of [C], then [F]
    once and twice. *)
Definition calls_AAACC : list call :=
  boot 1 2 ++ (CallSignal <$> [[A]; [A]; [A]; [C]; [C]]).
Definition calls_AAACCF : list call := calls_AAACC ++ [CallSignal [F]].
Definition calls_AAACCFF : list call := calls_AAACCF ++ [CallSignal [F]].

Definition after_AAACCF : profiler := Eval vm_compute in state_after calls_AAACCF.
Definition after_AAACCFF : profiler := Eval vm_compute in state_after calls_AAACCFF.

End Trace.

(** ** Further definitions, for the properties of the remaining code *)

Section MoreDefinitions.
Context `{LispHost}.

(** The part of the state the trigger and the slot functions do not
    write: mode and timing, the dimensions of the pool, the two Lisp
    variables and the signal state of the process. *)
Definition control_of (s : profiler) :=
  (prof_mode s, prof_start_time s, prof_sample_interval s,
   prof_max_stack_depth s, prof_slot_heap_size s,
   profiler_max_stack_depth s, profiler_slot_heap_size s,
   sigprof_action s, itimer_prof s, sigprof_blocked s).

(** What the slot functions leave as it is: the control state, the
    scratch buffer, the total, and the sizes of the two arrays. *)
Definition same_frame (s s' : profiler) : Prop :=
  control_of s' = control_of s /\
  prof_backtrace s' = prof_backtrace s /\
  prof_total_count s' = prof_total_count s /\
  length (prof_hash_table s') = length (prof_hash_table s) /\
  length <$> prof_slot_heap s' = length <$> prof_slot_heap s.

(** The token the second loop of [prof_signal_handler] stores for a
    frame of the host. *)
Definition frame_token (function : Lisp_Object) : Lisp_Object :=
  if SYMBOLP function && negb (NILP (Ffboundp function)) then function else Qnil.

(** A stack is counted when its innermost frame gives a token. *)
Definition accepted (D : nat) (backlist : list Lisp_Object) : bool :=
  negb (NILP (aref (captured D backlist) 0)).

Definition count_accepted (D : nat) (bls : list (list Lisp_Object)) : nat :=
  length (filter (fun bl => accepted D bl = true) bls).

(** Number of slots in use. *)
Definition used_count (h : list prof_slot) : nat :=
  length (filter (fun sl => used sl = true) h).

(** Calls that neither allocate the pool nor run the trigger. *)
Definition quiet (c : call) : bool :=
  match c with
  | CallStart _ _ _ _ _ | CallSignal _ => false
  | _ => true
  end.

Definition is_start (c : call) : bool :=
  match c with
  | CallStart _ _ _ _ _ => true
  | _ => false
  end.

Definition is_reset (c : call) : bool :=
  match c with
  | CallReset => true
  | _ => false
  end.

(** Every slot in use holds a backtrace whose first token is not the
    sentinel. *)
Definition heads_ok (h : list prof_slot) : Prop :=
  forall i sl, h !! i = Some sl -> used sl = true ->
    NILP (aref (backtrace sl) 0) = false.

End MoreDefinitions.

(** The slot array of a state and its slots, for the concrete runs. *)
Definition no_slot : prof_slot :=
  {| next := None; prev := None; backtrace := []; count := 0; used := false |}.

Definition heap_of (s : profiler) : list prof_slot := default [] (prof_slot_heap s).

Definition slot_of (s : profiler) (i : nat) : prof_slot :=
  default no_slot (heap_of s !! i).

Module Trace2.
Import Example64.

(** A third fbound symbol whose one-frame backtrace falls into the
    bucket of [A] and [B]. *)
Definition K : Lisp_Object := 18%Z.

(** Capacity 2, depth 1: [A] then [B], which share a bucket, so that
    the chain of that bucket holds slot 0 then slot 1. *)
Definition calls_AB2 : list call :=
  boot 1 2 ++ [CallSignal [Trace.A]; CallSignal [Trace.B]].
Definition after_AB2 : profiler := Eval vm_compute in Trace.state_after calls_AB2.

(** Capacity 2, depth 1, one sample: slot 1 is still on the free list. *)
Definition calls_A2 : list call := boot 1 2 ++ [CallSignal [Trace.A]].
Definition after_A2 : profiler := Eval vm_compute in Trace.state_after calls_A2.

Definition calls_A2C : list call := calls_A2 ++ [CallSignal [Trace.C]].
Definition after_A2C : profiler := Eval vm_compute in Trace.state_after calls_A2C.

(** Capacity 1, depth 1, no sample yet. *)
Definition after_boot1 : profiler := Eval vm_compute in Trace.state_after (boot 1 1).

(** Capacity 1, depth 0. *)
Definition after_depth0 : profiler := Eval vm_compute in Trace.state_after (boot 0 1).

(** Further calls after the first sample, none of them a reset. *)
Definition calls_more : list call :=
  [CallSetq 5 7; CallStop true; CallStart 2%Z 300%Z mem0 true true;
   CallSignal [Trace.B]].
Definition after_A_more : profiler :=
  Eval vm_compute in default syms_of_profiler (run calls_more Trace.after_A).

(** Calls that never start the profiler. *)
Definition calls_quiet : list call :=
  [CallSetq 3 4; CallSnapshot 5%Z; CallReset; CallStop true].

(** A run that starts, samples, stops and resets. *)
Definition calls_A_reset : list call := Trace.calls_A ++ [CallStop true; CallReset].
Definition after_A_reset : profiler :=
  Eval vm_compute in Trace.state_after calls_A_reset.

Definition report_A : lisp_data :=
  Eval vm_compute in
    default (Atom 0%Z) (fst <$> Fprofiler_take_snapshot 200%Z Trace.after_A).

End Trace2.

(** ** mem-limits.h

    The two file-level variables and the three definitions of
    [get_lim_data], of which the preprocessor keeps one.  A pointer is
    the integer its cast [(long) data_space_start] gives; an
    [unsigned int] has [UINT_WIDTH] bits.  The value the system call
    of each variant returns ([ulimit (3, 0)], [vlimit (LIM_DATA, -1)],
    the [rlim_cur] that [getrlimit] stores) is the argument
    [limit]. *)
Record mem_limits := {
  data_space_start : Z;
  lim_data : Z
}.

Definition to_uint (UINT_WIDTH : positive) (z : Z) : Z :=
  (z mod 2 ^ Z.pos UINT_WIDTH)%Z.

Inductive lim_config : Type :=
| USG (ULIMIT_BREAK_VALUE : option Z)
| VLIMIT
| BSD4_2 (RLIM_INFINITY : option Z).

Definition get_lim_data (UINT_WIDTH : positive) (cfg : lim_config) (limit : Z)
  (m : mem_limits) : mem_limits :=
  match cfg with
  | USG brk =>
      let lim1 := to_uint UINT_WIDTH (default limit brk) in
      {| data_space_start := data_space_start m;
         lim_data := to_uint UINT_WIDTH (lim1 - data_space_start m) |}
  | VLIMIT =>
      {| data_space_start := data_space_start m;
         lim_data := to_uint UINT_WIDTH limit |}
  | BSD4_2 inf =>
      {| data_space_start := data_space_start m;
         lim_data :=
           to_uint UINT_WIDTH (if inf is Some i then Z.land limit i else limit) |}
  end.

(** ** Backtrace buffers *)

Section Buffers.
Context `{LispHost}.

Lemma EQ_true (a b : Lisp_Object) : EQ a b = true <-> a = b.
Proof. unfold EQ. apply Z.eqb_eq. Qed.

Lemma aref_lookup (a : list Lisp_Object) i x : a !! i = Some x -> aref a i = x.
Proof. unfold aref. by intros ->. Qed.

Lemma prof_copy_backtrace_length k src dst :
  length (prof_copy_backtrace k src dst) = length dst.
Proof. induction k as [|k IH]; simpl; [done|]. by rewrite length_insert. Qed.

Lemma prof_copy_backtrace_lookup k src dst j :
  k <= length dst ->
  prof_copy_backtrace k src dst !! j =
  if decide (j < k) then Some (aref src j) else dst !! j.
Proof.
  induction k as [|k IH]; intros Hk; simpl.
  - done.
  - rewrite list_lookup_insert, prof_copy_backtrace_length.
    rewrite IH by lia.
    repeat case_decide; try done; try lia; destruct_and?; subst; try done; try lia.
    all: exfalso; naive_solver lia.
Qed.

Lemma prof_copy_backtrace_all D src dst :
  length src = D -> length dst = D -> prof_copy_backtrace D src dst = src.
Proof.
  intros Hs Hd. apply list_eq. intros j.
  rewrite prof_copy_backtrace_lookup by lia.
  case_decide.
  - destruct (lookup_lt_is_Some_2 src j) as [x Hx]; [lia|].
    rewrite Hx. f_equal. by apply aref_lookup.
  - rewrite !lookup_ge_None_2; [done|lia|lia].
Qed.

Lemma prof_backtrace_equal_from_spec k i a b :
  prof_backtrace_equal_from k i a b = true <->
  forall j, i <= j < i + k -> aref a j = aref b j.
Proof.
  revert i. induction k as [|k IH]; intros i; simpl.
  - split; [intros _ j ?; lia|done].
  - destruct (EQ (aref a i) (aref b i)) eqn:E.
    + apply EQ_true in E. rewrite IH. split.
      * intros Hj j ?. destruct (decide (j = i)) as [->|]; [done|]. apply Hj. lia.
      * intros Hj j ?. apply Hj. lia.
    + split; [done|]. intros Hj. 
      assert (aref a i = aref b i) as E' by (apply Hj; lia).
      apply EQ_true in E'. congruence.
Qed.

Lemma prof_backtrace_equal_iff D a b :
  length a = D -> length b = D ->
  prof_backtrace_equal D a b = true <-> a = b.
Proof.
  intros Ha Hb. unfold prof_backtrace_equal.
  rewrite prof_backtrace_equal_from_spec. split.
  - intros Hj. apply list_eq. intros j.
    destruct (decide (j < D)) as [Hlt|Hge].
    + destruct (lookup_lt_is_Some_2 a j) as [x Hx]; [lia|].
      destruct (lookup_lt_is_Some_2 b j) as [y Hy]; [lia|].
      specialize (Hj j ltac:(lia)).
      rewrite (aref_lookup _ _ _ Hx), (aref_lookup _ _ _ Hy) in Hj.
      congruence.
    + rewrite !lookup_ge_None_2; [done|lia|lia].
  - by intros -> j _.
Qed.

Lemma prof_clear_backtrace_length k buf :
  length (prof_clear_backtrace k buf) = length buf.
Proof. induction k as [|k IH]; simpl; [done|]. by rewrite length_insert. Qed.

Lemma prof_clear_backtrace_all D buf :
  length buf = D -> prof_clear_backtrace D buf = replicate D Qnil.
Proof.
  intros Hl. 
  assert (forall k j, k <= length buf ->
    prof_clear_backtrace k buf !! j = if decide (j < k) then Some Qnil else buf !! j) as Hlk.
  { induction k as [|k IH]; intros j Hk; simpl.
    - done.
    - rewrite list_lookup_insert, prof_clear_backtrace_length, IH by lia.
      repeat case_decide; try done; try lia; destruct_and?; subst; try done; try lia.
      all: exfalso; naive_solver lia. }
  apply list_eq. intros j. rewrite Hlk by lia.
  case_decide.
  - symmetry. apply lookup_replicate. split; [done|lia].
  - rewrite !lookup_ge_None_2; [done| rewrite length_replicate; lia | lia].
Qed.

Lemma prof_walk_backtrace_length i D bl buf :
  length (prof_walk_backtrace i D bl buf) = length buf.
Proof.
  revert i buf. induction bl as [|f bl IH]; intros i buf; simpl; [done|].
  case_decide; [|done]. rewrite IH. destruct (_ && _); [|done].
  by rewrite length_insert.
Qed.

Lemma prof_walk_backtrace_below i D bl buf j :
  j < i -> prof_walk_backtrace i D bl buf !! j = buf !! j.
Proof.
  revert i buf. induction bl as [|f bl IH]; intros i buf Hj; simpl; [done|].
  case_decide; [|done]. rewrite IH by lia. destruct (_ && _); [|done].
  rewrite list_lookup_insert_ne by lia. done.
Qed.

End Buffers.

(** ** The slot array under the functions that write to it *)

Section Heap.
Context `{LispHost}.

Lemma insert_imap (h : list prof_slot) i si f :
  h !! i = Some si -> <[i := f si]> h = imap (upd i f) h.
Proof.
  intros Hi. apply list_eq. intros j.
  rewrite list_lookup_imap, list_lookup_insert. unfold upd.
  pose proof (lookup_lt_Some _ _ _ Hi).
  destruct (decide (j = i)) as [->|].
  - rewrite Hi. simpl. case_decide as Hd; [done|]. destruct Hd. by split.
  - case_decide as Hd; [by destruct Hd|]. by destruct (h !! j).
Qed.

Lemma imap_imap_slot (F G : nat -> prof_slot -> prof_slot) (h : list prof_slot) :
  imap F (imap G h) = imap (fun j sj => F j (G j sj)) h.
Proof.
  apply list_eq. intros j. rewrite !list_lookup_imap.
  by destruct (h !! j).
Qed.

Lemma imap_ext_slot (F G : nat -> prof_slot -> prof_slot) (h : list prof_slot) :
  (forall j sj, h !! j = Some sj -> F j sj = G j sj) -> imap F h = imap G h.
Proof.
  intros E. apply list_eq. intros j. rewrite !list_lookup_imap.
  destruct (h !! j) eqn:Hj; simpl; [|done]. f_equal. by apply E.
Qed.

Lemma slot_at_heap s h i : prof_slot_heap s = Some h -> slot_at s i = h !! i.
Proof. unfold slot_at. by intros ->. Qed.

Lemma update_slot_heap s h i si f :
  prof_slot_heap s = Some h -> h !! i = Some si ->
  update_slot i f s = Some (set_slot_heap (Some (imap (upd i f) h)) s).
Proof.
  intros Hh Hi. unfold update_slot. rewrite Hh. simpl. rewrite Hi. simpl.
  by rewrite (insert_imap _ _ _ _ Hi).
Qed.

Lemma prof_unlink_slot_eq s h i si :
  prof_slot_heap s = Some h -> h !! i = Some si ->
  (forall p, prev si = Some p -> p < length h) ->
  (forall n, next si = Some n -> n < length h) ->
  prof_unlink_slot i s =
  Some (set_hash_table (unlink_table (prof_max_stack_depth s) si (prof_hash_table s))
          (set_slot_heap (Some (imap (unlink_adjust si) h)) s)).
Proof.
  intros Hh Hi Hp Hn. unfold prof_unlink_slot.
  rewrite (slot_at_heap _ _ _ Hh), Hi. simpl.
  assert (forall F G : nat -> prof_slot -> prof_slot,
    (forall j sj, F j sj = G j sj) -> imap F h = imap G h) as Hext.
  { intros F G E. apply imap_ext_slot. intros j sj _. apply E. }
  unfold unlink_table.
  destruct (prev si) as [p|] eqn:Ep.
  - destruct (lookup_lt_is_Some_2 h p) as [sp Hsp]; [by apply Hp|].
    rewrite (update_slot_heap _ _ _ _ _ Hh Hsp). simpl.
    unfold slot_at. simpl. rewrite list_lookup_imap, Hi. simpl.
    assert (next (upd p (with_next (next si)) i si) = next si) as ->.
    { unfold upd. case_decide; [|done]. done. }
    assert (prev (upd p (with_next (next si)) i si) = Some p) as ->.
    { unfold upd. case_decide; simpl; done. }
    destruct (next si) as [n|] eqn:En.
    + destruct (lookup_lt_is_Some_2 h n) as [sn Hsn]; [by apply Hn|].
      unfold update_slot. simpl. rewrite list_lookup_imap, Hsn. simpl.
      rewrite (insert_imap (imap _ h) n _ (with_prev (Some p))).
      2:{ by rewrite list_lookup_imap, Hsn. }
      rewrite imap_imap_slot.
      unfold set_hash_table, set_slot_heap; simpl. do 3 f_equal.
      apply Hext.
      intros j sj. unfold upd, unlink_adjust, with_prev, with_next.
      rewrite Ep, En.
      repeat case_decide; simplify_eq; simpl; try done; destruct sj; done.
    + unfold set_hash_table, set_slot_heap; simpl. do 3 f_equal.
      apply Hext.
      intros j sj. unfold upd, unlink_adjust, with_prev, with_next.
      rewrite Ep, En.
      repeat case_decide; simplify_eq; simpl; try done; destruct sj; done.
  - simpl. unfold slot_at. simpl. rewrite Hh. simpl. rewrite Hi. simpl.
    destruct (next si) as [n|] eqn:En.
    + destruct (lookup_lt_is_Some_2 h n) as [sn Hsn]; [by apply Hn|].
      unfold update_slot. simpl. rewrite Hh. simpl. rewrite Hsn. simpl.
      rewrite (insert_imap _ _ _ _ Hsn).
      unfold set_hash_table, set_slot_heap; simpl. do 3 f_equal.
      apply Hext.
      intros j sj. unfold upd, unlink_adjust, with_prev, with_next.
      rewrite Ep, En.
      repeat case_decide; simplify_eq; simpl; try done; destruct sj; done.
    + assert (imap (unlink_adjust si) h = h) as ->.
      { apply list_eq. intros j. rewrite list_lookup_imap.
        destruct (h !! j) as [sj|]; simpl; [|done]. f_equal.
        unfold unlink_adjust. rewrite Ep, En. 
        repeat case_decide; simplify_eq; destruct sj; done. }
      unfold set_hash_table, set_slot_heap; simpl. by rewrite <- Hh.
Qed.

Lemma imap_ext_all (F G : nat -> prof_slot -> prof_slot) (h : list prof_slot) :
  (forall j sj, F j sj = G j sj) -> imap F h = imap G h.
Proof. intros E. apply imap_ext_slot. intros j sj _. apply E. Qed.

Lemma prof_free_slot_eq s h i si :
  prof_slot_heap s = Some h -> h !! i = Some si -> used si = true ->
  (forall p, prev si = Some p -> p < length h) ->
  (forall n, next si = Some n -> n < length h) ->
  prof_free_slot i s =
  Some (set_free_list (Some i)
          (set_hash_table
             (unlink_table (prof_max_stack_depth s) si (prof_hash_table s))
             (set_slot_heap
                (Some (imap (free_adjust i si (prof_free_list s)) h)) s))).
Proof.
  intros Hh Hi Hu Hp Hn. unfold prof_free_slot.
  rewrite (slot_at_heap _ _ _ Hh), Hi. simpl. rewrite Hu.
  rewrite (prof_unlink_slot_eq _ _ _ _ Hh Hi Hp Hn). simpl.
  unfold update_slot. simpl. rewrite list_lookup_imap, Hi. simpl.
  rewrite list_lookup_insert_eq.
  2:{ rewrite length_imap. by apply lookup_lt_Some in Hi. }
  simpl. rewrite list_insert_insert_eq.
  unfold set_free_list, set_hash_table, set_slot_heap. simpl. do 3 f_equal.
  rewrite (insert_imap (imap _ h) i (unlink_adjust si i si)
             (fun x => with_next (prof_free_list s) (with_used false x))).
  2:{ by rewrite list_lookup_imap, Hi. }
  rewrite imap_imap_slot. done.
Qed.

Lemma prof_evict_slot_eq s h i si :
  prof_slot_heap s = Some h -> h !! i = Some si -> used si = true ->
  (forall p, prev si = Some p -> p < length h) ->
  (forall n, next si = Some n -> n < length h) ->
  prof_evict_slot i s =
  Some (set_others_count (ulong (prof_others_count s + count si))
          (set_free_list (Some i)
             (set_hash_table
                (unlink_table (prof_max_stack_depth s) si (prof_hash_table s))
                (set_slot_heap
                   (Some (imap (free_adjust i si (prof_free_list s)) h)) s)))).
Proof.
  intros Hh Hi Hu Hp Hn. unfold prof_evict_slot.
  rewrite (slot_at_heap _ _ _ Hh), Hi. simpl.
  by rewrite (prof_free_slot_eq _ h i si).
Qed.

Lemma prof_allocate_slot_eq s h i si :
  prof_slot_heap s = Some h -> prof_free_list s = Some i -> h !! i = Some si ->
  prof_allocate_slot s =
  Some (i, set_free_list (next si)
             (set_slot_heap (Some (<[i := with_used true si]> h)) s)).
Proof.
  intros Hh Hf Hi. unfold prof_allocate_slot. rewrite Hf. simpl. rewrite Hf. simpl.
  unfold update_slot. rewrite Hh. simpl. rewrite Hi. simpl. rewrite Hf. simpl.
  unfold slot_at. simpl. rewrite list_lookup_insert_eq by by apply lookup_lt_Some in Hi.
  done.
Qed.

Lemma prof_make_slot_eq s h i si bt :
  prof_slot_heap s = Some h -> prof_free_list s = Some i -> h !! i = Some si ->
  prof_make_slot bt s =
  Some (i, set_free_list (next si)
             (set_slot_heap
                (Some (<[i := made_slot (prof_max_stack_depth s) bt si]> h)) s)).
Proof.
  intros Hh Hf Hi. unfold prof_make_slot.
  rewrite (prof_allocate_slot_eq _ _ _ _ Hh Hf Hi). simpl.
  pose proof (lookup_lt_Some _ _ _ Hi) as Hlt.
  unfold update_slot. simpl.
  rewrite list_lookup_insert_eq by done. simpl.
  rewrite list_lookup_insert_eq by by rewrite length_insert. simpl.
  rewrite list_lookup_insert_eq by by rewrite !length_insert. simpl.
  rewrite list_lookup_insert_eq by by rewrite !length_insert. simpl.
  rewrite !list_insert_insert_eq. done.
Qed.

(** An allocation that has to evict continues like an allocation from
    the state the eviction leaves. *)
Lemma prof_make_slot_evict s s' bt :
  prof_free_list s = None -> prof_evict_min_slot s = Some s' ->
  is_Some (prof_free_list s') ->
  prof_make_slot bt s = prof_make_slot bt s'.
Proof.
  intros Hf He [i Hi]. unfold prof_make_slot, prof_allocate_slot.
  rewrite Hf, He. simpl. rewrite Hi. done.
Qed.

End Heap.

(** ** Freeing a slot preserves the pool invariant *)

Section Free.
Context `{LispHost}.

Lemma lookup_imap_Some (F : nat -> prof_slot -> prof_slot) (h : list prof_slot) j x :
  imap F h !! j = Some x <-> exists sj, h !! j = Some sj /\ x = F j sj.
Proof. rewrite list_lookup_imap, fmap_Some. naive_solver. Qed.

Lemma free_adjust_ne i si fl j sj :
  j <> i -> free_adjust i si fl j sj = unlink_adjust si j sj.
Proof. intros Hne. unfold free_adjust, upd. by rewrite decide_False. Qed.

Lemma free_adjust_eq i si fl sj :
  free_adjust i si fl i sj =
  with_next fl (with_used false (unlink_adjust si i sj)).
Proof. unfold free_adjust, upd. by rewrite decide_True. Qed.

Lemma free_adjust_used_true i si fl j sj :
  used (free_adjust i si fl j sj) = true -> j <> i /\ used sj = true.
Proof.
  destruct (decide (j = i)) as [->|Hne].
  - by rewrite free_adjust_eq.
  - by rewrite free_adjust_ne.
Qed.

Lemma free_adjust_links D h t i si fl :
  links_ok D h t -> h !! i = Some si -> used si = true ->
  links_ok D (imap (free_adjust i si fl) h) (unlink_table D si t).
Proof.
  intros [Hnext Hprev Hhead Hfirst] Hi Hu. split.
  - (* lk_next *)
    intros y sy' x (sy & Hy & ->)%lookup_imap_Some Huy Hnx.
    apply free_adjust_used_true in Huy as [Hyi Huy].
    rewrite free_adjust_ne in Hnx |- * by done. simpl in Hnx.
    unfold bucket_of at 2. simpl. fold (bucket_of D sy).
    case_decide as Hpy.
    + destruct (Hnext i si x Hi Hu Hnx) as (sx & Hx & Hux & Hpx & Hbx).
      destruct (Hprev i si y Hi Hu Hpy) as (sy0 & Hy0 & _ & Hny0).
      rewrite Hy in Hy0. injection Hy0 as <-.
      destruct (Hnext y sy i Hy Huy Hny0) as (si0 & Hi0 & _ & _ & Hbi).
      rewrite Hi in Hi0. injection Hi0 as <-.
      assert (x <> i) as Hxi.
      { intros ->. rewrite Hi in Hx. injection Hx as <-. congruence. }
      exists (free_adjust i si fl x sx). rewrite free_adjust_ne by done.
      split; [apply lookup_imap_Some; exists sx; by rewrite free_adjust_ne|].
      simpl. rewrite decide_True by done.
      repeat split; [done|done|]. unfold bucket_of in *. simpl. congruence.
    + destruct (Hnext y sy x Hy Huy Hnx) as (sx & Hx & Hux & Hpx & Hbx).
      assert (x <> i) as Hxi.
      { intros ->. rewrite Hi in Hx. injection Hx as <-. congruence. }
      exists (free_adjust i si fl x sx). rewrite free_adjust_ne by done.
      split; [apply lookup_imap_Some; exists sx; by rewrite free_adjust_ne|].
      simpl. repeat split; [done| |done].
      case_decide as Hnix; [|done].
      destruct (Hnext i si x Hi Hu Hnix) as (sx0 & Hx0 & _ & Hpx0 & _).
      rewrite Hx in Hx0. injection Hx0 as <-. congruence.
  - (* lk_prev *)
    intros y sy' x (sy & Hy & ->)%lookup_imap_Some Huy Hpx.
    apply free_adjust_used_true in Huy as [Hyi Huy].
    rewrite free_adjust_ne in Hpx by done. simpl in Hpx.
    case_decide as Hny.
    + destruct (Hprev i si x Hi Hu Hpx) as (sx & Hx & Hux & Hnx).
      assert (x <> i) as Hxi.
      { intros ->. rewrite Hi in Hx. injection Hx as <-. congruence. }
      exists (free_adjust i si fl x sx). rewrite free_adjust_ne by done.
      split; [apply lookup_imap_Some; exists sx; by rewrite free_adjust_ne|].
      simpl. rewrite decide_True by done. done.
    + destruct (Hprev y sy x Hy Huy Hpx) as (sx & Hx & Hux & Hnx).
      assert (x <> i) as Hxi.
      { intros ->. rewrite Hi in Hx. injection Hx as <-. congruence. }
      exists (free_adjust i si fl x sx). rewrite free_adjust_ne by done.
      split; [apply lookup_imap_Some; exists sx; by rewrite free_adjust_ne|].
      simpl. split; [done|].
      case_decide as Hpix; [|done].
      destruct (Hprev i si x Hi Hu Hpix) as (sx0 & Hx0 & _ & Hnx0).
      rewrite Hx in Hx0. injection Hx0 as <-. congruence.
  - (* lk_head *)
    intros b x Hb.
    assert (forall sx, h !! x = Some sx -> used sx = true -> prev sx = None ->
                       bucket_of D sx = b -> x <> i ->
            exists sx', imap (free_adjust i si fl) h !! x = Some sx' /\
              used sx' = true /\ prev sx' = None /\ bucket_of D sx' = b) as Hkeep.
    { intros sx Hx Hux Hpx Hbx Hxi.
      exists (free_adjust i si fl x sx). rewrite free_adjust_ne by done.
      split; [apply lookup_imap_Some; exists sx; by rewrite free_adjust_ne|].
      simpl. repeat split; [done| |done].
      case_decide as Hnix; [|done].
      destruct (Hnext i si x Hi Hu Hnix) as (sx0 & Hx0 & _ & Hpx0 & _).
      rewrite Hx in Hx0. injection Hx0 as <-. congruence. }
    unfold unlink_table in Hb. destruct (prev si) as [p|] eqn:Ep.
    + destruct (Hhead b x Hb) as (sx & Hx & Hux & Hpx & Hbx).
      apply (Hkeep sx); try done.
      intros ->. rewrite Hi in Hx. injection Hx as <-. congruence.
    + pose proof (Hfirst i si Hi Hu Ep) as Hti.
      fold (bucket_of D si) in Hb.
      destruct (decide (b = bucket_of D si)) as [->|Hne].
      * rewrite list_lookup_insert_eq in Hb by by apply lookup_lt_Some in Hti.
        injection Hb as Hnx.
        destruct (Hnext i si x Hi Hu Hnx) as (sx & Hx & Hux & Hpx & Hbx).
        assert (x <> i) as Hxi.
        { intros ->. rewrite Hi in Hx. injection Hx as <-. congruence. }
        exists (free_adjust i si fl x sx). rewrite free_adjust_ne by done.
        split; [apply lookup_imap_Some; exists sx; by rewrite free_adjust_ne|].
        simpl. rewrite decide_True by done. done.
      * rewrite list_lookup_insert_ne in Hb by done.
        destruct (Hhead b x Hb) as (sx & Hx & Hux & Hpx & Hbx).
        apply (Hkeep sx); try done.
        intros ->. rewrite Hi in Hx. injection Hx as <-. congruence.
  - (* lk_first *)
    intros x sx' (sx & Hx & ->)%lookup_imap_Some Hux Hpx.
    apply free_adjust_used_true in Hux as [Hxi Hux].
    rewrite free_adjust_ne in Hpx |- * by done. simpl in Hpx.
    unfold bucket_of. simpl. fold (bucket_of D sx).
    unfold unlink_table. fold (bucket_of D si).
    case_decide as Hnix.
    + rewrite Hpx.
      destruct (Hnext i si x Hi Hu Hnix) as (sx0 & Hx0 & _ & _ & Hbx).
      rewrite Hx in Hx0. injection Hx0 as <-. rewrite Hbx.
      pose proof (Hfirst i si Hi Hu Hpx) as Hti.
      rewrite list_lookup_insert_eq by by apply lookup_lt_Some in Hti.
      by rewrite Hnix.
    + pose proof (Hfirst x sx Hx Hux Hpx) as Htx.
      destruct (prev si) as [p|] eqn:Ep; [done|].
      pose proof (Hfirst i si Hi Hu Ep) as Hti.
      rewrite list_lookup_insert_ne; [done|].
      intros Hb. rewrite Hb in Hti. congruence.
Qed.

(** *** The free list *)

Lemma next_path_ext (h h' : list prof_slot) p l :
  (forall j, j ∈ l -> next <$> h' !! j = next <$> h !! j) ->
  next_path h p l -> next_path h' p l.
Proof.
  intros E Hp. induction Hp as [|i sl l Hi Hp IH]; [constructor|].
  pose proof (E i ltac:(left)) as Ei. rewrite Hi in Ei. simpl in Ei.
  apply fmap_Some in Ei as (sl' & Hi' & Hn).
  apply (next_path_cons _ _ sl'); [done|]. rewrite <- Hn.
  apply IH. intros j Hj. apply E. by right.
Qed.

Lemma next_path_lookup (h : list prof_slot) p l j :
  next_path h p l -> j ∈ l -> is_Some (h !! j).
Proof.
  induction 1 as [|i sl l Hi Hp IH]; intros Hj.
  - by apply elem_of_nil in Hj.
  - apply elem_of_cons in Hj as [->|Hj]; [by eexists|by apply IH].
Qed.

Lemma free_adjust_free D h t fl i si :
  links_ok D h t -> free_ok h fl -> h !! i = Some si -> used si = true ->
  free_ok (imap (free_adjust i si fl) h) (Some i).
Proof.
  intros Hlk (l & Hp & Hnd & Hl) Hi Hu.
  assert (i ∉ l) as Hil.
  { intros Hin. apply (Hl i si Hi) in Hin. congruence. }
  exists (i :: l). split; [|split].
  - apply (next_path_cons _ _ (free_adjust i si fl i si)).
    + apply lookup_imap_Some. by exists si.
    + rewrite free_adjust_eq. simpl.
      apply (next_path_ext h); [|done].
      intros j Hj. rewrite list_lookup_imap.
      destruct (next_path_lookup _ _ _ _ Hp Hj) as [sj Hsj].
      rewrite Hsj. simpl. f_equal.
      assert (j <> i) by (intros ->; done).
      rewrite free_adjust_ne by done. simpl.
      case_decide as Hpj; [|done].
      destruct (lk_prev _ _ _ Hlk i si j Hi Hu Hpj) as (sj0 & Hj0 & Huj & _).
      rewrite Hsj in Hj0. injection Hj0 as <-.
      apply (Hl j sj Hsj) in Hj. congruence.
  - by constructor.
  - intros j sj' (sj & Hj & ->)%lookup_imap_Some.
    destruct (decide (j = i)) as [->|Hne].
    + rewrite free_adjust_eq. simpl. split; [intros _; by left|done].
    + rewrite free_adjust_ne by done. simpl.
      rewrite (Hl j sj Hj). rewrite elem_of_cons.
      split; [intros ?; by right|intros [?|?]; done].
Qed.

(** *** The sum of the counts *)

Lemma ulong_range z : (0 <= ulong z < 2 ^ Z.pos ULONG_WIDTH)%Z.
Proof. unfold ulong. apply Z.mod_pos_bound. by apply Z.pow_pos_nonneg. Qed.

Lemma ulong_add_r a b : ulong (a + ulong b) = ulong (a + b).
Proof. unfold ulong. apply Zplus_mod_idemp_r. Qed.

Lemma ulong_add_l a b : ulong (ulong a + b) = ulong (a + b).
Proof. unfold ulong. apply Zplus_mod_idemp_l. Qed.

Lemma ulong_small z : (0 <= z < 2 ^ Z.pos ULONG_WIDTH)%Z -> ulong z = z.
Proof. intros Hz. unfold ulong. by apply Z.mod_small. Qed.

Lemma sum_used_imap_same (F : nat -> prof_slot -> prof_slot) (h : list prof_slot) :
  (forall j sj, h !! j = Some sj -> slot_weight (F j sj) = slot_weight sj) ->
  sum_used (imap F h) = sum_used h.
Proof.
  unfold sum_used. revert F. induction h as [|x h IH]; intros F E; simpl; [done|].
  rewrite (E 0 x) by done. f_equal. apply (IH (F ∘ S)).
  intros j sj Hj. by apply (E (S j)).
Qed.

Lemma sum_used_imap_one (F : nat -> prof_slot -> prof_slot) (h : list prof_slot) i si :
  h !! i = Some si ->
  (forall j sj, j <> i -> h !! j = Some sj -> slot_weight (F j sj) = slot_weight sj) ->
  sum_used (imap F h) = (sum_used h - slot_weight si + slot_weight (F i si))%Z.
Proof.
  revert F i. induction h as [|x h IH]; intros F i Hi E; [done|].
  destruct i as [|i]; simpl in Hi.
  - injection Hi as ->. 
    change (sum_used (imap F (si :: h))) with
      (slot_weight (F 0%nat si) + sum_used (imap (F ∘ S) h))%Z.
    change (sum_used (si :: h)) with (slot_weight si + sum_used h)%Z.
    rewrite sum_used_imap_same; [lia|].
    intros j sj Hj. by apply (E (S j)).
  - change (sum_used (imap F (x :: h))) with
      (slot_weight (F 0%nat x) + sum_used (imap (F ∘ S) h))%Z.
    change (sum_used (x :: h)) with (slot_weight x + sum_used h)%Z.
    rewrite (E 0 x) by done.
    rewrite (IH (F ∘ S) i Hi); [simpl; lia|].
    intros j sj Hne Hj. apply (E (S j)); [lia|done].
Qed.

Lemma sum_used_insert (h : list prof_slot) i si x :
  h !! i = Some si ->
  sum_used (<[i := x]> h) = (sum_used h - slot_weight si + slot_weight x)%Z.
Proof.
  intros Hi. rewrite (insert_imap h i si (fun _ => x) Hi).
  rewrite (sum_used_imap_one _ _ i si Hi).
  - unfold upd. by rewrite decide_True.
  - intros j sj Hne _. unfold upd. by rewrite decide_False.
Qed.

(** *** Eviction of a slot in use *)

Lemma links_next_lt D h t y sy x :
  links_ok D h t -> h !! y = Some sy -> used sy = true -> next sy = Some x ->
  x < length h.
Proof.
  intros Hlk Hy Hu Hn.
  destruct (lk_next _ _ _ Hlk y sy x Hy Hu Hn) as (sx & Hx & _).
  by apply lookup_lt_Some in Hx.
Qed.

Lemma links_prev_lt D h t y sy x :
  links_ok D h t -> h !! y = Some sy -> used sy = true -> prev sy = Some x ->
  x < length h.
Proof.
  intros Hlk Hy Hu Hn.
  destruct (lk_prev _ _ _ Hlk y sy x Hy Hu Hn) as (sx & Hx & _).
  by apply lookup_lt_Some in Hx.
Qed.

Lemma unlink_table_length D si t : length (unlink_table D si t) = length t.
Proof. unfold unlink_table. destruct (prev si); [done|]. by rewrite length_insert. Qed.

Lemma prof_evict_slot_ok s h v sv :
  pool_ok s h -> h !! v = Some sv -> used sv = true ->
  prof_evict_slot v s = Some (evicted v sv h s) /\
  pool_ok (evicted v sv h s) (imap (free_adjust v sv (prof_free_list s)) h).
Proof.
  intros Hok Hv Hu. destruct Hok as [Hheap Hsize Hpos Htab Hscr Hbuf Hlk Hfree Hcr Hor Hbal]. split.
  - apply prof_evict_slot_eq; try done.
    + intros p. by apply (links_prev_lt _ _ _ _ _ _ Hlk Hv).
    + intros n. by apply (links_next_lt _ _ _ _ _ _ Hlk Hv).
  - split; simpl.
    + done.
    + by rewrite length_imap.
    + by rewrite length_imap.
    + by rewrite unlink_table_length.
    + done.
    + intros j sj' (sj & Hj & ->)%lookup_imap_Some.
      rewrite <- (Hbuf j sj Hj).
      unfold free_adjust, upd. by case_decide.
    + by apply free_adjust_links.
    + by apply (free_adjust_free _ _ _ _ _ _ Hlk).
    + intros j sj' (sj & Hj & ->)%lookup_imap_Some Huj.
      apply free_adjust_used_true in Huj as [Hne Huj].
      rewrite free_adjust_ne by done. simpl. by apply (Hcr j).
    + apply ulong_range.
    + rewrite (sum_used_imap_one _ _ v sv Hv).
      2:{ intros j sj Hne _. by rewrite free_adjust_ne. }
      rewrite free_adjust_eq. unfold slot_weight at 1 2. simpl. rewrite Hu.
      rewrite Hbal, ulong_add_r. f_equal. lia.
Qed.

End Free.

(** ** The eviction scan *)

Section Evict.
Context `{LispHost}.

Lemma free_none_all_used (h : list prof_slot) :
  free_ok h None -> forall i sl, h !! i = Some sl -> used sl = true.
Proof.
  intros (l & Hp & _ & Hl) i sl Hi. inversion Hp; subst.
  destruct (used sl) eqn:Hu; [done|].
  apply (Hl i sl Hi) in Hu. by apply elem_of_nil in Hu.
Qed.

(** With every slot in use, the provisional minimum after [k]
    iterations is the first slot of minimal count among the first
    [k]. *)
Lemma prof_evict_min_scan_used (h : list prof_slot) k :
  (forall i sl, h !! i = Some sl -> used sl = true) ->
  0 < k <= length h ->
  exists m sm, prof_evict_min_scan h k = Some (Some m) /\ m < k /\
    h !! m = Some sm /\
    (forall j sj, j < k -> h !! j = Some sj -> (count sm <= count sj)%Z) /\
    (forall j sj, j < m -> h !! j = Some sj -> (count sm < count sj)%Z).
Proof.
  intros Hall. induction k as [|k IH]; intros Hk; [lia|].
  destruct (lookup_lt_is_Some_2 h k) as [sk Hsk]; [lia|].
  destruct (decide (k = 0)) as [->|Hk0].
  - exists 0, sk. simpl. rewrite Hsk. simpl.
    split_and!; [done|lia|done| |intros; lia].
    intros j sj Hj Hsj. assert (j = 0) as -> by lia.
    rewrite Hsk in Hsj. injection Hsj as <-. lia.
  - destruct IH as (m & sm & Hscan & Hm & Hsm & Hle & Hlt); [lia|].
    simpl. rewrite Hscan. simpl. rewrite Hsk. simpl.
    rewrite (Hall k sk Hsk). rewrite Hsm. simpl.
    destruct (Z.ltb_spec (count sk) (count sm)) as [Hc|Hc].
    + exists k, sk. split_and!; [done|lia|done| |].
      * intros j sj Hj Hsj. destruct (decide (j = k)) as [->|].
        -- rewrite Hsk in Hsj. injection Hsj as <-. lia.
        -- specialize (Hle j sj ltac:(lia) Hsj). lia.
      * intros j sj Hj Hsj. specialize (Hle j sj ltac:(lia) Hsj). lia.
    + exists m, sm. split_and!; [done|lia|done| |done].
      intros j sj Hj Hsj. destruct (decide (j = k)) as [->|].
      * rewrite Hsk in Hsj. injection Hsj as <-. lia.
      * apply (Hle j sj); [lia|done].
Qed.

Lemma prof_evict_min_slot_ok s h :
  pool_ok s h -> prof_free_list s = None ->
  exists v sv, first_min h v sv /\ used sv = true /\
    prof_evict_min_scan h (prof_slot_heap_size s) = Some (Some v) /\
    prof_evict_min_slot s = Some (evicted v sv h s) /\
    pool_ok (evicted v sv h s) (imap (free_adjust v sv None) h).
Proof.
  intros Hok Hf.
  assert (forall i sl, h !! i = Some sl -> used sl = true) as Hall.
  { apply free_none_all_used. rewrite <- Hf. apply Hok. }
  destruct (prof_evict_min_scan_used h (length h) Hall)
    as (v & sv & Hscan & Hv & Hsv & Hle & Hlt).
  { pose proof (pool_pos _ _ Hok). lia. }
  exists v, sv.
  destruct (prof_evict_slot_ok s h v sv Hok Hsv (Hall v sv Hsv)) as [He Hok'].
  rewrite Hf in Hok'.
  rewrite <- (pool_size _ _ Hok).
  split_and!; try done.
  - split_and!; [done| |done].
    intros j sj Hj. apply (Hle j sj); [|done]. by apply lookup_lt_Some in Hj.
  - by apply (Hall v).
  - unfold prof_evict_min_slot. rewrite (pool_heap _ _ Hok). simpl.
    rewrite <- (pool_size _ _ Hok), Hscan. simpl. done.
Qed.

End Evict.

(** ** Bucket chains and the lookup scan *)

Section Chains.
Context `{LispHost}.

Lemma prev_path_cons_inv (h : list prof_slot) x l :
  prev_path h x l -> exists l', l = x :: l'.
Proof. destruct 1; eauto. Qed.

Lemma prev_path_det (h : list prof_slot) x l1 l2 :
  prev_path h x l1 -> prev_path h x l2 -> l1 = l2.
Proof.
  intros H1. revert l2.
  induction H1 as [x sx Hx Hp|x sx y l Hx Hp Hy IH]; intros l2 H2.
  - inversion H2; subst; [done|congruence].
  - inversion H2 as [|x' sx' y' l' Hx' Hp' Hy']; subst; [congruence|].
    assert (y' = y) as -> by congruence. f_equal. by apply IH.
Qed.

Lemma prev_path_suffix (h : list prof_slot) x l l1 z l2 :
  prev_path h x l -> l = l1 ++ z :: l2 -> prev_path h z (z :: l2).
Proof.
  intros Hp. revert l1.
  induction Hp as [x sx Hx Hp|x sx y l Hx Hp Hy IH]; intros l1 E.
  - destruct l1 as [|a [|b l1]]; simplify_eq/=. by eapply prev_path_head.
  - destruct l1 as [|a l1]; simplify_eq/=.
    + by eapply prev_path_step.
    + by eapply IH.
Qed.

Lemma prev_path_lt (h : list prof_slot) x l z :
  prev_path h x l -> z ∈ l -> z < length h.
Proof.
  induction 1 as [x sx Hx Hp|x sx y l Hx Hp Hy IH]; intros Hz.
  - apply list_elem_of_singleton in Hz as ->. by apply lookup_lt_Some in Hx.
  - apply elem_of_cons in Hz as [->|Hz]; [by apply lookup_lt_Some in Hx|auto].
Qed.

Lemma prev_path_NoDup (h : list prof_slot) x l : prev_path h x l -> NoDup l.
Proof.
  induction 1 as [x sx Hx Hp|x sx y l Hx Hp Hy IH].
  - apply NoDup_singleton.
  - constructor; [|done]. intros Hin.
    apply list_elem_of_split in Hin as (l1 & l2 & E).
    pose proof (prev_path_suffix _ _ _ _ _ _ Hy E) as Hs.
    pose proof (prev_path_det _ _ _ _ Hs (prev_path_step _ _ _ _ _ Hx Hp Hy)) as E'.
    injection E' as ->. apply (f_equal length) in E.
    rewrite length_app in E. simpl in E. lia.
Qed.

Lemma prev_path_length (h : list prof_slot) x l :
  prev_path h x l -> length l <= length h.
Proof.
  intros Hp.
  assert (length (seq 0 (length h)) = length h) as <- by apply length_seq.
  apply submseteq_length, NoDup_submseteq; [by eapply prev_path_NoDup|].
  intros z Hz. apply elem_of_seq. pose proof (prev_path_lt _ _ _ _ Hp Hz). lia.
Qed.

(** From a slot in use whose [prev] links lead to a bucket head, the
    [next] links end after at most [length h] slots, all in use and in
    the same bucket. *)
Lemma next_path_from D (h : list prof_slot) t :
  links_ok D h t ->
  forall n x sx l,
    prev_path h x l -> h !! x = Some sx -> used sx = true ->
    length h < n + length l ->
    exists c, next_path h (Some x) c /\ length c <= n /\
      forall j, j ∈ c -> exists sj, h !! j = Some sj /\ used sj = true /\
                                    bucket_of D sj = bucket_of D sx.
Proof.
  intros Hlk. induction n as [|n IH]; intros x sx l Hp Hx Hu Hn.
  - pose proof (prev_path_length _ _ _ Hp). lia.
  - destruct (next sx) as [x'|] eqn:Hnx.
    + destruct (lk_next _ _ _ Hlk x sx x' Hx Hu Hnx) as (sx' & Hx' & Hu' & Hp' & Hb').
      destruct (IH x' sx' (x' :: l)) as (c & Hc & Hlen & Hall); try done.
      { by eapply prev_path_step. }
      { simpl. lia. }
      exists (x :: c). split_and!.
      * apply (next_path_cons _ _ sx); [done|]. by rewrite Hnx.
      * simpl. lia.
      * intros j [->|Hj]%elem_of_cons; [by exists sx|].
        destruct (Hall j Hj) as (sj & ? & ? & ?). exists sj. split_and!; congruence.
    + exists [x]. split_and!.
      * apply (next_path_cons _ _ sx); [done|]. rewrite Hnx. constructor.
      * simpl. lia.
      * intros j ->%list_elem_of_singleton. by exists sx.
Qed.

Lemma bucket_chain D (h : list prof_slot) t b p :
  links_ok D h t -> t !! b = Some p ->
  exists c, next_path h p c /\ length c <= length h /\
    forall j, j ∈ c -> exists sj, h !! j = Some sj /\ used sj = true /\
                                  bucket_of D sj = b.
Proof.
  intros Hlk Hb. destruct p as [x|].
  - destruct (lk_head _ _ _ Hlk b x Hb) as (sx & Hx & Hu & Hp & Hbx).
    destruct (next_path_from D h t Hlk (length h) x sx [x]) as (c & Hc & Hlen & Hall);
      try done.
    { by eapply prev_path_head. }
    { simpl. lia. }
    exists c. split_and!; [done..|].
    intros j Hj. destruct (Hall j Hj) as (sj & ? & ? & ?).
    exists sj. split_and!; congruence.
  - exists []. split_and!; [constructor|simpl; lia|].
    intros j Hj. by apply elem_of_nil in Hj.
Qed.

Lemma next_path_det (h : list prof_slot) p c1 c2 :
  next_path h p c1 -> next_path h p c2 -> c1 = c2.
Proof.
  intros H1. revert c2. induction H1 as [|i sl c Hi Hp IH]; intros c2 H2.
  - by inversion H2.
  - inversion H2 as [|i' sl' c' Hi' Hp']; subst.
    assert (sl' = sl) as -> by congruence. f_equal. by apply IH.
Qed.

Lemma next_path_last (h : list prof_slot) p c z :
  next_path h p c -> last c = Some z ->
  exists sz, h !! z = Some sz /\ next sz = None.
Proof.
  induction 1 as [|i sl c Hi Hp IH]; intros Hl; [done|].
  destruct c as [|j c].
  - simpl in Hl. injection Hl as <-. inversion Hp as [E|]; subst. by exists sl.
  - apply IH. by rewrite last_cons_cons in Hl.
Qed.

(** The scan over a chain that holds no slot with the backtrace looked
    for: it ends with [slot] null and [prev] at the last slot of the
    chain. *)
Lemma prof_ensure_scan_miss (h : list prof_slot) D bt p c :
  next_path h p c ->
  (forall j sj, j ∈ c -> h !! j = Some sj ->
     prof_backtrace_equal D bt (backtrace sj) = false) ->
  forall fuel prev0, length c <= fuel ->
  prof_ensure_scan fuel h D bt p prev0 =
  Some (None, if last c is Some z then Some z else prev0).
Proof.
  induction 1 as [|i sl c Hi Hp IH]; intros Hne fuel prev0 Hf.
  - by destruct fuel.
  - destruct fuel as [|fuel]; [simpl in Hf; lia|].
    simpl. rewrite Hi. simpl.
    rewrite (Hne i sl (list_elem_of_here _ _) Hi).
    rewrite IH.
    + destruct c as [|j c]; [done|]. rewrite last_cons_cons.
      destruct (last (j :: c)) eqn:E; [done|]. by apply last_None in E.
    + intros j sj Hj. apply Hne. by right.
    + simpl in Hf. lia.
Qed.

(** The scan over a chain that holds such a slot: it returns the first
    one. *)
Lemma prof_ensure_scan_hit (h : list prof_slot) D bt p c1 j sj c2 :
  next_path h p (c1 ++ j :: c2) ->
  (forall k sk, k ∈ c1 -> h !! k = Some sk ->
     prof_backtrace_equal D bt (backtrace sk) = false) ->
  h !! j = Some sj -> prof_backtrace_equal D bt (backtrace sj) = true ->
  forall fuel prev0, length c1 < fuel ->
  exists prev1, prof_ensure_scan fuel h D bt p prev0 = Some (Some j, prev1).
Proof.
  revert p. induction c1 as [|i c1 IH]; intros p Hp Hne Hj He fuel prev0 Hf.
  - inversion Hp as [|i' sl' c' Hi' Hp']; subst.
    destruct fuel as [|fuel]; [lia|]. simpl. rewrite Hj. simpl. rewrite He.
    by eexists.
  - inversion Hp as [|i' sl' c' Hi' Hp']; subst.
    destruct fuel as [|fuel]; [simpl in Hf; lia|]. simpl. rewrite Hi'. simpl.
    rewrite (Hne i sl' (list_elem_of_here _ _) Hi').
    apply IH; try done.
    + intros k sk Hk. apply Hne. by right.
    + simpl in Hf. lia.
Qed.

End Chains.

(** ** Taking a slot from the free list and linking it *)

Section Insert.
Context `{LispHost}.

Lemma link_adjust_other D bt i prev0 j sj :
  j <> i -> prev0 <> Some j -> link_adjust D bt i prev0 j sj = sj.
Proof.
  intros Hi Hp. unfold link_adjust, upd. cbv zeta.
  destruct prev0 as [p|]; repeat case_decide; try done; congruence.
Qed.

Lemma link_adjust_new_none D bt i si :
  link_adjust D bt i None i si = made_slot D bt si.
Proof. unfold link_adjust, upd. cbv zeta. by rewrite decide_True. Qed.

Lemma link_adjust_new_self D bt i si :
  link_adjust D bt i (Some i) i si =
  with_next (Some i) (with_prev (Some i) (made_slot D bt si)).
Proof. unfold link_adjust, upd. cbv zeta. by rewrite !decide_True. Qed.

Lemma link_adjust_new_tail D bt i p si :
  p <> i ->
  link_adjust D bt i (Some p) i si = with_prev (Some p) (made_slot D bt si).
Proof.
  intros Hne. unfold link_adjust, upd. cbv zeta.
  repeat case_decide; try done; congruence.
Qed.

Lemma link_adjust_tail D bt i p sp :
  p <> i -> link_adjust D bt i (Some p) p sp = with_next (Some i) sp.
Proof.
  intros Hne. unfold link_adjust, upd. cbv zeta.
  repeat case_decide; try done; congruence.
Qed.

Lemma made_slot_bucket D bt si :
  length bt = D -> length (backtrace si) = D ->
  bucket_of D (made_slot D bt si) = prof_backtrace_index D bt.
Proof.
  intros Hb Hs. unfold bucket_of. simpl.
  by rewrite prof_copy_backtrace_all.
Qed.

Ltac same_slot :=
  repeat match goal with
  | H1 : ?h !! ?x = Some ?a, H2 : ?h !! ?x = Some ?b |- _ =>
      assert (b = a) as -> by congruence; clear H2
  end.

Lemma link_adjust_links D h t bt i si prev0 :
  links_ok D h t -> h !! i = Some si -> used si = false ->
  length bt = D -> length (backtrace si) = D ->
  tail_ok D h t (prof_backtrace_index D bt) i prev0 ->
  links_ok D (imap (link_adjust D bt i prev0) h)
    (if prev0 is Some _ then t else <[prof_backtrace_index D bt := Some i]> t).
Proof.
  intros [Hnext Hprev Hhead Hfirst] Hi Hu Hbt Hsi Htail.
  pose proof (made_slot_bucket D bt si Hbt Hsi) as Hbm.
  assert (forall x sx, h !! x = Some sx -> used sx = true -> x <> i) as Hfresh.
  { intros x sx Hx Hux ->. same_slot. congruence. }
  destruct prev0 as [p|]; [destruct (decide (p = i)) as [->|Hpi]|].
  - (* the slot freed by the eviction ended the chain *)
    clear Htail.
    assert (forall x sx, h !! x = Some sx -> x <> i ->
      imap (link_adjust D bt i (Some i)) h !! x = Some sx) as Hkeep.
    { intros x sx Hx Hxi. apply lookup_imap_Some. exists sx.
      split; [done|]. rewrite link_adjust_other; [done|done|congruence]. }
    assert (imap (link_adjust D bt i (Some i)) h !! i =
            Some (with_next (Some i) (with_prev (Some i) (made_slot D bt si)))) as Hnew.
    { apply lookup_imap_Some. exists si. by rewrite link_adjust_new_self. }
    split.
    + intros y sy' x (sy & Hy & ->)%lookup_imap_Some Huy Hnx.
      destruct (decide (y = i)) as [->|Hyi].
      * same_slot. rewrite link_adjust_new_self in Hnx |- *. simpl in Hnx.
        injection Hnx as <-. eexists. split; [exact Hnew|]. done.
      * rewrite link_adjust_other in Huy, Hnx |- * by congruence.
        destruct (Hnext y sy x Hy Huy Hnx) as (sx & Hx & Hux & Hpx & Hbx).
        exists sx. split; [|done]. apply Hkeep; [done|]. by eapply Hfresh.
    + intros y sy' x (sy & Hy & ->)%lookup_imap_Some Huy Hpx.
      destruct (decide (y = i)) as [->|Hyi].
      * same_slot. rewrite link_adjust_new_self in Hpx. simpl in Hpx.
        injection Hpx as <-. eexists. split; [exact Hnew|]. done.
      * rewrite link_adjust_other in Huy, Hpx by congruence.
        destruct (Hprev y sy x Hy Huy Hpx) as (sx & Hx & Hux & Hnx).
        exists sx. split; [|done]. apply Hkeep; [done|]. by eapply Hfresh.
    + intros b x Hb.
      destruct (Hhead b x Hb) as (sx & Hx & Hux & Hpx & Hbx).
      exists sx. split; [|done]. apply Hkeep; [done|]. by eapply Hfresh.
    + intros x sx' (sx & Hx & ->)%lookup_imap_Some Hux Hpx.
      destruct (decide (x = i)) as [->|Hxi].
      * same_slot. by rewrite link_adjust_new_self in Hpx.
      * rewrite link_adjust_other in Hux, Hpx |- * by congruence.
        by apply Hfirst.
  - (* a slot in use ends the chain *)
    destruct Htail as [->|(sp & Hp & Hup & Hnp & Hbp)]; [done|].
    assert (forall x sx, h !! x = Some sx -> x <> i -> x <> p ->
      imap (link_adjust D bt i (Some p)) h !! x = Some sx) as Hkeep.
    { intros x sx Hx Hxi Hxp. apply lookup_imap_Some. exists sx.
      split; [done|]. rewrite link_adjust_other; [done|done|congruence]. }
    assert (imap (link_adjust D bt i (Some p)) h !! i =
            Some (with_prev (Some p) (made_slot D bt si))) as Hnew.
    { apply lookup_imap_Some. exists si. by rewrite link_adjust_new_tail. }
    assert (imap (link_adjust D bt i (Some p)) h !! p =
            Some (with_next (Some i) sp)) as Hend.
    { apply lookup_imap_Some. exists sp. by rewrite link_adjust_tail. }
    assert (forall x sx, h !! x = Some sx -> x <> i ->
      exists sx', imap (link_adjust D bt i (Some p)) h !! x = Some sx' /\
        used sx' = used sx /\ prev sx' = prev sx /\
        bucket_of D sx' = bucket_of D sx /\ (x <> p -> next sx' = next sx)) as Hview.
    { intros x sx Hx Hxi. destruct (decide (x = p)) as [->|Hxp].
      - same_slot. eexists. split; [exact Hend|]. done.
      - exists sx. split; [by apply Hkeep|]. done. }
    split.
    + intros y sy' x (sy & Hy & ->)%lookup_imap_Some Huy Hnx.
      destruct (decide (y = i)) as [->|Hyi].
      { same_slot. by rewrite link_adjust_new_tail in Hnx. }
      destruct (decide (y = p)) as [->|Hyp].
      * same_slot. rewrite link_adjust_tail in Hnx |- * by done. simpl in Hnx.
        injection Hnx as <-. eexists. split; [exact Hnew|].
        split_and!; [done|done|]. unfold bucket_of at 2. simpl.
        fold (bucket_of D sp). rewrite Hbp.
        unfold bucket_of. simpl. apply Hbm.
      * rewrite link_adjust_other in Huy, Hnx |- * by congruence.
        destruct (Hnext y sy x Hy Huy Hnx) as (sx & Hx & Hux & Hpx & Hbx).
        destruct (Hview x sx Hx) as (sx' & Hx' & Hu' & Hp' & Hb' & _);
          [by eapply Hfresh|].
        exists sx'. split_and!; congruence.
    + intros y sy' x (sy & Hy & ->)%lookup_imap_Some Huy Hpx.
      destruct (decide (y = i)) as [->|Hyi].
      { same_slot. rewrite link_adjust_new_tail in Hpx by done. simpl in Hpx.
        injection Hpx as <-. eexists. split; [exact Hend|]. done. }
      assert (prev sy = Some x /\ used sy = true) as [Hpx' Huy'].
      { destruct (decide (y = p)) as [->|Hyp].
        - same_slot. by rewrite link_adjust_tail in Hpx, Huy.
        - by rewrite link_adjust_other in Huy, Hpx by congruence. }
      destruct (Hprev y sy x Hy Huy' Hpx') as (sx & Hx & Hux & Hnx).
      assert (x <> p) as Hxp.
      { intros ->. same_slot. congruence. }
      exists sx. split; [|done]. apply Hkeep; [done| |done]. by eapply Hfresh.
    + intros b x Hb.
      destruct (Hhead b x Hb) as (sx & Hx & Hux & Hpx & Hbx).
      destruct (Hview x sx Hx) as (sx' & Hx' & Hu' & Hp' & Hb' & _);
        [by eapply Hfresh|].
      exists sx'. split_and!; congruence.
    + intros x sx' (sx & Hx & ->)%lookup_imap_Some Hux Hpx.
      destruct (decide (x = i)) as [->|Hxi].
      { same_slot. by rewrite link_adjust_new_tail in Hpx. }
      destruct (decide (x = p)) as [->|Hxp].
      * same_slot. rewrite link_adjust_tail in Hux, Hpx |- * by done.
        by apply (Hfirst p sp).
      * rewrite link_adjust_other in Hux, Hpx |- * by congruence.
        by apply Hfirst.
  - (* the bucket is empty *)
    simpl in Htail.
    assert (forall x sx, h !! x = Some sx -> x <> i ->
      imap (link_adjust D bt i None) h !! x = Some sx) as Hkeep.
    { intros x sx Hx Hxi. apply lookup_imap_Some. exists sx.
      split; [done|]. by rewrite link_adjust_other. }
    assert (imap (link_adjust D bt i None) h !! i = Some (made_slot D bt si)) as Hnew.
    { apply lookup_imap_Some. exists si. by rewrite link_adjust_new_none. }
    split.
    + intros y sy' x (sy & Hy & ->)%lookup_imap_Some Huy Hnx.
      destruct (decide (y = i)) as [->|Hyi].
      { same_slot. by rewrite link_adjust_new_none in Hnx. }
      rewrite link_adjust_other in Huy, Hnx |- * by done.
      destruct (Hnext y sy x Hy Huy Hnx) as (sx & Hx & Hux & Hpx & Hbx).
      exists sx. split; [|done]. apply Hkeep; [done|]. by eapply Hfresh.
    + intros y sy' x (sy & Hy & ->)%lookup_imap_Some Huy Hpx.
      destruct (decide (y = i)) as [->|Hyi].
      { same_slot. by rewrite link_adjust_new_none in Hpx. }
      rewrite link_adjust_other in Huy, Hpx by done.
      destruct (Hprev y sy x Hy Huy Hpx) as (sx & Hx & Hux & Hnx).
      exists sx. split; [|done]. apply Hkeep; [done|]. by eapply Hfresh.
    + intros b x Hb.
      destruct (decide (b = prof_backtrace_index D bt)) as [->|Hne].
      * rewrite list_lookup_insert_eq in Hb by by apply lookup_lt_Some in Htail.
        injection Hb as <-. eexists. split; [exact Hnew|]. done.
      * rewrite list_lookup_insert_ne in Hb by done.
        destruct (Hhead b x Hb) as (sx & Hx & Hux & Hpx & Hbx).
        exists sx. split; [|done]. apply Hkeep; [done|]. by eapply Hfresh.
    + intros x sx' (sx & Hx & ->)%lookup_imap_Some Hux Hpx.
      destruct (decide (x = i)) as [->|Hxi].
      * same_slot. rewrite link_adjust_new_none, Hbm.
        by rewrite list_lookup_insert_eq by by apply lookup_lt_Some in Htail.
      * rewrite link_adjust_other in Hux, Hpx |- * by done.
        pose proof (Hfirst x sx Hx Hux Hpx) as Hx'.
        rewrite list_lookup_insert_ne; [done|].
        intros E. rewrite <- E in Hx'. congruence.
Qed.

Lemma link_adjust_data D bt i prev0 j sj :
  used (link_adjust D bt i prev0 j sj) = (if decide (j = i) then true else used sj) /\
  count (link_adjust D bt i prev0 j sj) = (if decide (j = i) then 0%Z else count sj) /\
  backtrace (link_adjust D bt i prev0 j sj) =
    (if decide (j = i) then prof_copy_backtrace D bt (backtrace sj) else backtrace sj).
Proof.
  unfold link_adjust, upd. cbv zeta.
  destruct prev0 as [p|]; repeat case_decide; done.
Qed.

Lemma link_adjust_free D h bt i si prev0 :
  free_ok h (Some i) -> h !! i = Some si ->
  (forall p, prev0 = Some p ->
     p = i \/ exists sp, h !! p = Some sp /\ used sp = true) ->
  free_ok (imap (link_adjust D bt i prev0) h) (next si).
Proof.
  intros (l & Hp & Hnd & Hl) Hi Htail.
  inversion Hp as [|i' si' l' Hi' Hp' E1]; subst. same_slot.
  apply NoDup_cons in Hnd as [Hil Hnd].
  exists l'. split_and!; [|done|].
  - apply (next_path_ext h); [|done].
    intros j Hj. rewrite list_lookup_imap.
    destruct (next_path_lookup _ _ _ _ Hp' Hj) as [sj Hsj].
    rewrite Hsj. simpl. f_equal.
    rewrite link_adjust_other; [done|intros E; by subst|].
    intros E. destruct (Htail j E) as [->|(sp & Hsp & Hup)]; [done|].
    same_slot. assert (used sj = false); [|congruence].
    apply (Hl j sj Hsj). by right.
  - intros j sj' (sj & Hj & ->)%lookup_imap_Some.
    destruct (link_adjust_data D bt i prev0 j sj) as (-> & _ & _).
    case_decide as Hji.
    + subst. split; [done|]. by intros ?.
    + rewrite (Hl j sj Hj), elem_of_cons.
      split; [by intros [?|?]|by right].
Qed.

(** The end of [prof_ensure_slot], from [prof_make_slot] on, when the
    free list is not empty. *)
Lemma prof_ensure_slot_link s h i si bt prev0 index :
  prof_slot_heap s = Some h -> prof_free_list s = Some i -> h !! i = Some si ->
  (forall p, prev0 = Some p -> p < length h) ->
  index = prof_backtrace_index (prof_max_stack_depth s) bt ->
  ('(slot, s1) ← prof_make_slot bt s;
   match prev0 with
   | Some p =>
       s2 ← update_slot slot (with_prev (Some p)) s1;
       s3 ← update_slot p (with_next (Some slot)) s2;
       Some (slot, s3)
   | None =>
       Some (slot, set_hash_table (<[index := Some slot]> (prof_hash_table s1)) s1)
   end) = Some (i, inserted bt i si prev0 h s).
Proof.
  intros Hh Hf Hi Hp ->.
  rewrite (prof_make_slot_eq _ _ _ _ _ Hh Hf Hi). simpl.
  pose proof (lookup_lt_Some _ _ _ Hi) as Hlt.
  rewrite (insert_imap h i si (fun _ => made_slot (prof_max_stack_depth s) bt si) Hi).
  unfold inserted. destruct prev0 as [p|].
  - specialize (Hp p eq_refl).
    destruct (lookup_lt_is_Some_2 h p Hp) as [sp Hsp].
    unfold update_slot. simpl. rewrite list_lookup_imap, Hi. simpl.
    rewrite list_lookup_insert.
    rewrite length_imap. rewrite list_lookup_imap, Hsp. simpl.
    assert (forall A (a b : A), (if decide (i = p /\ i < length h) then Some a else Some b)
              = Some (if decide (p = i) then a else b)) as Hif.
    { intros A a b. repeat case_decide; destruct_and?; subst; try done.
      exfalso. auto. }
    rewrite Hif. simpl.
    unfold set_free_list, set_slot_heap. simpl. do 4 f_equal.
    apply list_eq. intros j. rewrite list_lookup_insert, length_insert, length_imap.
    rewrite list_lookup_insert, length_imap. rewrite !list_lookup_imap.
    destruct (h !! j) as [sj|] eqn:Hj; simpl.
    + pose proof (lookup_lt_Some _ _ _ Hj).
      unfold link_adjust, upd. cbv zeta.
      repeat case_decide; destruct_and?; subst; same_slot; try done; try lia;
        exfalso; naive_solver.
    + apply lookup_ge_None in Hj.
      repeat case_decide; destruct_and?; subst; try done; lia.
  - simpl. unfold set_hash_table, set_free_list, set_slot_heap. simpl.
    do 4 f_equal. apply imap_ext_slot. intros j sj Hj.
    unfold link_adjust, upd. cbv zeta. case_decide; [|done]. subst. by same_slot.
Qed.

Lemma inserted_ok s h i si bt prev0 :
  pool_ok s h -> prof_free_list s = Some i -> h !! i = Some si ->
  length bt = prof_max_stack_depth s ->
  tail_ok (prof_max_stack_depth s) h (prof_hash_table s)
    (prof_backtrace_index (prof_max_stack_depth s) bt) i prev0 ->
  used si = false /\
  pool_ok (inserted bt i si prev0 h s)
    (imap (link_adjust (prof_max_stack_depth s) bt i prev0) h).
Proof.
  intros [Hheap Hsize Hpos Htab Hscr Hbuf Hlk Hfree Hcr Hor Hbal] Hf Hi Hbt Htail.
  assert (used si = false) as Hu.
  { destruct Hfree as (l & Hp & _ & Hl). apply (Hl i si Hi).
    rewrite Hf in Hp. inversion Hp; subst. by left. }
  split; [done|].
  assert (prof_slot_heap (inserted bt i si prev0 h s) =
          Some (imap (link_adjust (prof_max_stack_depth s) bt i prev0) h)) as Hheap'.
  { unfold inserted. by destruct prev0. }
  assert (prof_hash_table (inserted bt i si prev0 h s) =
          (if prev0 is Some _ then prof_hash_table s
           else <[prof_backtrace_index (prof_max_stack_depth s) bt := Some i]>
                  (prof_hash_table s))) as Htab'.
  { unfold inserted. by destruct prev0. }
  assert (forall A (f : profiler -> A),
    (forall t x, f (set_hash_table t x) = f x) ->
    f (inserted bt i si prev0 h s) =
    f (set_free_list (next si)
         (set_slot_heap
            (Some (imap (link_adjust (prof_max_stack_depth s) bt i prev0) h)) s)))
    as Hrest.
  { intros A f Hft. unfold inserted. destruct prev0; [done|]. by rewrite Hft. }
  split.
  - done.
  - rewrite length_imap. by rewrite (Hrest _ prof_slot_heap_size).
  - by rewrite length_imap.
  - rewrite Htab'. destruct prev0; [done|]. by rewrite length_insert.
  - rewrite (Hrest _ prof_backtrace), (Hrest _ prof_max_stack_depth) by done. done.
  - rewrite (Hrest _ prof_max_stack_depth) by done. simpl.
    intros j sj' (sj & Hj & ->)%lookup_imap_Some.
    destruct (link_adjust_data (prof_max_stack_depth s) bt i prev0 j sj) as (_ & _ & ->).
    case_decide; [|by apply (Hbuf j sj)].
    rewrite prof_copy_backtrace_length. by apply (Hbuf j sj).
  - rewrite (Hrest _ prof_max_stack_depth) by done. rewrite Htab'. simpl.
    apply (link_adjust_links _ _ _ _ _ si); try done. by apply (Hbuf i si).
  - rewrite (Hrest _ prof_free_list) by done. simpl.
    apply link_adjust_free; [by rewrite <- Hf|done|].
    intros p ->. destruct Htail as [->|(sp & ? & ? & _)]; [by left|right; eauto].
  - intros j sj' (sj & Hj & ->)%lookup_imap_Some.
    destruct (link_adjust_data (prof_max_stack_depth s) bt i prev0 j sj) as (-> & -> & _).
    case_decide; [done|]. by apply (Hcr j sj).
  - by rewrite (Hrest _ prof_others_count).
  - rewrite (Hrest _ prof_others_count), (Hrest _ prof_total_count) by done. simpl.
    rewrite sum_used_imap_same; [done|].
    intros j sj Hj. unfold slot_weight.
    destruct (link_adjust_data (prof_max_stack_depth s) bt i prev0 j sj) as (-> & -> & _).
    case_decide; [|done]. subst. same_slot. by rewrite Hu.
Qed.

End Insert.

(** ** [prof_ensure_slot] on its three paths *)

Section Ensure.
Context `{LispHost}.

Ltac same_slot :=
  repeat match goal with
  | H1 : ?h !! ?x = Some ?a, H2 : ?h !! ?x = Some ?b |- _ =>
      assert (b = a) as -> by congruence; clear H2
  end.

Lemma prof_backtrace_index_lt D bt : prof_backtrace_index D bt < PROF_HASH_TABLE_SIZE.
Proof.
  unfold prof_backtrace_index, PROF_HASH_TABLE_SIZE.
  pose proof (Z.mod_pos_bound (prof_backtrace_hash D bt) (Z.of_nat 128)). lia.
Qed.

Lemma next_path_last_or (h : list prof_slot) p c :
  next_path h p c -> (if last c is Some z then Some z else p) = last c.
Proof.
  intros Hp. destruct (last c) eqn:E; [done|].
  apply last_None in E as ->. by inversion Hp.
Qed.

Lemma next_path_lt (h : list prof_slot) p c j :
  next_path h p c -> j ∈ c -> j < length h.
Proof.
  intros Hp Hj. destruct (next_path_lookup _ _ _ _ Hp Hj) as [sj Hsj].
  by apply lookup_lt_Some in Hsj.
Qed.

(** The chain of the bucket holds a slot with the backtrace. *)
Lemma prof_ensure_slot_hit s h bt p c1 j sj c2 :
  prof_slot_heap s = Some h ->
  prof_hash_table s !! prof_backtrace_index (prof_max_stack_depth s) bt = Some p ->
  next_path h p (c1 ++ j :: c2) -> length (c1 ++ j :: c2) <= length h ->
  (forall k sk, k ∈ c1 -> h !! k = Some sk ->
     prof_backtrace_equal (prof_max_stack_depth s) bt (backtrace sk) = false) ->
  h !! j = Some sj ->
  prof_backtrace_equal (prof_max_stack_depth s) bt (backtrace sj) = true ->
  prof_ensure_slot bt s = Some (j, s).
Proof.
  intros Hh Ht Hp Hlen Hmiss Hj Heq. unfold prof_ensure_slot.
  rewrite Ht. cbn -[prof_ensure_scan prof_make_slot update_slot].
  rewrite Hh. cbn -[prof_ensure_scan prof_make_slot update_slot].
  destruct (prof_ensure_scan_hit h (prof_max_stack_depth s) bt p c1 j sj c2
              Hp Hmiss Hj Heq (S (length h)) p) as [prev1 ->]; [|done].
  rewrite length_app in Hlen. simpl in Hlen. lia.
Qed.

(** The chain holds no such slot and the free list is not empty. *)
Lemma prof_ensure_slot_new s h bt p c i si :
  prof_slot_heap s = Some h ->
  prof_hash_table s !! prof_backtrace_index (prof_max_stack_depth s) bt = Some p ->
  next_path h p c -> length c <= length h ->
  (forall k sk, k ∈ c -> h !! k = Some sk ->
     prof_backtrace_equal (prof_max_stack_depth s) bt (backtrace sk) = false) ->
  prof_free_list s = Some i -> h !! i = Some si ->
  prof_ensure_slot bt s = Some (i, inserted bt i si (last c) h s).
Proof.
  intros Hh Ht Hp Hlen Hmiss Hf Hi. unfold prof_ensure_slot.
  rewrite Ht. cbn -[prof_ensure_scan prof_make_slot update_slot].
  rewrite Hh. cbn -[prof_ensure_scan prof_make_slot update_slot].
  rewrite (prof_ensure_scan_miss h _ bt p c Hp Hmiss) by lia.
  rewrite (next_path_last_or _ _ _ Hp).
  cbn -[prof_ensure_scan prof_make_slot update_slot].
  apply prof_ensure_slot_link; try done.
  intros z Hz. apply (next_path_lt h p c); [done|].
  by apply last_Some_elem_of.
Qed.

(** The chain holds no such slot and the free list is empty. *)
Lemma prof_ensure_slot_evict s h bt p c v sv :
  prof_slot_heap s = Some h ->
  prof_hash_table s !! prof_backtrace_index (prof_max_stack_depth s) bt = Some p ->
  next_path h p c -> length c <= length h ->
  (forall k sk, k ∈ c -> h !! k = Some sk ->
     prof_backtrace_equal (prof_max_stack_depth s) bt (backtrace sk) = false) ->
  prof_free_list s = None -> h !! v = Some sv ->
  prof_evict_min_slot s = Some (evicted v sv h s) ->
  prof_ensure_slot bt s =
  Some (v, inserted bt v (free_adjust v sv None v sv) (last c)
             (imap (free_adjust v sv None) h) (evicted v sv h s)).
Proof.
  intros Hh Ht Hp Hlen Hmiss Hf Hv He. unfold prof_ensure_slot.
  rewrite Ht. cbn -[prof_ensure_scan prof_make_slot update_slot].
  rewrite Hh. cbn -[prof_ensure_scan prof_make_slot update_slot].
  rewrite (prof_ensure_scan_miss h _ bt p c Hp Hmiss) by lia.
  rewrite (next_path_last_or _ _ _ Hp).
  cbn -[prof_ensure_scan prof_make_slot update_slot].
  rewrite (prof_make_slot_evict s (evicted v sv h s) bt Hf He) by by eexists.
  apply (prof_ensure_slot_link (evicted v sv h s)); try done.
  - simpl. by rewrite Hf.
  - apply lookup_imap_Some. by exists sv.
  - rewrite length_imap. intros z Hz. apply (next_path_lt h p c); [done|].
    by apply last_Some_elem_of.
Qed.

(** Either some slot of a chain has the backtrace, and there is a
    first one, or none has. *)
Lemma chain_hit_or_miss (h : list prof_slot) D bt (c : list nat) :
  (forall k, k ∈ c -> is_Some (h !! k)) ->
  (exists c1 j sj c2, c = c1 ++ j :: c2 /\ h !! j = Some sj /\
     prof_backtrace_equal D bt (backtrace sj) = true /\
     forall k sk, k ∈ c1 -> h !! k = Some sk ->
       prof_backtrace_equal D bt (backtrace sk) = false) \/
  (forall k sk, k ∈ c -> h !! k = Some sk ->
     prof_backtrace_equal D bt (backtrace sk) = false).
Proof.
  induction c as [|i c IH]; intros Hin.
  - right. intros k sk Hk. by apply elem_of_nil in Hk.
  - destruct (Hin i) as [si Hi]; [by left|].
    destruct (prof_backtrace_equal D bt (backtrace si)) eqn:E.
    + left. exists [], i, si, c. split_and!; try done.
      intros k sk Hk. by apply elem_of_nil in Hk.
    + destruct IH as [(c1 & j & sj & c2 & -> & Hj & Hq & Hmiss)|Hmiss].
      * intros k Hk. apply Hin. by right.
      * left. exists (i :: c1), j, sj, c2. split_and!; try done.
        intros k sk [->|Hk]%elem_of_cons Hsk; [by same_slot|by eapply Hmiss].
      * right. intros k sk [->|Hk]%elem_of_cons Hsk; [by same_slot|by eapply Hmiss].
Qed.

End Ensure.

(** ** The trigger preserves the pool invariant *)

Section Handler.
Context `{LispHost}.

Ltac same_slot :=
  repeat match goal with
  | H1 : ?h !! ?x = Some ?a, H2 : ?h !! ?x = Some ?b |- _ =>
      assert (b = a) as -> by congruence; clear H2
  end.

(** Changing counts changes neither the links nor the free list. *)
Lemma links_ok_imap D (h : list prof_slot) t (F : nat -> prof_slot -> prof_slot) :
  (forall j sj, next (F j sj) = next sj /\ prev (F j sj) = prev sj /\
                used (F j sj) = used sj /\ backtrace (F j sj) = backtrace sj) ->
  links_ok D h t -> links_ok D (imap F h) t.
Proof.
  intros HF [Hnext Hprev Hhead Hfirst].
  assert (forall x sx, h !! x = Some sx -> imap F h !! x = Some (F x sx)) as Hlook.
  { intros x sx Hx. apply lookup_imap_Some. by exists sx. }
  assert (forall j sj, bucket_of D (F j sj) = bucket_of D sj) as Hb.
  { intros j sj. unfold bucket_of. by destruct (HF j sj) as (_ & _ & _ & ->). }
  split.
  - intros y sy' x (sy & Hy & ->)%lookup_imap_Some Hu Hn.
    destruct (HF y sy) as (En & Ep & Eu & Eb). rewrite Eu in Hu. rewrite En in Hn.
    destruct (Hnext y sy x Hy Hu Hn) as (sx & Hx & Hux & Hpx & Hbx).
    exists (F x sx). destruct (HF x sx) as (En' & Ep' & Eu' & Eb').
    rewrite Eu', Ep', !Hb. auto.
  - intros y sy' x (sy & Hy & ->)%lookup_imap_Some Hu Hp.
    destruct (HF y sy) as (En & Ep & Eu & Eb). rewrite Eu in Hu. rewrite Ep in Hp.
    destruct (Hprev y sy x Hy Hu Hp) as (sx & Hx & Hux & Hnx).
    exists (F x sx). destruct (HF x sx) as (En' & Ep' & Eu' & Eb').
    rewrite Eu', En'. auto.
  - intros b x Hbx.
    destruct (Hhead b x Hbx) as (sx & Hx & Hux & Hpx & Hbx').
    exists (F x sx). destruct (HF x sx) as (En' & Ep' & Eu' & Eb').
    rewrite Eu', Ep', Hb. auto.
  - intros x sx' (sx & Hx & ->)%lookup_imap_Some Hu Hp.
    destruct (HF x sx) as (En & Ep & Eu & Eb). rewrite Eu in Hu. rewrite Ep in Hp.
    rewrite Hb. by apply Hfirst.
Qed.

Lemma free_ok_imap (h : list prof_slot) fl (F : nat -> prof_slot -> prof_slot) :
  (forall j sj, next (F j sj) = next sj /\ used (F j sj) = used sj) ->
  free_ok h fl -> free_ok (imap F h) fl.
Proof.
  intros HF (l & Hp & Hnd & Hl). exists l. split_and!; [|done|].
  - apply (next_path_ext h); [|done]. intros j _. rewrite list_lookup_imap.
    destruct (h !! j) as [sj|]; [|done]. simpl. f_equal. apply HF.
  - intros j sj' (sj & Hj & ->)%lookup_imap_Some.
    destruct (HF j sj) as [_ ->]. by apply Hl.
Qed.

Lemma counted_ok s h j sj :
  pool_ok s h -> h !! j = Some sj -> used sj = true ->
  pool_ok (counted j h s)
    (imap (upd j (fun sl => with_count (ulong (count sl + 1)) sl)) h).
Proof.
  intros [Hheap Hsize Hpos Htab Hscr Hbuf Hlk Hfree Hcr Hor Hbal] Hj Hu.
  split; simpl; try done.
  - by rewrite length_imap.
  - by rewrite length_imap.
  - intros k sk' (sk & Hk & ->)%lookup_imap_Some.
    rewrite <- (Hbuf k sk Hk). unfold upd. by case_decide.
  - apply links_ok_imap; [|done]. intros k sk. unfold upd. by case_decide.
  - apply free_ok_imap; [|done]. intros k sk. unfold upd. by case_decide.
  - intros k sk' (sk & Hk & ->)%lookup_imap_Some. unfold upd.
    case_decide; [|by apply (Hcr k sk)]. simpl. intros _. apply ulong_range.
  - rewrite (sum_used_imap_one _ _ j sj Hj).
    2:{ intros k sk Hne _. unfold upd. by rewrite decide_False. }
    unfold upd. rewrite decide_True by done.
    unfold slot_weight. simpl. rewrite Hu.
    rewrite Hbal, ulong_add_l.
    replace (sum_used h - count sj + ulong (count sj + 1) + prof_others_count s)%Z
      with (sum_used h - count sj + prof_others_count s + ulong (count sj + 1))%Z
      by lia.
    rewrite ulong_add_r. f_equal. lia.
Qed.

(** Lines 214-216 once [prof_ensure_slot] has returned slot [j]. *)
Lemma prof_record_counted s h j sj :
  prof_slot_heap s = Some h -> h !! j = Some sj ->
  (sl ← slot_at s j;
   s2 ← update_slot j (with_count (ulong (count sl + 1))) s;
   Some (set_total_count (ulong (prof_total_count s2 + 1)) s2)) =
  Some (counted j h s).
Proof.
  intros Hh Hj. rewrite (slot_at_heap _ _ _ Hh), Hj. simpl.
  rewrite (update_slot_heap _ _ _ _ _ Hh Hj). simpl.
  unfold counted, set_total_count, set_slot_heap. simpl. do 3 f_equal.
  apply imap_ext_slot. intros k sk Hk. unfold upd.
  case_decide; [|done]. subst. by same_slot.
Qed.

(** The end of a chain of bucket [idx], as the scan leaves it in
    [prev]. *)
Lemma chain_tail D (h : list prof_slot) (t : list (option nat)) idx p c :
  t !! idx = Some p -> next_path h p c ->
  (forall j, j ∈ c -> exists sj, h !! j = Some sj /\ used sj = true /\
                                 bucket_of D sj = idx) ->
  match last c with
  | None => t !! idx = Some None
  | Some z => exists sz, h !! z = Some sz /\ used sz = true /\ next sz = None /\
                         bucket_of D sz = idx
  end.
Proof.
  intros Ht Hp Hall. destruct (last c) as [z|] eqn:E.
  - destruct (next_path_last _ _ _ _ Hp E) as (sz & Hz & Hnz).
    destruct (Hall z) as (sz' & Hz' & Hu & Hb); [by apply last_Some_elem_of|].
    same_slot. by exists sz.
  - apply last_None in E as ->. by inversion Hp; subst.
Qed.

Lemma tail_ok_here D (h : list prof_slot) (t : list (option nat)) idx i prev0 :
  match prev0 with
  | None => t !! idx = Some None
  | Some z => exists sz, h !! z = Some sz /\ used sz = true /\ next sz = None /\
                         bucket_of D sz = idx
  end ->
  tail_ok D h t idx i prev0.
Proof. unfold tail_ok. destruct prev0; [by right|done]. Qed.

Lemma tail_ok_evicted D (h : list prof_slot) (t : list (option nat)) idx v sv prev0 :
  links_ok D h t -> h !! v = Some sv -> used sv = true ->
  match prev0 with
  | None => t !! idx = Some None
  | Some z => exists sz, h !! z = Some sz /\ used sz = true /\ next sz = None /\
                         bucket_of D sz = idx
  end ->
  tail_ok D (imap (free_adjust v sv None) h) (unlink_table D sv t) idx v prev0.
Proof.
  intros Hlk Hv Hu Htail. unfold tail_ok. destruct prev0 as [z|].
  - destruct Htail as (sz & Hz & Huz & Hnz & Hbz).
    destruct (decide (z = v)) as [->|Hne]; [by left|right].
    exists (unlink_adjust sv z sz). split_and!; try done.
    + apply lookup_imap_Some. exists sz. by rewrite free_adjust_ne.
    + simpl. case_decide as Hp; [|done].
      destruct (lk_prev _ _ _ Hlk v sv z Hv Hu Hp) as (sz' & Hz' & _ & Hn').
      same_slot. congruence.
  - unfold unlink_table. destruct (prev sv) eqn:Ep; [done|].
    pose proof (lk_first _ _ _ Hlk v sv Hv Hu Ep) as Hfirst.
    rewrite list_lookup_insert_ne; [done|].
    intros E. unfold bucket_of in Hfirst. rewrite E in Hfirst. congruence.
Qed.

Lemma free_head_lookup (h : list prof_slot) i :
  free_ok h (Some i) -> exists si, h !! i = Some si /\ used si = false.
Proof.
  intros (l & Hp & _ & Hl). inversion Hp as [|i' si l' Hi Hp']; subst.
  exists si. split; [done|]. apply (Hl i si Hi). by left.
Qed.

(** [prof_ensure_slot] returns a slot in use and keeps the invariant,
    in a pool that satisfies it. *)
Lemma prof_ensure_slot_ok s h bt :
  pool_ok s h -> length bt = prof_max_stack_depth s ->
  exists j s1 h1 sj, prof_ensure_slot bt s = Some (j, s1) /\ pool_ok s1 h1 /\
    h1 !! j = Some sj /\ used sj = true.
Proof.
  intros Hok Hbt.
  pose proof (pool_links _ _ Hok) as Hlk.
  pose proof (pool_heap _ _ Hok) as Hheap.
  destruct (lookup_lt_is_Some_2 (prof_hash_table s)
              (prof_backtrace_index (prof_max_stack_depth s) bt)) as [p Ht].
  { rewrite (pool_table _ _ Hok). apply prof_backtrace_index_lt. }
  destruct (bucket_chain _ _ _ _ _ Hlk Ht) as (c & Hp & Hlen & Hall).
  destruct (chain_hit_or_miss h (prof_max_stack_depth s) bt c)
    as [(c1 & j & sj & c2 & -> & Hj & Heq & Hmiss)|Hmiss].
  { intros k Hk. destruct (Hall k Hk) as (sk & ? & _). by eexists. }
  - exists j, s, h, sj. split_and!; try done.
    + by eapply prof_ensure_slot_hit.
    + destruct (Hall j) as (sj' & Hj' & Hu & _).
      { apply elem_of_app. right. by left. }
      by same_slot.
  - pose proof (chain_tail _ _ _ _ _ _ Ht Hp Hall) as Htail.
    destruct (prof_free_list s) as [i|] eqn:Hf.
    + destruct (free_head_lookup h i) as (si & Hi & Hu).
      { rewrite <- Hf. apply Hok. }
      destruct (inserted_ok s h i si bt (last c) Hok Hf Hi Hbt) as [_ Hok'].
      { by apply tail_ok_here. }
      eexists i, _, _, _. split_and!.
      * by eapply prof_ensure_slot_new.
      * exact Hok'.
      * apply lookup_imap_Some. by exists si.
      * match goal with
        | |- used (link_adjust ?D ?b ?i ?p ?j ?sj) = true =>
            destruct (link_adjust_data D b i p j sj) as (-> & _ & _)
        end. by rewrite decide_True.
    + destruct (prof_evict_min_slot_ok s h Hok Hf)
        as (v & sv & (Hv & _) & Huv & _ & He & Hok1).
      assert (imap (free_adjust v sv None) h !! v =
              Some (free_adjust v sv None v sv)) as Hv'.
      { apply lookup_imap_Some. by exists sv. }
      destruct (inserted_ok (evicted v sv h s) _ v _ bt (last c) Hok1 eq_refl Hv' Hbt)
        as [_ Hok'].
      { simpl. by apply tail_ok_evicted. }
      eexists v, _, _, _. split_and!.
      * by eapply prof_ensure_slot_evict.
      * exact Hok'.
      * apply lookup_imap_Some. eexists. split; [exact Hv'|done].
      * match goal with
        | |- used (link_adjust ?D ?b ?i ?p ?j ?sj) = true =>
            destruct (link_adjust_data D b i p j sj) as (-> & _ & _)
        end. by rewrite decide_True.
Qed.

End Handler.

(** ** [prof_init] *)

Section Init.
Context `{LispHost}.

Lemma prof_init_link_spec (N : nat) :
  forall k i (h : list prof_slot),
    length h = N -> 0 < i -> i + k = N ->
    exists h', prof_init_link k i (i - 1) h = Some (N - 1, h') /\
      length h' = N /\
      forall j sj, h !! j = Some sj ->
        h' !! j = Some (if decide (i - 1 <= j < N - 1)
                        then with_next (Some (S j)) sj else sj).
Proof.
  induction k as [|k IH]; intros i h Hlen Hi Hk.
  - exists h. simpl. split_and!; [f_equal; f_equal; lia|done|].
    intros j sj Hj. rewrite decide_False by lia. done.
  - destruct (lookup_lt_is_Some_2 h (i - 1)) as [sl Hsl]; [lia|].
    simpl. rewrite Hsl. simpl.
    destruct (IH (S i) (<[i - 1 := with_next (Some i) sl]> h)) as (h' & E & Hl & Hlook);
      [by rewrite length_insert|lia|lia|].
    replace (S i - 1) with i in E, Hlook by lia.
    exists h'. split_and!; [done|done|].
    intros j sj Hj. destruct (decide (j = i - 1)) as [->|Hne].
    + rewrite (Hlook (i - 1) (with_next (Some i) sl)).
      2:{ rewrite list_lookup_insert_eq by lia. done. }
      rewrite Hsl in Hj. injection Hj as <-.
      rewrite decide_False by lia. rewrite decide_True by lia.
      by replace (S (i - 1)) with i by lia.
    + rewrite (Hlook j sj).
      2:{ by rewrite list_lookup_insert_ne. }
      repeat case_decide; try done; lia.
Qed.

Lemma init_heap_lookup mem D N j :
  j < N -> init_heap mem D N !! j = Some (init_slot mem D N j).
Proof.
  intros Hj. unfold init_heap. rewrite list_lookup_fmap.
  by rewrite lookup_seq_lt.
Qed.

Lemma init_heap_length mem D N : length (init_heap mem D N) = N.
Proof. unfold init_heap. by rewrite length_fmap, length_seq. Qed.

Lemma prof_init_eq mem s :
  0 < uint (profiler_slot_heap_size s) ->
  prof_init mem s = Some (initialized mem s).
Proof.
  intros HN. unfold prof_init.
  set (D := uint (profiler_max_stack_depth s)).
  set (N := uint (profiler_slot_heap_size s)) in *.
  set (h0 := _ <$> seq 0 N).
  assert (length h0 = N) as Hlen0.
  { unfold h0. by rewrite length_fmap, length_seq. }
  destruct (prof_init_link_spec N (N - 1) 1 h0) as (h1 & E & Hlen1 & Hlook);
    [done|lia|lia|].
  change (1 - 1) with 0 in E, Hlook. rewrite E. simpl.
  destruct (lookup_lt_is_Some_2 h1 (N - 1)) as [sl Hsl]; [lia|].
  rewrite Hsl. simpl. unfold initialized. fold D N. do 3 f_equal.
  apply list_eq. intros j.
  destruct (decide (j < N)) as [Hj|Hj].
  - rewrite init_heap_lookup by done.
    assert (h0 !! j = Some {| next := next (junk_slot mem j);
                              prev := prev (junk_slot mem j);
                              backtrace := resize D Qnil (backtrace (junk_slot mem j));
                              count := ulong (count (junk_slot mem j));
                              used := false |}) as Hj0.
    { unfold h0. rewrite list_lookup_fmap, lookup_seq_lt by done. done. }
    pose proof (Hlook j _ Hj0) as Hj1.
    destruct (decide (j = N - 1)) as [->|Hne].
    + rewrite list_lookup_insert_eq by lia. f_equal.
      rewrite Hsl in Hj1. injection Hj1 as ->.
      rewrite decide_False by lia. unfold init_slot, with_next. simpl.
      by rewrite decide_False by lia.
    + rewrite list_lookup_insert_ne by done. rewrite Hj1. f_equal.
      rewrite decide_True by lia. unfold init_slot, with_next. simpl.
      by rewrite decide_True by lia.
  - rewrite !lookup_ge_None_2; [done| |].
    + rewrite init_heap_length. lia.
    + rewrite length_insert. lia.
Qed.

Lemma prof_init_zero mem s :
  uint (profiler_slot_heap_size s) = 0 -> prof_init mem s = None.
Proof. intros HN. unfold prof_init. rewrite HN. done. Qed.

Lemma init_heap_free mem D N :
  forall k, k <= N ->
    next_path (init_heap mem D N) (if decide (N - k < N) then Some (N - k) else None)
      (seq (N - k) k).
Proof.
  induction k as [|k IH]; intros Hk.
  - rewrite decide_False by lia. constructor.
  - rewrite decide_True by lia. simpl.
    apply (next_path_cons _ _ (init_slot mem D N (N - S k))).
    + apply init_heap_lookup. lia.
    + simpl. specialize (IH ltac:(lia)).
      replace (S (N - S k)) with (N - k) by lia. done.
Qed.

Lemma sum_used_unused (h : list prof_slot) :
  (forall j sj, h !! j = Some sj -> used sj = false) -> sum_used h = 0%Z.
Proof.
  induction h as [|x h IH]; intros Hall; [done|].
  change (sum_used (x :: h)) with (slot_weight x + sum_used h)%Z.
  rewrite IH.
  - unfold slot_weight. by rewrite (Hall 0 x).
  - intros j sj Hj. by apply (Hall (S j)).
Qed.

Lemma initialized_ok mem s :
  0 < uint (profiler_slot_heap_size s) ->
  pool_ok (initialized mem s)
    (init_heap mem (uint (profiler_max_stack_depth s))
       (uint (profiler_slot_heap_size s))).
Proof.
  intros HN.
  set (D := uint (profiler_max_stack_depth s)).
  set (N := uint (profiler_slot_heap_size s)) in *.
  assert (forall j sj, init_heap mem D N !! j = Some sj ->
            j < N /\ sj = init_slot mem D N j) as Hinv.
  { intros j sj Hj. pose proof (lookup_lt_Some _ _ _ Hj) as Hlt.
    rewrite init_heap_length in Hlt. rewrite init_heap_lookup in Hj by done.
    split; [done|congruence]. }
  split; cbn -[replicate init_heap resize PROF_HASH_TABLE_SIZE]; fold D N.
  - done.
  - apply init_heap_length.
  - by rewrite init_heap_length.
  - by rewrite length_replicate.
  - eexists. split; [done|]. by rewrite length_resize.
  - intros j sj [_ ->]%Hinv. simpl. by rewrite length_resize.
  - split.
    + by intros y sy x [_ ->]%Hinv.
    + by intros y sy x [_ ->]%Hinv.
    + intros b x [Hb _]%lookup_replicate. done.
    + by intros x sx [_ ->]%Hinv.
  - exists (seq 0 N). split_and!.
    + pose proof (init_heap_free mem D N N ltac:(lia)) as Hp.
      rewrite decide_True in Hp by lia. by replace (N - N) with 0 in Hp by lia.
    + apply NoDup_seq.
    + intros j sj [Hj ->]%Hinv. simpl. split; [|done].
      intros _. apply elem_of_seq. lia.
  - by intros j sj [_ ->]%Hinv.
  - done.
  - rewrite sum_used_unused; [done|]. by intros j sj [_ ->]%Hinv.
Qed.

End Init.

(** ** Every reachable state satisfies the invariant *)

Section Reachable.
Context `{LispHost}.

Lemma pool_ok_set_backtrace s h buf :
  pool_ok s h -> length buf = prof_max_stack_depth s ->
  pool_ok (set_backtrace (Some buf) s) h.
Proof. intros [] Hb. split; simpl; try done. by exists buf. Qed.

Lemma pool_ok_set_sampling s h mode start interval :
  pool_ok s h -> pool_ok (set_sampling mode start interval s) h.
Proof. intros []. by split. Qed.

Lemma pool_ok_set_sigprof_action s h b :
  pool_ok s h -> pool_ok (set_sigprof_action b s) h.
Proof. intros []. by split. Qed.

Lemma pool_ok_set_itimer s h v : pool_ok s h -> pool_ok (set_itimer v s) h.
Proof. intros []. by split. Qed.

Lemma pool_ok_set_blocked s h b : pool_ok s h -> pool_ok (set_blocked b s) h.
Proof. intros []. by split. Qed.

Lemma pool_ok_set_config s h depth size :
  pool_ok s h -> pool_ok (set_config depth size s) h.
Proof. intros []. by split. Qed.

(** Lines 212-217 in a pool that satisfies the invariant: they return,
    and the invariant holds again. *)
Lemma prof_record_sample_ok s h buf first :
  pool_ok s h -> prof_backtrace s = Some buf -> buf !! 0 = Some first ->
  exists s' h', prof_record_sample s = Some s' /\ pool_ok s' h'.
Proof.
  intros Hok Hbuf Hfirst. unfold prof_record_sample.
  rewrite Hbuf. simpl. rewrite Hfirst. simpl.
  destruct (NILP first); simpl; [by exists s, h|].
  destruct (prof_ensure_slot_ok s h buf Hok) as (j & s1 & h1 & sj & -> & Hok1 & Hj & Hu).
  { destruct (pool_scratch _ _ Hok) as (buf' & Hbuf' & Hlen). congruence. }
  simpl. rewrite (prof_record_counted s1 h1 j sj (pool_heap _ _ Hok1) Hj).
  eexists _, _. split; [done|]. by apply (counted_ok s1 h1 j sj).
Qed.

Lemma prof_signal_handler_ok s h bl :
  pool_ok s h -> 0 < prof_max_stack_depth s ->
  exists s' h', prof_signal_handler bl s = Some s' /\ pool_ok s' h'.
Proof.
  intros Hok HD. destruct (pool_scratch _ _ Hok) as (buf & Hbuf & Hlen).
  unfold prof_signal_handler. rewrite Hbuf. simpl.
  set (buf2 := prof_walk_backtrace _ _ _ _).
  assert (length buf2 = prof_max_stack_depth s) as Hlen2.
  { unfold buf2. by rewrite prof_walk_backtrace_length, prof_clear_backtrace_length. }
  destruct (lookup_lt_is_Some_2 buf2 0) as [first Hfirst]; [lia|].
  apply (prof_record_sample_ok _ h buf2 first); [|done|done].
  by apply pool_ok_set_backtrace.
Qed.

Lemma prof_signal_handler_wf s s' bl :
  wf s -> prof_signal_handler bl s = Some s' -> wf s'.
Proof.
  intros Hwf Hs. destruct (prof_slot_heap s) as [h|] eqn:Hheap.
  - specialize (Hwf h Hheap).
    destruct (decide (0 < prof_max_stack_depth s)) as [HD|HD].
    + destruct (prof_signal_handler_ok s h bl Hwf HD) as (s'' & h' & E & Hok).
      rewrite E in Hs. injection Hs as <-.
      intros h'' Hh''. rewrite (pool_heap _ _ Hok) in Hh''. by injection Hh'' as <-.
    + destruct (pool_scratch _ _ Hwf) as (buf & Hbuf & Hlen).
      unfold prof_signal_handler, prof_record_sample in Hs.
      rewrite Hbuf in Hs. simpl in Hs.
      rewrite lookup_ge_None_2 in Hs; [done|].
      rewrite prof_walk_backtrace_length, prof_clear_backtrace_length. lia.
  - intros h' Hh'. exfalso.
    unfold prof_signal_handler, prof_record_sample in Hs.
    destruct (prof_backtrace s) as [buf|]; [|done]. simpl in Hs.
    destruct (_ !! 0) as [first|]; [|done]. simpl in Hs.
    destruct (NILP first); simpl in Hs.
    + injection Hs as <-. simpl in Hh'. congruence.
    + unfold prof_ensure_slot in Hs. simpl in Hs.
      destruct (_ !! _); [|done]. simpl in Hs. by rewrite Hheap in Hs.
Qed.

Lemma Fprofiler_start_sampling_wf s s' r i now mem a t :
  wf s -> Fprofiler_start_sampling i now mem a t s = Some (r, s') -> wf s'.
Proof.
  intros Hwf Hs. unfold Fprofiler_start_sampling in Hs.
  assert (exists s1 h, pool_ok s1 h /\
    s' = (if t then set_itimer (XINT i * 1000) else id)
           ((if a then set_sigprof_action true else id)
              (set_sampling (intern "sample") now i s1))) as (s1 & h & Hok & ->).
  { destruct (prof_slot_heap s) as [h|] eqn:Hheap.
    - simpl in Hs. injection Hs as _ <-. exists s, h. split; [by apply Hwf|].
      by destruct a, t.
    - destruct (decide (0 < uint (profiler_slot_heap_size s))) as [HN|HN].
      + rewrite (prof_init_eq mem s HN) in Hs. simpl in Hs. injection Hs as _ <-.
        eexists _, _. split; [by apply initialized_ok|]. by destruct a, t.
      + rewrite prof_init_zero in Hs by lia. done. }
  intros h' Hh'.
  assert (pool_ok
    ((if t then set_itimer (XINT i * 1000) else id)
       ((if a then set_sigprof_action true else id)
          (set_sampling (intern "sample") now i s1))) h) as Hok'.
  { destruct a, t; simpl;
      repeat first [apply pool_ok_set_itimer | apply pool_ok_set_sigprof_action
                   | apply pool_ok_set_sampling]; done. }
  rewrite (pool_heap _ _ Hok') in Hh'. by injection Hh' as <-.
Qed.

Lemma step_wf c s s' : wf s -> step c s = Some s' -> wf s'.
Proof.
  intros Hwf Hs. destruct c; simpl in Hs.
  - injection Hs as <-. intros h Hh. apply pool_ok_set_config. by apply Hwf.
  - apply fmap_Some in Hs as ([r s''] & Hs & ->). simpl.
    by eapply Fprofiler_start_sampling_wf.
  - injection Hs as <-. unfold Fprofiler_stop_sampling.
    destruct setitimer_ok; [|done].
    intros h Hh. apply pool_ok_set_itimer. by apply Hwf.
  - injection Hs as <-. unfold Fprofiler_reset, prof_block_signal, prof_unblock_signal.
    intros h Hh. simpl in Hh. destruct (prof_slot_heap s) eqn:E; [done|].
    simpl in Hh. congruence.
  - apply fmap_Some in Hs as ([r s''] & Hs & ->). simpl.
    unfold Fprofiler_take_snapshot in Hs.
    apply bind_Some in Hs as (slots & _ & Hs). injection Hs as _ <-.
    intros h Hh. unfold prof_unblock_signal, prof_block_signal.
    do 2 apply pool_ok_set_blocked. by apply Hwf.
  - destruct (sigprof_action s); [|done]. by eapply prof_signal_handler_wf.
Qed.

Lemma run_wf cs : forall s s', wf s -> run cs s = Some s' -> wf s'.
Proof.
  induction cs as [|c cs IH]; intros s s' Hwf Hr; simpl in Hr.
  - by injection Hr as <-.
  - apply bind_Some in Hr as (s1 & Hs & Hr).
    apply (IH s1); [|done]. by eapply step_wf.
Qed.

Lemma reachable_wf s : reachable s -> wf s.
Proof.
  intros [cs Hr]. apply (run_wf cs syms_of_profiler); [|done].
  intros h Hh. done.
Qed.

End Reachable.

(** ** Filling the pool *)

Section Fill.
Context `{LispHost}.

Ltac same_slot :=
  repeat match goal with
  | H1 : ?h !! ?x = Some ?a, H2 : ?h !! ?x = Some ?b |- _ =>
      assert (b = a) as -> by congruence; clear H2
  end.

Lemma next_path_suffix (h : list prof_slot) p c c1 j c2 :
  next_path h p c -> c = c1 ++ j :: c2 -> next_path h (Some j) (j :: c2).
Proof.
  intros Hp. revert c1. induction Hp as [|i sl c Hi Hp IH]; intros c1 E.
  - by destruct c1.
  - destruct c1 as [|a c1]; simplify_eq/=.
    + by eapply next_path_cons.
    + by eapply IH.
Qed.

Lemma next_path_NoDup (h : list prof_slot) p c : next_path h p c -> NoDup c.
Proof.
  induction 1 as [|i sl c Hi Hp IH]; [constructor|].
  constructor; [|done]. intros Hin.
  apply list_elem_of_split in Hin as (c1 & c2 & E).
  pose proof (next_path_suffix _ _ _ _ _ _ Hp E) as Hs.
  pose proof (next_path_det _ _ _ _ Hs (next_path_cons _ _ _ _ Hi Hp)) as E'.
  injection E' as ->. apply (f_equal length) in E.
  rewrite length_app in E. simpl in E. lia.
Qed.

(** Appending slot [i] to a chain. *)
Lemma next_path_snoc (h h' : list prof_slot) p c z i si' :
  next_path h p c -> last c = Some z -> i ∉ c ->
  (forall j, j ∈ c -> j <> z -> next <$> h' !! j = next <$> h !! j) ->
  next <$> h' !! z = Some (Some i) ->
  h' !! i = Some si' -> next si' = None ->
  next_path h' p (c ++ [i]).
Proof.
  intros Hp Hz Hi Hsame Hzn Hi' Hin.
  pose proof (next_path_NoDup _ _ _ Hp) as Hnd.
  induction Hp as [|j sl c Hj Hp IH]; [done|].
  apply NoDup_cons in Hnd as [Hjc Hnd].
  destruct c as [|j' c].
  - simpl in Hz. injection Hz as <-.
    apply fmap_Some in Hzn as (sz' & Hz' & Hn').
    simpl. apply (next_path_cons _ _ sz'); [done|]. rewrite <- Hn'.
    apply (next_path_cons _ _ si'); [done|]. rewrite Hin. constructor.
  - rewrite last_cons_cons in Hz.
    assert (j <> z) as Hjz.
    { intros ->. apply Hjc. by apply last_Some_elem_of. }
    pose proof (Hsame j ltac:(by left) Hjz) as Hnj. rewrite Hj in Hnj.
    apply fmap_Some in Hnj as (sj' & Hj' & Hn').
    simpl. apply (next_path_cons _ _ sj'); [done|]. rewrite <- Hn'.
    apply IH; try done.
    + intros Hin'. apply Hi. by right.
    + intros k Hk. apply Hsame. by right.
Qed.

Lemma occurrences_snoc k seen bt :
  occurrences k (seen ++ [bt]) =
  occurrences k seen + (if decide (bt = k) then 1 else 0).
Proof.
  unfold occurrences. rewrite filter_app, length_app. f_equal.
  rewrite filter_cons, filter_nil. by case_decide.
Qed.

Lemma occurrences_zero k seen : k ∉ seen -> occurrences k seen = 0.
Proof.
  intros Hk. unfold occurrences.
  induction seen as [|x seen IH]; [done|].
  rewrite filter_cons. rewrite decide_False.
  - apply IH. intros Hin. apply Hk. by right.
  - intros ->. apply Hk. by left.
Qed.

Lemma ulong_1 : ulong 1 = 1%Z.
Proof.
  apply ulong_small. split; [lia|].
  assert (2 ^ 1 <= 2 ^ Z.pos ULONG_WIDTH)%Z; [|lia].
  apply Z.pow_le_mono_r; lia.
Qed.

Lemma ulong_succ z : ulong (ulong z + 1) = ulong (z + 1).
Proof. apply ulong_add_l. Qed.

Lemma captured_length D bl : length (captured D bl) = D.
Proof. unfold captured. by rewrite prof_walk_backtrace_length, length_replicate. Qed.

(** The trigger is [prof_record_sample] on the captured backtrace. *)
Lemma prof_signal_handler_captured s buf bl :
  prof_backtrace s = Some buf -> length buf = prof_max_stack_depth s ->
  prof_signal_handler bl s =
  prof_record_sample
    (set_backtrace (Some (captured (prof_max_stack_depth s) bl)) s).
Proof.
  intros Hbuf Hlen. unfold prof_signal_handler. rewrite Hbuf. simpl.
  by rewrite prof_clear_backtrace_all.
Qed.

Lemma prof_record_sample_step s bt first j s1 h1 sj :
  prof_backtrace s = Some bt -> bt !! 0 = Some first -> NILP first = false ->
  prof_ensure_slot bt s = Some (j, s1) ->
  prof_slot_heap s1 = Some h1 -> h1 !! j = Some sj ->
  prof_record_sample s = Some (counted j h1 s1).
Proof.
  intros Hbt Hfirst Hnil He Hh Hj. unfold prof_record_sample.
  rewrite Hbt. cbn -[prof_ensure_slot update_slot slot_at].
  rewrite Hfirst. cbn -[prof_ensure_slot update_slot slot_at].
  rewrite Hnil. cbn -[prof_ensure_slot update_slot slot_at].
  rewrite He. cbn -[prof_ensure_slot update_slot slot_at].
  by apply (prof_record_counted s1 h1 j sj).
Qed.

Lemma fill_used_lt s h seen ks j sj :
  fill_ok s h seen ks -> h !! j = Some sj -> used sj = true ->
  ks !! j = Some (backtrace sj).
Proof.
  intros Hfill Hj Hu.
  destruct (decide (j < length ks)) as [Hlt|Hge].
  - destruct (lookup_lt_is_Some_2 ks j Hlt) as [k Hk].
    destruct (fill_used _ _ _ _ Hfill j k Hk) as (sl & _ & _ & Hsl & _ & Hb & _).
    same_slot. by rewrite Hb.
  - destruct (fill_unused _ _ _ _ Hfill j sj Hj); [lia|congruence].
Qed.

Lemma fill_chain s h seen ks b p :
  fill_ok s h seen ks -> prof_hash_table s !! b = Some p ->
  exists c, next_path h p c /\ length c <= length h /\
    forall j, j ∈ c -> exists sj, h !! j = Some sj /\ used sj = true /\
      bucket_of (prof_max_stack_depth s) sj = b /\
      ks !! j = Some (backtrace sj).
Proof.
  intros Hfill Ht.
  destruct (bucket_chain _ _ _ _ _ (pool_links _ _ (fill_pool _ _ _ _ Hfill)) Ht)
    as (c & Hp & Hlen & Hall).
  exists c. split_and!; [done..|].
  intros j Hj. destruct (Hall j Hj) as (sj & Hsj & Hu & Hb).
  exists sj. split_and!; try done. by eapply fill_used_lt.
Qed.

(** A sample of a backtrace the pool holds is counted in its slot. *)
Lemma fill_hit s h seen ks bt i first :
  fill_ok s h seen ks -> ks !! i = Some bt ->
  bt !! 0 = Some first -> NILP first = false ->
  exists s' h',
    prof_record_sample (set_backtrace (Some bt) s) = Some s' /\
    fill_ok s' h' (seen ++ [bt]) ks /\
    prof_max_stack_depth s' = prof_max_stack_depth s /\ length h' = length h.
Proof.
  intros Hfill Hi Hfirst Hnil.
  pose proof (fill_pool _ _ _ _ Hfill) as Hok.
  pose proof (pool_heap _ _ Hok) as Hheap.
  set (D := prof_max_stack_depth s).
  destruct (fill_used _ _ _ _ Hfill i bt Hi)
    as (sl & p & c & Hsl & Hu & Hbt & Hcnt & Ht & Hp & Hic).
  assert (length bt = D) as Hlen.
  { rewrite <- Hbt. by apply (pool_buffers _ _ Hok i). }
  destruct (fill_chain _ _ _ _ _ _ Hfill Ht) as (c' & Hp' & Hclen & Hall).
  assert (c' = c) as -> by by eapply next_path_det.
  assert (bucket_of D sl = prof_backtrace_index D bt) as Hidx.
  { unfold bucket_of. by rewrite Hbt. }
  fold D in Ht. rewrite Hidx in Ht.
  destruct (chain_hit_or_miss h D bt c)
    as [(c1 & j & sj & c2 & -> & Hj & Heq & Hmiss)|Hmiss].
  { intros k Hk. destruct (Hall k Hk) as (sk & ? & _). by eexists. }
  2:{ exfalso.
      assert (prof_backtrace_equal D bt (backtrace sl) = true) as E.
      { apply prof_backtrace_equal_iff; try done. by rewrite Hbt. }
      by rewrite (Hmiss i sl Hic Hsl) in E. }
  assert (j = i) as ->.
  { destruct (Hall j) as (sj' & Hj' & Huj & _ & Hkj).
    { apply elem_of_app. right. by left. }
    same_slot.
    apply prof_backtrace_equal_iff in Heq; [|done|by apply (pool_buffers _ _ Hok j)].
    rewrite <- Heq in Hkj.
    by apply (NoDup_lookup ks j i bt (fill_nodup _ _ _ _ Hfill)). }
  same_slot.
  assert (pool_ok (set_backtrace (Some bt) s) h) as Hok0
    by by apply pool_ok_set_backtrace.
  unfold D in *. clear D.
  exists (counted i h (set_backtrace (Some bt) s)),
    (imap (upd i (fun sl0 => with_count (ulong (count sl0 + 1)) sl0)) h).
  split.
  - apply (prof_record_sample_step _ bt first i (set_backtrace (Some bt) s) h sl);
      try done.
    apply (prof_ensure_slot_hit _ h bt p c1 i sl c2); simpl; done.
  - pose proof (counted_ok _ h i sl Hok0 Hsl Hu) as Hok1.
    split; [|split; [done|by rewrite length_imap]].
    split; try done.
    + apply (fill_nodup _ _ _ _ Hfill).
    + intros k. rewrite (fill_seen _ _ _ _ Hfill k), elem_of_app, list_elem_of_singleton.
      split; [by left|]. intros [? | ->]; [done|].
      apply (fill_seen _ _ _ _ Hfill). by eapply list_elem_of_lookup_2.
    + intros i' k Hk.
      destruct (fill_used _ _ _ _ Hfill i' k Hk)
        as (sl' & p' & c' & Hsl' & Hu' & Hbt' & Hcnt' & Ht' & Hp'' & Hic').
      exists (upd i (fun sl0 => with_count (ulong (count sl0 + 1)) sl0) i' sl'), p', c'.
      split_and!.
      * apply lookup_imap_Some. by exists sl'.
      * unfold upd. by case_decide.
      * unfold upd. by case_decide.
      * rewrite occurrences_snoc. unfold upd. case_decide as Hii.
        -- subst i'. same_slot.
           rewrite decide_True by done. simpl. rewrite Hcnt, ulong_succ.
           f_equal. lia.
        -- rewrite decide_False.
           { rewrite Hcnt'. f_equal. lia. }
           intros <-. apply Hii.
           by apply (NoDup_lookup ks i' i bt (fill_nodup _ _ _ _ Hfill)).
      * simpl. replace (bucket_of _ _) with (bucket_of (prof_max_stack_depth s) sl');
          [done|]. unfold bucket_of, upd. by case_decide.
      * apply (next_path_ext h); [|done]. intros k' _.
        rewrite list_lookup_imap. destruct (h !! k'); [|done]. simpl.
        unfold upd. by case_decide.
      * done.
    + intros i' sl' (sl0 & Hsl0 & ->)%lookup_imap_Some Hge.
      rewrite length_imap.
      destruct (fill_unused _ _ _ _ Hfill i' sl0 Hsl0 Hge) as [? ?].
      unfold upd. destruct (decide (i' = i)); split; done.
    + simpl. rewrite length_imap. apply (fill_free _ _ _ _ Hfill).
    + simpl. apply (fill_others _ _ _ _ Hfill).
Qed.

Lemma inserted_fields bt i si prev0 h s :
  prof_free_list (inserted bt i si prev0 h s) = next si /\
  prof_others_count (inserted bt i si prev0 h s) = prof_others_count s /\
  prof_max_stack_depth (inserted bt i si prev0 h s) = prof_max_stack_depth s /\
  prof_hash_table (inserted bt i si prev0 h s) =
    (if prev0 is Some _ then prof_hash_table s
     else <[prof_backtrace_index (prof_max_stack_depth s) bt := Some i]>
            (prof_hash_table s)) /\
  prof_slot_heap (inserted bt i si prev0 h s) =
    Some (imap (link_adjust (prof_max_stack_depth s) bt i prev0) h).
Proof. unfold inserted. by destruct prev0. Qed.

(** A sample of a backtrace the pool does not hold takes the next
    slot of the free list while there is one. *)
Lemma fill_new s h seen ks bt first :
  fill_ok s h seen ks -> bt ∉ ks -> length bt = prof_max_stack_depth s ->
  bt !! 0 = Some first -> NILP first = false -> length ks < length h ->
  exists s' h',
    prof_record_sample (set_backtrace (Some bt) s) = Some s' /\
    fill_ok s' h' (seen ++ [bt]) (ks ++ [bt]) /\
    prof_max_stack_depth s' = prof_max_stack_depth s /\ length h' = length h.
Proof.
  intros Hfill Hnew Hlen Hfirst Hnil Hroom.
  pose proof (fill_pool _ _ _ _ Hfill) as Hok.
  pose proof (pool_heap _ _ Hok) as Hheap.
  pose proof (fill_free _ _ _ _ Hfill) as Hf. rewrite decide_True in Hf by done.
  destruct (lookup_lt_is_Some_2 h (length ks) Hroom) as [si Hi].
  destruct (fill_unused _ _ _ _ Hfill _ si Hi ltac:(lia)) as [Hu Hn].
  destruct (lookup_lt_is_Some_2 (prof_hash_table s)
              (prof_backtrace_index (prof_max_stack_depth s) bt)) as [p Ht].
  { rewrite (pool_table _ _ Hok). apply prof_backtrace_index_lt. }
  destruct (fill_chain _ _ _ _ _ _ Hfill Ht) as (c & Hp & Hclen & Hall).
  assert (forall k sk, k ∈ c -> h !! k = Some sk ->
    prof_backtrace_equal (prof_max_stack_depth s) bt (backtrace sk) = false) as Hmiss.
  { intros k sk Hk Hsk. destruct (Hall k Hk) as (sk' & Hsk' & _ & _ & Hkk).
    same_slot. destruct (prof_backtrace_equal _ _ _) eqn:E; [|done].
    apply prof_backtrace_equal_iff in E; [|done|by apply (pool_buffers _ _ Hok k)].
    exfalso. apply Hnew. rewrite E. by eapply list_elem_of_lookup_2. }
  assert (forall j sj, h !! j = Some sj -> used sj = true -> j <> length ks) as Hfresh.
  { intros j sj Hj Huj ->. same_slot. congruence. }
  assert (forall z, last c = Some z ->
    exists sz, h !! z = Some sz /\ used sz = true /\ z <> length ks /\
      bucket_of (prof_max_stack_depth s) sz =
      prof_backtrace_index (prof_max_stack_depth s) bt) as Hlast.
  { intros z Hz. destruct (Hall z) as (sz & Hsz & Huz & Hbz & _).
    { by apply last_Some_elem_of. }
    exists sz. split_and!; try done. by eapply Hfresh. }
  set (s0 := set_backtrace (Some bt) s).
  assert (pool_ok s0 h) as Hok0 by by apply pool_ok_set_backtrace.
  set (i := length ks) in *.
  set (D := prof_max_stack_depth s) in *.
  set (idx := prof_backtrace_index D bt) in *.
  destruct (inserted_ok s0 h i si bt (last c) Hok0 Hf Hi Hlen) as [_ Hok1].
  { apply tail_ok_here. apply (chain_tail D h _ idx p c Ht Hp).
    intros j Hj. destruct (Hall j Hj) as (sj & ? & ? & ? & _). by exists sj. }
  set (s1 := inserted bt i si (last c) h s0) in *.
  change (prof_max_stack_depth s0) with D in Hok1.
  set (h1 := imap (link_adjust D bt i (last c)) h) in *.
  destruct (inserted_fields bt i si (last c) h s0) as (Ef & Eo & Ed & Et & Eh).
  fold s1 in Ef, Eo, Ed, Et, Eh.
  change (prof_max_stack_depth s0) with D in Ed, Et, Eh.
  change (prof_hash_table s0) with (prof_hash_table s) in Et.
  change (prof_others_count s0) with (prof_others_count s) in Eo.
  fold idx in Et.
  assert (h1 !! i = Some (link_adjust D bt i (last c) i si)) as Hi1.
  { apply lookup_imap_Some. by exists si. }
  destruct (link_adjust_data D bt i (last c) i si) as (Eu1 & Ec1 & Eb1).
  rewrite decide_True in Eu1 by done. rewrite decide_True in Ec1 by done.
  rewrite decide_True in Eb1 by done.
  rewrite prof_copy_backtrace_all in Eb1; [|done|by apply (pool_buffers _ _ Hok i)].
  pose proof (counted_ok s1 h1 i _ Hok1 Hi1 Eu1) as Hok2.
  set (incr := fun sl0 => with_count (ulong (count sl0 + 1)) sl0) in *.
  set (h2 := imap (upd i incr) h1) in *.
  assert (forall j sj, h !! j = Some sj ->
    h2 !! j = Some (upd i incr j (link_adjust D bt i (last c) j sj))) as Hlook.
  { intros j sj Hj. apply lookup_imap_Some. eexists. split; [|done].
    apply lookup_imap_Some. by exists sj. }
  assert (forall j sj, h !! j = Some sj -> j <> i -> last c <> Some j ->
    h2 !! j = Some sj) as Hkeep.
  { intros j sj Hj Hji Hjz. rewrite (Hlook j sj Hj). f_equal.
    unfold upd at 1. rewrite decide_False by done. by apply link_adjust_other. }
  assert (exists si2, h2 !! i = Some si2 /\ used si2 = true /\
    backtrace si2 = bt /\ count si2 = ulong (0 + 1) /\
    (last c = None -> next si2 = None) /\
    (forall z, last c = Some z -> next si2 = None))
    as (si2 & Hi2 & Hu2 & Hb2 & Hc2 & Hn2 & Hn2').
  { exists (incr (link_adjust D bt i (last c) i si)). split.
    { rewrite (Hlook i si Hi). unfold upd at 1. by rewrite decide_True. }
    unfold incr. simpl. split_and!; try done.
    - by rewrite Ec1.
    - intros ->. by rewrite link_adjust_new_none.
    - intros z Hz. destruct (Hlast z Hz) as (_ & _ & _ & Hzi & _).
      rewrite Hz. by rewrite link_adjust_new_tail. }
  assert (forall z, last c = Some z -> next_path h2 p (c ++ [i])) as Hsnoc.
  { intros z Hz. destruct (Hlast z Hz) as (sz & Hsz & Huz & Hzi & _).
    apply (next_path_snoc h h2 p c z i si2); try done.
    - intros Hic. destruct (Hall i Hic) as (si' & Hi' & Hu' & _).
      same_slot. congruence.
    - intros j Hj Hjz. destruct (Hall j Hj) as (sj & Hsj & Huj & _).
      rewrite Hsj. rewrite (Hkeep j sj); [done|done|by eapply Hfresh|].
      rewrite Hz. congruence.
    - rewrite (Hlook z sz Hsz). simpl. unfold upd at 1.
      rewrite decide_False by done. rewrite Hz.
      by rewrite link_adjust_tail.
    - by eapply Hn2'. }
  assert (bt ∉ seen) as Hnew'.
  { intros Hin. apply Hnew. by apply (fill_seen _ _ _ _ Hfill). }
  exists (counted i h1 s1), h2. split.
  { apply (prof_record_sample_step s0 bt first i s1 h1
             (link_adjust D bt i (last c) i si)); try done.
    apply (prof_ensure_slot_new s0 h bt p c i si); try done. }
  split; [|split; [exact Ed|by unfold h2, h1; rewrite !length_imap]].
  split.
  - exact Hok2.
  - apply NoDup_app. split_and!; [apply (fill_nodup _ _ _ _ Hfill)| |apply NoDup_singleton].
    intros x Hx ->%list_elem_of_singleton. done.
  - intros k. rewrite !elem_of_app. by rewrite (fill_seen _ _ _ _ Hfill k).
  - intros i' k Hk. simpl. rewrite Ed, Et.
    apply lookup_app_Some in Hk as [Hk|[Hge Hk]].
    + (* a backtrace already in the pool *)
      destruct (fill_used _ _ _ _ Hfill i' k Hk)
        as (sl' & p' & c' & Hsl' & Hu' & Hbt' & Hcnt' & Ht' & Hp' & Hic').
      fold D in Ht'.
      assert (i' <> i) as Hii by by eapply Hfresh.
      assert (k <> bt) as Hkb.
      { intros ->. apply Hnew. by eapply list_elem_of_lookup_2. }
      pose proof (Hlook i' sl' Hsl') as Hl2.
      unfold upd at 1 in Hl2. rewrite decide_False in Hl2 by done.
      destruct (link_adjust_data D bt i (last c) i' sl') as (Eu & Ec & Eb).
      rewrite decide_False in Eu by done. rewrite decide_False in Ec by done.
      rewrite decide_False in Eb by done.
      assert (bucket_of D (link_adjust D bt i (last c) i' sl') = bucket_of D sl') as Ebk.
      { unfold bucket_of. by rewrite Eb. }
      destruct (decide (bucket_of D sl' = idx)) as [Hsame|Hdiff].
      * rewrite Hsame in Ht'. assert (p' = p) as -> by congruence.
        assert (c' = c) as -> by by eapply next_path_det.
        destruct (last c) as [z|] eqn:Hz.
        2:{ apply last_None in Hz. subst c. by apply elem_of_nil in Hic'. }
        eexists _, p, (c ++ [i]). split; [exact Hl2|].
        split_and!.
        -- congruence.
        -- congruence.
        -- rewrite Ec, Hcnt', occurrences_snoc, decide_False by done.
           f_equal. lia.
        -- rewrite Ebk, Hsame. done.
        -- by apply (Hsnoc z).
        -- apply elem_of_app. by left.
      * destruct (fill_chain _ _ _ _ _ _ Hfill Ht') as (c'' & Hp'' & _ & Hall').
        assert (c'' = c') as -> by by eapply next_path_det.
        eexists _, p', c'. split; [exact Hl2|].
        split_and!.
        -- congruence.
        -- congruence.
        -- rewrite Ec, Hcnt', occurrences_snoc, decide_False by done.
           f_equal. lia.
        -- rewrite Ebk. destruct (last c); [done|].
           by rewrite list_lookup_insert_ne.
        -- apply (next_path_ext h); [|done]. intros j Hj.
           destruct (Hall' j Hj) as (sj & Hsj & Huj & Hbj & _).
           rewrite Hsj, (Hkeep j sj); [done|done|by eapply Hfresh|].
           intros Hz. destruct (Hlast j Hz) as (sj' & Hsj' & _ & _ & Hbj').
           same_slot. apply Hdiff. rewrite <- Hbj'. symmetry. exact Hbj.
        -- done.
    + (* the new backtrace *)
      apply list_lookup_singleton_Some in Hk as [Hz ->].
      assert (i' = i) as -> by (unfold i; lia).
      assert (bucket_of D si2 = idx) as Ebk.
      { unfold bucket_of. by rewrite Hb2. }
      destruct (last c) as [z|] eqn:Hz'.
      * eexists si2, p, (c ++ [i]). split_and!.
        -- done.
        -- done.
        -- done.
        -- rewrite Hc2, occurrences_snoc, decide_True, occurrences_zero by done. done.
        -- by rewrite Ebk.
        -- by apply (Hsnoc z).
        -- apply elem_of_app. right. by left.
      * eexists si2, (Some i), [i]. split_and!.
        -- done.
        -- done.
        -- done.
        -- rewrite Hc2, occurrences_snoc, decide_True, occurrences_zero by done. done.
        -- rewrite Ebk. apply list_lookup_insert_eq. by apply lookup_lt_Some in Ht.
        -- apply (next_path_cons _ _ si2); [done|]. rewrite Hn2 by done. constructor.
        -- by left.
  - intros i' sl' Hsl' Hge. rewrite length_app in Hge. simpl in Hge.
    pose proof (lookup_lt_Some _ _ _ Hsl') as Hlt.
    unfold h2, h1 in Hlt. rewrite !length_imap in Hlt.
    destruct (lookup_lt_is_Some_2 h i' Hlt) as [sl0 Hsl0].
    destruct (fill_unused _ _ _ _ Hfill i' sl0 Hsl0 ltac:(unfold i in *; lia)) as [Hu0 Hn0].
    rewrite (Hkeep i' sl0) in Hsl'; [|done|unfold i in *; lia|].
    2:{ intros Hz. destruct (Hlast i' Hz) as (sz & Hsz & Huz & _). same_slot. congruence. }
    injection Hsl' as <-. unfold h2, h1. by rewrite !length_imap.
  - simpl. rewrite Ef, Hn. unfold h2, h1. rewrite !length_imap, length_app. simpl.
    replace (length ks + 1) with (S i) by (unfold i; lia). done.
  - simpl. rewrite Eo. apply (fill_others _ _ _ _ Hfill).
Qed.

Lemma add_key_length ks k : length ks <= length (add_key ks k).
Proof. unfold add_key. case_decide; [done|]. rewrite length_app. lia. Qed.

Lemma foldl_add_key_length l : forall ks, length ks <= length (foldl add_key ks l).
Proof.
  induction l as [|k l IH]; intros ks; simpl; [done|].
  etrans; [apply (add_key_length ks k)|apply IH].
Qed.

Lemma fill_step s h seen ks bt first :
  fill_ok s h seen ks -> length bt = prof_max_stack_depth s ->
  bt !! 0 = Some first -> NILP first = false ->
  length (add_key ks bt) <= length h ->
  exists s' h',
    prof_record_sample (set_backtrace (Some bt) s) = Some s' /\
    fill_ok s' h' (seen ++ [bt]) (add_key ks bt) /\
    prof_max_stack_depth s' = prof_max_stack_depth s /\ length h' = length h.
Proof.
  intros Hfill Hlen Hfirst Hnil Hroom. unfold add_key in *.
  case_decide as Hin.
  - apply list_elem_of_lookup_1 in Hin as [i Hi]. by eapply fill_hit.
  - eapply fill_new; try done. rewrite length_app in Hroom. simpl in Hroom. lia.
Qed.

(** The pool fills without eviction as long as the samples have no
    more distinct backtraces than there are slots. *)
Lemma fill_signals bls : forall s h seen ks,
  fill_ok s h seen ks -> 0 < prof_max_stack_depth s ->
  Forall (fun bl => NILP (aref (captured (prof_max_stack_depth s) bl) 0) = false) bls ->
  length (foldl add_key ks (captured (prof_max_stack_depth s) <$> bls)) <= length h ->
  exists s' h',
    signals bls s = Some s' /\
    fill_ok s' h' (seen ++ (captured (prof_max_stack_depth s) <$> bls))
      (foldl add_key ks (captured (prof_max_stack_depth s) <$> bls)) /\
    prof_max_stack_depth s' = prof_max_stack_depth s /\ length h' = length h.
Proof.
  induction bls as [|bl bls IH]; intros s h seen ks Hfill HD Hnil Hroom.
  - exists s, h. simpl. by rewrite app_nil_r.
  - apply Forall_cons in Hnil as [Hnil1 Hnil].
    simpl in Hroom |- *.
    set (D := prof_max_stack_depth s) in *.
    set (bt := captured D bl) in *.
    pose proof (captured_length D bl) as Hlen. fold bt in Hlen.
    destruct (lookup_lt_is_Some_2 bt 0) as [first Hfirst]; [lia|].
    assert (NILP first = false) as Hnil1'.
    { unfold aref in Hnil1. by rewrite Hfirst in Hnil1. }
    destruct (fill_step s h seen ks bt first Hfill Hlen Hfirst Hnil1')
      as (s1 & h1 & Hs1 & Hfill1 & HD1 & Hlen1).
    { etrans; [apply foldl_add_key_length|exact Hroom]. }
    destruct (pool_scratch _ _ (fill_pool _ _ _ _ Hfill)) as (buf & Hbuf & Hblen).
    rewrite (prof_signal_handler_captured s buf bl Hbuf Hblen).
    fold D bt. rewrite Hs1. simpl.
    destruct (IH s1 h1 (seen ++ [bt]) (add_key ks bt) Hfill1)
      as (s2 & h2 & Hs2 & Hfill2 & HD2 & Hlen2).
    { rewrite HD1. done. }
    { by rewrite HD1. }
    { rewrite HD1, Hlen1. done. }
    exists s2, h2. rewrite HD1 in Hfill2. fold D in Hfill2.
    rewrite <- app_assoc in Hfill2. simpl in Hfill2.
    split_and!; [done|done|by rewrite HD2, HD1|by rewrite Hlen2, Hlen1].
Qed.

Lemma fill_init mem s :
  0 < uint (profiler_slot_heap_size s) ->
  fill_ok (initialized mem s)
    (init_heap mem (uint (profiler_max_stack_depth s))
       (uint (profiler_slot_heap_size s))) [] [].
Proof.
  intros HN. split.
  - by apply initialized_ok.
  - constructor.
  - done.
  - intros i k Hk. done.
  - intros i sl Hsl _.
    pose proof (lookup_lt_Some _ _ _ Hsl) as Hlt.
    rewrite init_heap_length in Hlt.
    rewrite init_heap_lookup in Hsl by done. injection Hsl as <-.
    rewrite init_heap_length. done.
  - simpl. rewrite init_heap_length. by rewrite decide_True.
  - done.
Qed.

End Fill.

(** ** A sample of a new backtrace in a full pool *)

Section EvictStep.
Context `{LispHost}.

Ltac same_slot :=
  repeat match goal with
  | H1 : ?h !! ?x = Some ?a, H2 : ?h !! ?x = Some ?b |- _ =>
      assert (b = a) as -> by congruence; clear H2
  end.

Lemma sample_evict s h bt first :
  pool_ok s h -> prof_free_list s = None ->
  length bt = prof_max_stack_depth s ->
  bt !! 0 = Some first -> NILP first = false ->
  (forall j sj, h !! j = Some sj -> backtrace sj <> bt) ->
  exists v sv s' h',
    first_min h v sv /\ used sv = true /\
    prof_evict_min_scan h (prof_slot_heap_size s) = Some (Some v) /\
    prof_record_sample (set_backtrace (Some bt) s) = Some s' /\
    pool_ok s' h' /\
    prof_others_count s' = ulong (prof_others_count s + count sv) /\
    prof_total_count s' = ulong (prof_total_count s + 1) /\
    prof_free_list s' = None /\
    (exists sv', h' !! v = Some sv' /\ slot_data sv' = (bt, 1%Z, true)) /\
    (forall j sj, j <> v -> h !! j = Some sj ->
       exists sj', h' !! j = Some sj' /\ slot_data sj' = slot_data sj).
Proof.
  intros Hok Hf Hlen Hfirst Hnil Hnew.
  set (s0 := set_backtrace (Some bt) s).
  assert (pool_ok s0 h) as Hok0 by by apply pool_ok_set_backtrace.
  set (D := prof_max_stack_depth s) in *.
  destruct (lookup_lt_is_Some_2 (prof_hash_table s) (prof_backtrace_index D bt))
    as [p Ht].
  { rewrite (pool_table _ _ Hok). apply prof_backtrace_index_lt. }
  destruct (bucket_chain _ _ _ _ _ (pool_links _ _ Hok) Ht) as (c & Hp & Hclen & Hall).
  assert (forall k sk, k ∈ c -> h !! k = Some sk ->
    prof_backtrace_equal D bt (backtrace sk) = false) as Hmiss.
  { intros k sk _ Hsk. destruct (prof_backtrace_equal _ _ _) eqn:E; [|done].
    apply prof_backtrace_equal_iff in E; [|done|by apply (pool_buffers _ _ Hok k)].
    by destruct (Hnew k sk Hsk). }
  destruct (prof_evict_min_slot_ok s0 h Hok0 Hf)
    as (v & sv & Hfm & Hu & Hscan & He & Hok1).
  pose proof Hfm as (Hv & _).
  set (sv' := free_adjust v sv None v sv).
  set (h0 := imap (free_adjust v sv None) h) in *.
  assert (h0 !! v = Some sv') as Hv'.
  { apply lookup_imap_Some. by exists sv. }
  destruct (inserted_ok (evicted v sv h s0) h0 v sv' bt (last c) Hok1 eq_refl Hv' Hlen)
    as [_ Hok2].
  { apply tail_ok_evicted; try done; [apply (pool_links _ _ Hok)|].
    by apply (chain_tail D h _ _ p c). }
  set (s1 := inserted bt v sv' (last c) h0 (evicted v sv h s0)) in *.
  change (prof_max_stack_depth (evicted v sv h s0)) with D in Hok2.
  set (h1 := imap (link_adjust D bt v (last c)) h0) in *.
  destruct (inserted_fields bt v sv' (last c) h0 (evicted v sv h s0))
    as (Ef & Eo & Ed & Et & Eh).
  fold s1 in Ef, Eo, Ed, Et, Eh.
  assert (h1 !! v = Some (link_adjust D bt v (last c) v sv')) as Hv1.
  { apply lookup_imap_Some. by exists sv'. }
  destruct (link_adjust_data D bt v (last c) v sv') as (Eu1 & Ec1 & Eb1).
  rewrite decide_True in Eu1 by done. rewrite decide_True in Ec1 by done.
  rewrite decide_True in Eb1 by done.
  rewrite prof_copy_backtrace_all in Eb1; [|done|].
  2:{ unfold sv'. rewrite free_adjust_eq. simpl. by apply (pool_buffers _ _ Hok v). }
  pose proof (counted_ok s1 h1 v _ Hok2 Hv1 Eu1) as Hok3.
  exists v, sv, (counted v h1 s1),
    (imap (upd v (fun sl => with_count (ulong (count sl + 1)) sl)) h1).
  split_and!.
  - done.
  - done.
  - exact Hscan.
  - apply (prof_record_sample_step s0 bt first v s1 h1
             (link_adjust D bt v (last c) v sv')); try done.
    apply (prof_ensure_slot_evict s0 h bt p c v sv); try done.
    apply (pool_heap _ _ Hok).
  - exact Hok3.
  - change (prof_others_count (counted v h1 s1)) with (prof_others_count s1).
    by rewrite Eo.
  - change (prof_total_count (counted v h1 s1))
      with (ulong (prof_total_count s1 + 1)).
    f_equal. f_equal. unfold s1, inserted. by destruct (last c).
  - change (prof_free_list (counted v h1 s1)) with (prof_free_list s1).
    rewrite Ef. unfold sv'. by rewrite free_adjust_eq.
  - eexists. split.
    + apply lookup_imap_Some. eexists. split; [exact Hv1|done].
    + unfold upd. rewrite decide_True by done. unfold slot_data. simpl.
      by rewrite Eb1, Ec1, Eu1, ulong_1.
  - intros j sj Hj Hsj. eexists. split.
    + apply lookup_imap_Some. eexists. split; [|done].
      apply lookup_imap_Some. eexists. split; [|done].
      apply lookup_imap_Some. by exists sj.
    + unfold upd at 1. rewrite decide_False by done.
      destruct (link_adjust_data D bt v (last c) j (free_adjust v sv None j sj))
        as (Eu & Ec & Eb).
      rewrite decide_False in Eu by done. rewrite decide_False in Ec by done.
      rewrite decide_False in Eb by done.
      unfold slot_data. rewrite Eu, Ec, Eb. by rewrite free_adjust_ne.
Qed.

End EvictStep.

(** * The properties *)

Section PoolClaims.
Context `{LispHost}.

Lemma sum_used_nonneg (h : list prof_slot) :
  (forall i sl, h !! i = Some sl -> used sl = true -> (0 <= count sl)%Z) ->
  (0 <= sum_used h)%Z.
Proof.
  induction h as [|x h IH]; intros Hall; [done|].
  change (sum_used (x :: h)) with (slot_weight x + sum_used h)%Z.
  assert (0 <= slot_weight x)%Z.
  { unfold slot_weight. destruct (used x) eqn:E; [|done]. by apply (Hall 0 x). }
  assert (0 <= sum_used h)%Z; [|lia].
  apply IH. intros i sl Hi. by apply (Hall (S i)).
Qed.

Lemma reachable_pool_ok s h :
  reachable s -> prof_slot_heap s = Some h -> pool_ok s h.
Proof. intros Hr Hh. by apply reachable_wf. Qed.



End PoolClaims.


Section ControlClaims.
Context `{LispHost}.

Lemma NILP_Qnil : NILP Qnil = true.
Proof. unfold NILP, EQ. apply Z.eqb_refl. Qed.

(** [prof_backtrace_list] computes the prefix the specification
    describes. *)
Lemma prof_backtrace_list_from_spec k : forall n bt,
  prof_backtrace_list_from k n bt = spec_real_prefix (take k (drop n bt)).
Proof.
  induction k as [|k IH]; intros n bt; simpl; [done|].
  unfold aref. destruct (bt !! n) as [x|] eqn:Hn; simpl.
  - rewrite (drop_S bt x n Hn). simpl. destruct (NILP x); [done|].
    by rewrite IH.
  - rewrite NILP_Qnil. rewrite drop_ge; [done|]. by apply lookup_ge_None.
Qed.

Lemma prof_backtrace_list_spec D bt :
  prof_backtrace_list D bt 0 = spec_real_prefix (take D bt).
Proof.
  unfold prof_backtrace_list. rewrite prof_backtrace_list_from_spec.
  by rewrite Nat.sub_0_r, drop_0.
Qed.

Lemma prof_snapshot_slots_spec (h : list prof_slot) D slots0 k :
  k <= length h ->
  prof_snapshot_slots (Some h) D k slots0 =
  Some (rev (slot_entry D <$> filter (fun sl => used sl = true) (take k h)) ++ slots0).
Proof.
  induction k as [|k IH]; intros Hk; simpl; [done|].
  rewrite IH by lia. simpl.
  destruct (lookup_lt_is_Some_2 h k) as [sl Hsl]; [lia|].
  rewrite Hsl. simpl. rewrite (take_S_r h k sl Hsl), filter_app, fmap_app, rev_app_distr.
  rewrite filter_cons, filter_nil.
  destruct (used sl) eqn:Hu.
  - rewrite decide_True by done. simpl.
    unfold slot_entry. by rewrite prof_backtrace_list_spec.
  - rewrite decide_False by done. done.
Qed.

(** C2, as amended.  The entries sequence of the report ends with the
    one synthetic overflow entry (frames: the overflow marker alone;
    count: the overflow count, zero or not); before it comes one entry
    per slot in use, in the reverse of the order of the slot array,
    with the non-sentinel prefix of the backtrace of the slot as
    frames and its counter as count. *)
Theorem snapshot_overflow_entry_last now s h :
  prof_slot_heap s = Some h -> length h = prof_slot_heap_size s ->
  exists entries,
    entries =
      rev (slot_entry (prof_max_stack_depth s) <$>
             filter (fun sl => used sl = true) h) ++ [overflow_entry s] /\
    Fprofiler_take_snapshot now s =
      Some (snapshot_of now entries s, prof_unblock_signal (prof_block_signal s)) /\
    snapshot_entries (snapshot_of now entries s) = Some entries /\
    last entries = Some (overflow_entry s) /\
    forall sl,
      prof_backtrace_list (prof_max_stack_depth s) (backtrace sl) 0 =
      spec_real_prefix (take (prof_max_stack_depth s) (backtrace sl)).
Proof.
  intros Hh Hlen. eexists. split; [reflexivity|]. split_and!.
  - unfold Fprofiler_take_snapshot. simpl. rewrite Hh.
    rewrite prof_snapshot_slots_spec by lia.
    rewrite <- Hlen, firstn_all. done.
  - done.
  - by rewrite last_snoc.
  - intros sl. apply prof_backtrace_list_spec.
Qed.

(** C3, as amended.  [Fprofiler_start_sampling] returns, and returns
    [Qt], whenever the pool exists or can be allocated, whatever the
    outcome of [sigaction] and [setitimer]; by then it has allocated
    the pool if there was none and has recorded the mode, the start
    time and the interval; the handler and the timer are installed
    exactly when the respective system call succeeds. *)
Theorem start_sampling_returns_Qt i now mem a t s :
  is_Some (prof_slot_heap s) \/ 0 < uint (profiler_slot_heap_size s) ->
  exists s',
    Fprofiler_start_sampling i now mem a t s = Some (Qt, s') /\
    is_Some (prof_slot_heap s') /\
    prof_mode s' = intern "sample" /\ prof_start_time s' = now /\
    prof_sample_interval s' = i /\
    sigprof_action s' = (a || sigprof_action s) /\
    itimer_prof s' = (if t then (XINT i * 1000)%Z else itimer_prof s).
Proof.
  intros Hpool. unfold Fprofiler_start_sampling.
  assert (exists s1,
    (if prof_slot_heap s is Some _ then Some s else prof_init mem s) = Some s1 /\
    is_Some (prof_slot_heap s1) /\ sigprof_action s1 = sigprof_action s /\
    itimer_prof s1 = itimer_prof s) as (s1 & -> & Hh1 & Ha1 & Ht1).
  { destruct (prof_slot_heap s) as [h|] eqn:Hh.
    - exists s. rewrite Hh. split_and!; [done|by eexists|done|done].
    - destruct Hpool as [[? ?]|HN]; [done|].
      rewrite (prof_init_eq mem s HN). eexists. split_and!; [done|by eexists|done|done]. }
  simpl. eexists. split; [reflexivity|].
  destruct a, t; simpl; rewrite ?Ha1, ?Ht1; done.
Qed.

(** C7.  When the first frame token of the captured backtrace is the
    sentinel, lines 212-217 leave the whole state as it is, and the
    trigger as a whole changes nothing but the contents of its scratch
    buffer [prof_backtrace]: no slot, no link, no count and no total
    changes. *)
Theorem sentinel_sample_discarded s buf bl first :
  prof_backtrace s = Some buf -> length buf = prof_max_stack_depth s ->
  captured (prof_max_stack_depth s) bl !! 0 = Some first -> NILP first = true ->
  exists s',
    s' = set_backtrace (Some (captured (prof_max_stack_depth s) bl)) s /\
    prof_record_sample s' = Some s' /\
    prof_signal_handler bl s = Some s' /\
    prof_slot_heap s' = prof_slot_heap s /\
    prof_hash_table s' = prof_hash_table s /\
    prof_free_list s' = prof_free_list s /\
    prof_total_count s' = prof_total_count s /\
    prof_others_count s' = prof_others_count s.
Proof.
  intros Hbuf Hlen Hfirst Hnil. eexists. split; [reflexivity|].
  assert (prof_record_sample
            (set_backtrace (Some (captured (prof_max_stack_depth s) bl)) s) =
          Some (set_backtrace (Some (captured (prof_max_stack_depth s) bl)) s)) as Hrec.
  { unfold prof_record_sample. simpl. rewrite Hfirst. simpl. by rewrite Hnil. }
  split_and!; try done.
  by rewrite (prof_signal_handler_captured s buf bl Hbuf Hlen).
Qed.

(** C9.  [Fprofiler_stop_sampling] disarms the timer (when the system
    call succeeds) and changes nothing else; a snapshot taken after it
    is the one that would have been taken before it. *)
Theorem stop_sampling_only_disarms ok s now :
  itimer_prof (Fprofiler_stop_sampling ok s) = (if ok then 0%Z else itimer_prof s) /\
  Fprofiler_stop_sampling ok s =
    set_itimer (itimer_prof (Fprofiler_stop_sampling ok s)) s /\
  prof_mode (Fprofiler_stop_sampling ok s) = prof_mode s /\
  prof_start_time (Fprofiler_stop_sampling ok s) = prof_start_time s /\
  prof_sample_interval (Fprofiler_stop_sampling ok s) = prof_sample_interval s /\
  prof_slot_heap (Fprofiler_stop_sampling ok s) = prof_slot_heap s /\
  prof_hash_table (Fprofiler_stop_sampling ok s) = prof_hash_table s /\
  prof_free_list (Fprofiler_stop_sampling ok s) = prof_free_list s /\
  prof_total_count (Fprofiler_stop_sampling ok s) = prof_total_count s /\
  prof_others_count (Fprofiler_stop_sampling ok s) = prof_others_count s /\
  fst <$> Fprofiler_take_snapshot now (Fprofiler_stop_sampling ok s) =
  fst <$> Fprofiler_take_snapshot now s.
Proof.
  unfold Fprofiler_stop_sampling. destruct ok; simpl.
  - split_and!; try done.
    unfold Fprofiler_take_snapshot. simpl.
    by destruct (prof_snapshot_slots _ _ _ _).
  - split_and!; try done. by destruct s.
Qed.

(** C10.  In a reachable state with a pool, [Fprofiler_reset] frees
    the pool and the scratch buffer but leaves [prof_slot_heap_size],
    the timer and the signal action as they are; after it no slot can
    be read, [Fprofiler_take_snapshot] and the trigger have no result;
    and in general a slot can be read exactly when a pool is allocated
    and the index is within it. *)
Theorem reset_leaves_size_and_trigger s h now bl i :
  reachable s -> prof_slot_heap s = Some h ->
  prof_slot_heap (Fprofiler_reset s) = None /\
  prof_backtrace (Fprofiler_reset s) = None /\
  prof_slot_heap_size (Fprofiler_reset s) = prof_slot_heap_size s /\
  0 < prof_slot_heap_size (Fprofiler_reset s) /\
  itimer_prof (Fprofiler_reset s) = itimer_prof s /\
  sigprof_action (Fprofiler_reset s) = sigprof_action s /\
  slot_at (Fprofiler_reset s) i = None /\
  Fprofiler_take_snapshot now (Fprofiler_reset s) = None /\
  prof_signal_handler bl (Fprofiler_reset s) = None /\
  (forall s0 j, is_Some (slot_at s0 j) <->
                exists h0, prof_slot_heap s0 = Some h0 /\ j < length h0).
Proof.
  intros Hr Hh. pose proof (reachable_wf s Hr h Hh) as Hok.
  pose proof (pool_size _ _ Hok) as Hsize. pose proof (pool_pos _ _ Hok) as Hpos.
  unfold Fprofiler_reset, prof_block_signal, prof_unblock_signal. simpl.
  rewrite Hh. simpl. split_and!; try done.
  - lia.
  - unfold Fprofiler_take_snapshot. simpl.
    destruct (prof_slot_heap_size s) as [|n] eqn:E; [lia|]. simpl.
    by destruct (prof_snapshot_slots None _ n _).
  - intros s0 j. unfold slot_at. destruct (prof_slot_heap s0) as [h0|]; simpl.
    + rewrite lookup_lt_is_Some. split; [by exists h0|].
      by intros (h1 & [= <-] & ?).
    + split; [by intros [? ?]|by intros (? & ? & _)].
Qed.

End ControlClaims.

Section FillClaims.
Context `{LispHost}.

Lemma ulong_idem z : ulong (ulong z) = ulong z.
Proof. apply ulong_small, ulong_range. Qed.

(** C6.  From the empty pool [prof_init] builds, with capacity [N]:
    after samples with exactly [N] distinct backtraces (each possibly
    sampled several times) nothing has been evicted - the overflow
    count is zero, the free list is empty, and slot [i] holds the
    [i]-th distinct backtrace with the number of its samples as count;
    one sample of a further backtrace then evicts one slot, the first
    one in the order of the array among those of minimal count: the
    overflow count becomes the count that slot had, the slot now holds
    the new backtrace with count 1, and no other slot changes its
    backtrace, count or use. *)
Theorem fill_then_evict_first_minimum mem s0 bls bl :
  let D := uint (profiler_max_stack_depth s0) in
  let N := uint (profiler_slot_heap_size s0) in
  let keys := captured D <$> bls in
  0 < D -> 0 < N ->
  Forall (fun bl0 => NILP (aref (captured D bl0) 0) = false) bls ->
  length (keys_of keys) = N ->
  captured D bl ∉ keys -> NILP (aref (captured D bl) 0) = false ->
  exists s1 h1 v sv s2 h2,
    signals bls (initialized mem s0) = Some s1 /\
    prof_slot_heap s1 = Some h1 /\ length h1 = N /\
    prof_others_count s1 = 0%Z /\ prof_free_list s1 = None /\
    (forall i k, keys_of keys !! i = Some k ->
       exists sl, h1 !! i = Some sl /\
         slot_data sl = (k, ulong (Z.of_nat (occurrences k keys)), true)) /\
    first_min h1 v sv /\
    prof_signal_handler bl s1 = Some s2 /\ prof_slot_heap s2 = Some h2 /\
    prof_others_count s2 = count sv /\
    (exists sv', h2 !! v = Some sv' /\ slot_data sv' = (captured D bl, 1%Z, true)) /\
    (forall j sj, j <> v -> h1 !! j = Some sj ->
       exists sj', h2 !! j = Some sj' /\ slot_data sj' = slot_data sj).
Proof.
  intros D N keys HD HN Hnil Hfull Hnew Hnil'.
  pose proof (fill_init mem s0 HN) as Hfill0. fold D N in Hfill0.
  destruct (fill_signals bls (initialized mem s0) (init_heap mem D N) [] [] Hfill0)
    as (s1 & h1 & Hs1 & Hfill1 & HD1 & Hlen1); try done.
  { change (prof_max_stack_depth (initialized mem s0)) with D.
    fold keys. fold (keys_of keys). rewrite init_heap_length. lia. }
  change (prof_max_stack_depth (initialized mem s0)) with D in Hfill1, HD1.
  fold keys in Hfill1. fold (keys_of keys) in Hfill1.
  rewrite init_heap_length in Hlen1. simpl in Hfill1.
  pose proof (fill_pool _ _ _ _ Hfill1) as Hok1.
  pose proof (fill_free _ _ _ _ Hfill1) as Hf1.
  rewrite decide_False in Hf1 by lia.
  assert (forall j sj, h1 !! j = Some sj ->
    exists k, keys_of keys !! j = Some k /\ k ∈ keys /\
      slot_data sj = (k, ulong (Z.of_nat (occurrences k keys)), true)) as Hslots.
  { intros j sj Hj. pose proof (lookup_lt_Some _ _ _ Hj) as Hlt.
    destruct (lookup_lt_is_Some_2 (keys_of keys) j) as [k Hk]; [lia|].
    destruct (fill_used _ _ _ _ Hfill1 j k Hk) as (sl & _ & _ & Hsl & Hu & Hb & Hc & _).
    assert (sl = sj) as -> by congruence.
    exists k. split_and!; [done| |].
    - apply (fill_seen _ _ _ _ Hfill1). by eapply list_elem_of_lookup_2.
    - unfold slot_data. by rewrite Hb, Hc, Hu. }
  set (bt := captured D bl) in *.
  pose proof (captured_length D bl) as Hbt. fold bt in Hbt.
  destruct (lookup_lt_is_Some_2 bt 0) as [first Hfirst]; [lia|].
  assert (NILP first = false) as Hnil1.
  { unfold aref in Hnil'. by rewrite Hfirst in Hnil'. }
  destruct (sample_evict s1 h1 bt first Hok1 Hf1) as
    (v & sv & s2 & h2 & Hfm & Hu & _ & Hrec & Hok2 & Ho2 & _ & _ & Hv2 & Hrest);
    try done.
  { by rewrite HD1. }
  { intros j sj Hj E. destruct (Hslots j sj Hj) as (k & _ & Hk & Hd).
    unfold slot_data in Hd. injection Hd as Hb _ _. congruence. }
  exists s1, h1, v, sv, s2, h2. split_and!; try done.
  - apply (pool_heap _ _ Hok1).
  - apply (fill_others _ _ _ _ Hfill1).
  - intros i k Hk. destruct (lookup_lt_is_Some_2 h1 i) as [sl Hsl].
    { apply lookup_lt_Some in Hk. lia. }
    destruct (Hslots i sl Hsl) as (k' & Hk' & _ & Hd).
    exists sl. split; [done|]. congruence.
  - destruct (pool_scratch _ _ Hok1) as (buf & Hbuf & Hblen).
    rewrite (prof_signal_handler_captured s1 buf bl Hbuf Hblen), HD1. exact Hrec.
  - apply (pool_heap _ _ Hok2).
  - rewrite Ho2, (fill_others _ _ _ _ Hfill1). simpl.
    destruct Hfm as (Hv & _). destruct (Hslots v sv Hv) as (k & _ & _ & Hd).
    unfold slot_data in Hd. injection Hd as _ Hc _. rewrite Hc. apply ulong_idem.
Qed.

End FillClaims.

(** * Further properties of profiler.c *)

(** ** What the slot functions and the trigger leave alone *)

Section Frame.
Context `{LispHost}.

Lemma same_frame_refl s : same_frame s s.
Proof. by unfold same_frame. Qed.

Lemma same_frame_trans s1 s2 s3 :
  same_frame s1 s2 -> same_frame s2 s3 -> same_frame s1 s3.
Proof.
  intros (A1 & A2 & A3 & A4 & A5) (B1 & B2 & B3 & B4 & B5).
  unfold same_frame. split_and!; congruence.
Qed.

Lemma update_slot_frame i f s s' : update_slot i f s = Some s' -> same_frame s s'.
Proof.
  unfold update_slot. intros Hs.
  apply bind_Some in Hs as (h & Hh & Hs). apply bind_Some in Hs as (sl & Hsl & Hs).
  injection Hs as <-. unfold same_frame. simpl. split_and!; try done.
  rewrite Hh. simpl. by rewrite length_insert.
Qed.

Lemma set_hash_table_frame idx v s :
  same_frame s (set_hash_table (<[idx := v]> (prof_hash_table s)) s).
Proof. unfold same_frame. simpl. split_and!; try done. by rewrite length_insert. Qed.

Lemma set_free_list_frame p s : same_frame s (set_free_list p s).
Proof. by unfold same_frame. Qed.

Lemma set_others_count_frame c s : same_frame s (set_others_count c s).
Proof. by unfold same_frame. Qed.

Lemma prof_unlink_slot_frame i s s' : prof_unlink_slot i s = Some s' -> same_frame s s'.
Proof.
  unfold prof_unlink_slot. intros Hs.
  apply bind_Some in Hs as (sl & _ & Hs). apply bind_Some in Hs as (s1 & H1 & Hs).
  apply bind_Some in Hs as (sl1 & _ & Hs).
  assert (same_frame s s1) as F1.
  { destruct (prev sl).
    - by eapply update_slot_frame.
    - injection H1 as <-. apply set_hash_table_frame. }
  apply (same_frame_trans _ _ _ F1).
  destruct (next sl1).
  - by eapply update_slot_frame.
  - injection Hs as <-. apply same_frame_refl.
Qed.

Lemma prof_free_slot_frame i s s' : prof_free_slot i s = Some s' -> same_frame s s'.
Proof.
  unfold prof_free_slot. intros Hs.
  apply bind_Some in Hs as (sl & _ & Hs). destruct (used sl); [|done].
  apply bind_Some in Hs as (s1 & H1 & Hs). apply bind_Some in Hs as (s2 & H2 & Hs).
  apply bind_Some in Hs as (s3 & H3 & Hs). injection Hs as <-.
  apply (same_frame_trans _ s1); [by eapply prof_unlink_slot_frame|].
  apply (same_frame_trans _ s2); [by eapply update_slot_frame|].
  apply (same_frame_trans _ s3); [by eapply update_slot_frame|].
  apply set_free_list_frame.
Qed.

Lemma prof_evict_slot_frame i s s' : prof_evict_slot i s = Some s' -> same_frame s s'.
Proof.
  unfold prof_evict_slot. intros Hs.
  apply bind_Some in Hs as (sl & _ & Hs).
  apply (same_frame_trans _ (set_others_count (ulong (prof_others_count s + count sl)) s)).
  - apply set_others_count_frame.
  - by eapply prof_free_slot_frame.
Qed.

Lemma prof_evict_min_slot_frame s s' : prof_evict_min_slot s = Some s' -> same_frame s s'.
Proof.
  unfold prof_evict_min_slot. intros Hs.
  apply bind_Some in Hs as (h & _ & Hs). apply bind_Some in Hs as (m & _ & Hs).
  apply bind_Some in Hs as (slot & _ & Hs). by eapply prof_evict_slot_frame.
Qed.

Lemma prof_allocate_slot_frame s i s' :
  prof_allocate_slot s = Some (i, s') -> same_frame s s'.
Proof.
  unfold prof_allocate_slot. intros Hs.
  apply bind_Some in Hs as (s1 & H1 & Hs). apply bind_Some in Hs as (slot & _ & Hs).
  apply bind_Some in Hs as (s2 & H2 & Hs). apply bind_Some in Hs as (fl & _ & Hs).
  apply bind_Some in Hs as (sl & _ & Hs). injection Hs as _ <-.
  assert (same_frame s s1) as F1.
  { destruct (prof_free_list s).
    - injection H1 as <-. apply same_frame_refl.
    - apply bind_Some in H1 as (s0 & H0 & H1).
      destruct (prof_free_list s0); [|done]. injection H1 as <-.
      by eapply prof_evict_min_slot_frame. }
  apply (same_frame_trans _ _ _ F1).
  apply (same_frame_trans _ s2); [by eapply update_slot_frame|].
  apply set_free_list_frame.
Qed.

Lemma prof_make_slot_frame bt s i s' :
  prof_make_slot bt s = Some (i, s') -> same_frame s s'.
Proof.
  unfold prof_make_slot. intros Hs.
  apply bind_Some in Hs as ([slot s1] & H1 & Hs). simpl in Hs.
  apply bind_Some in Hs as (s2 & H2 & Hs). apply bind_Some in Hs as (s3 & H3 & Hs).
  apply bind_Some in Hs as (s4 & H4 & Hs). apply bind_Some in Hs as (s5 & H5 & Hs).
  injection Hs as _ <-.
  apply (same_frame_trans _ s1); [by eapply prof_allocate_slot_frame|].
  apply (same_frame_trans _ s2); [by eapply update_slot_frame|].
  apply (same_frame_trans _ s3); [by eapply update_slot_frame|].
  apply (same_frame_trans _ s4); by eapply update_slot_frame.
Qed.

Lemma prof_ensure_slot_frame bt s i s' :
  prof_ensure_slot bt s = Some (i, s') -> same_frame s s'.
Proof.
  unfold prof_ensure_slot. intros Hs.
  apply bind_Some in Hs as (head & _ & Hs). apply bind_Some in Hs as (h & _ & Hs).
  apply bind_Some in Hs as ([found prev0] & _ & Hs). simpl in Hs.
  destruct found.
  - injection Hs as _ <-. apply same_frame_refl.
  - apply bind_Some in Hs as ([slot s1] & H1 & Hs). simpl in Hs.
    apply (same_frame_trans _ s1); [by eapply prof_make_slot_frame|].
    destruct prev0.
    + apply bind_Some in Hs as (s2 & H2 & Hs). apply bind_Some in Hs as (s3 & H3 & Hs).
      injection Hs as _ <-.
      apply (same_frame_trans _ s2); by eapply update_slot_frame.
    + injection Hs as _ <-. apply set_hash_table_frame.
Qed.

End Frame.

(** ** The three ways of [prof_ensure_slot] *)

Section Cases.
Context `{LispHost}.

Ltac same_slot :=
  repeat match goal with
  | H1 : ?h !! ?x = Some ?a, H2 : ?h !! ?x = Some ?b |- _ =>
      assert (b = a) as -> by congruence; clear H2
  end.

(** The chain of a bucket, in a pool that satisfies the invariant. *)
Lemma chain_slots s h b p c :
  pool_ok s h -> prof_hash_table s !! b = Some p -> next_path h p c ->
  length c <= length h /\
  forall j, j ∈ c ->
    exists sj, h !! j = Some sj /\ used sj = true /\
               bucket_of (prof_max_stack_depth s) sj = b.
Proof.
  intros Hok Ht Hp.
  destruct (bucket_chain _ _ _ _ _ (pool_links _ _ Hok) Ht) as (c' & Hp' & Hlen & Hall).
  by rewrite (next_path_det _ _ _ _ Hp Hp').
Qed.

Lemma bucket_lookup s h bt :
  pool_ok s h ->
  exists p c,
    prof_hash_table s !! prof_backtrace_index (prof_max_stack_depth s) bt = Some p /\
    next_path h p c.
Proof.
  intros Hok.
  destruct (lookup_lt_is_Some_2 (prof_hash_table s)
              (prof_backtrace_index (prof_max_stack_depth s) bt)) as [p Ht].
  { rewrite (pool_table _ _ Hok). apply prof_backtrace_index_lt. }
  destruct (bucket_chain _ _ _ _ _ (pool_links _ _ Hok) Ht) as (c & Hp & _).
  by exists p, c.
Qed.

Lemma prof_ensure_slot_cases s h bt p c :
  pool_ok s h -> length bt = prof_max_stack_depth s ->
  prof_hash_table s !! prof_backtrace_index (prof_max_stack_depth s) bt = Some p ->
  next_path h p c ->
  (exists c1 j sj c2,
     c = c1 ++ j :: c2 /\ h !! j = Some sj /\ used sj = true /\ backtrace sj = bt /\
     (forall k sk, k ∈ c1 -> h !! k = Some sk -> backtrace sk <> bt) /\
     prof_ensure_slot bt s = Some (j, s)) \/
  ((forall k sk, k ∈ c -> h !! k = Some sk -> backtrace sk <> bt) /\
   ((exists i si,
       prof_free_list s = Some i /\ h !! i = Some si /\ used si = false /\
       prof_ensure_slot bt s = Some (i, inserted bt i si (last c) h s) /\
       pool_ok (inserted bt i si (last c) h s)
         (imap (link_adjust (prof_max_stack_depth s) bt i (last c)) h)) \/
    (prof_free_list s = None /\
     exists v sv,
       first_min h v sv /\ used sv = true /\
       prof_evict_min_slot s = Some (evicted v sv h s) /\
       prof_ensure_slot bt s =
         Some (v, inserted bt v (free_adjust v sv None v sv) (last c)
                    (imap (free_adjust v sv None) h) (evicted v sv h s)) /\
       pool_ok (evicted v sv h s) (imap (free_adjust v sv None) h) /\
       pool_ok (inserted bt v (free_adjust v sv None v sv) (last c)
                  (imap (free_adjust v sv None) h) (evicted v sv h s))
         (imap (link_adjust (prof_max_stack_depth s) bt v (last c))
            (imap (free_adjust v sv None) h))))).
Proof.
  intros Hok Hbt Ht Hp.
  pose proof (pool_links _ _ Hok) as Hlk.
  pose proof (pool_heap _ _ Hok) as Hheap.
  destruct (chain_slots s h _ p c Hok Ht Hp) as (Hlen & Hall).
  assert (forall k sk, h !! k = Some sk ->
    prof_backtrace_equal (prof_max_stack_depth s) bt (backtrace sk) = true <->
    backtrace sk = bt) as Heq.
  { intros k sk Hk. rewrite prof_backtrace_equal_iff; [|done|].
    - split; congruence.
    - by apply (pool_buffers _ _ Hok k). }
  destruct (chain_hit_or_miss h (prof_max_stack_depth s) bt c)
    as [(c1 & j & sj & c2 & -> & Hj & Hhit & Hmiss)|Hmiss].
  { intros k Hk. destruct (Hall k Hk) as (sk & ? & _). by eexists. }
  - left. exists c1, j, sj, c2. split_and!; try done.
    + destruct (Hall j) as (sj' & Hj' & Hu & _).
      { apply elem_of_app. right. by left. }
      by same_slot.
    + by apply (Heq j).
    + intros k sk Hk Hsk E. apply (Heq k sk Hsk) in E.
      by rewrite (Hmiss k sk Hk Hsk) in E.
    + by eapply prof_ensure_slot_hit.
  - right. split.
    { intros k sk Hk Hsk E. apply (Heq k sk Hsk) in E.
      by rewrite (Hmiss k sk Hk Hsk) in E. }
    pose proof (chain_tail _ _ _ _ _ _ Ht Hp Hall) as Htail.
    destruct (prof_free_list s) as [i|] eqn:Hf.
    + left. destruct (free_head_lookup h i) as (si & Hi & Hu).
      { rewrite <- Hf. apply Hok. }
      destruct (inserted_ok s h i si bt (last c) Hok Hf Hi Hbt) as [_ Hok'].
      { by apply tail_ok_here. }
      exists i, si. split_and!; try done.
      by eapply prof_ensure_slot_new.
    + right. split; [done|].
      destruct (prof_evict_min_slot_ok s h Hok Hf)
        as (v & sv & Hfm & Huv & _ & He & Hok1).
      pose proof Hfm as (Hv & _).
      assert (imap (free_adjust v sv None) h !! v =
              Some (free_adjust v sv None v sv)) as Hv'.
      { apply lookup_imap_Some. by exists sv. }
      destruct (inserted_ok (evicted v sv h s) _ v _ bt (last c) Hok1 eq_refl Hv' Hbt)
        as [_ Hok'].
      { simpl. by apply tail_ok_evicted. }
      exists v, sv. split_and!; try done.
      by eapply prof_ensure_slot_evict.
Qed.

End Cases.

(** ** Hashing and comparing backtraces *)

Section Canonical.
Context `{LispHost}.

Lemma prof_backtrace_hash_from_ext k : forall i a b hash,
  (forall j, i <= j < i + k -> aref a j = aref b j) ->
  prof_backtrace_hash_from k i a hash = prof_backtrace_hash_from k i b hash.
Proof.
  induction k as [|k IH]; intros i a b hash Hab; simpl; [done|].
  rewrite (Hab i) by lia. apply IH. intros j Hj. apply Hab. lia.
Qed.

Lemma aref_take D (a : list Lisp_Object) j : j < D -> aref (take D a) j = aref a j.
Proof. intros Hj. unfold aref. by rewrite lookup_take_lt. Qed.

(** X1.  Two backtraces that [prof_backtrace_equal] accepts have the
    same hash and fall into the same bucket, whatever the host's
    [SXHASH_COMBINE] and [XUINT] are; and the bucket index is always
    within the hash table. *)
Theorem equal_backtraces_same_bucket D a b :
  prof_backtrace_equal D a b = true ->
  prof_backtrace_hash D a = prof_backtrace_hash D b /\
  prof_backtrace_index D a = prof_backtrace_index D b /\
  prof_backtrace_index D a < PROF_HASH_TABLE_SIZE.
Proof.
  intros Heq. unfold prof_backtrace_equal in Heq.
  pose proof (proj1 (prof_backtrace_equal_from_spec D 0 a b) Heq) as Hab.
  assert (prof_backtrace_hash D a = prof_backtrace_hash D b) as Hh.
  { apply prof_backtrace_hash_from_ext. intros j Hj. apply Hab. lia. }
  split_and!; [done| |apply prof_backtrace_index_lt].
  unfold prof_backtrace_index. by rewrite Hh.
Qed.

(** X2.  [prof_backtrace_equal] compares exactly the first
    [prof_max_stack_depth] positions, sentinel padding included, and
    nothing beyond them; it is reflexive, symmetric and transitive;
    and on buffers of that length it answers whether the two
    backtraces are the same. *)
Theorem prof_backtrace_equal_first_positions D a b :
  (prof_backtrace_equal D a b = true <-> forall j, j < D -> aref a j = aref b j) /\
  prof_backtrace_equal D a b = prof_backtrace_equal D (take D a) (take D b) /\
  prof_backtrace_equal D a a = true /\
  prof_backtrace_equal D a b = prof_backtrace_equal D b a /\
  (forall c, prof_backtrace_equal D a b = true ->
             prof_backtrace_equal D b c = true ->
             prof_backtrace_equal D a c = true) /\
  (length a = D -> length b = D ->
   (prof_backtrace_equal D a b = true <-> a = b)).
Proof.
  assert (forall x y, prof_backtrace_equal D x y = true <->
                      forall j, j < D -> aref x j = aref y j) as Hspec.
  { intros x y. unfold prof_backtrace_equal.
    rewrite prof_backtrace_equal_from_spec. split; intros Hxy j Hj; apply Hxy; lia. }
  assert (forall x y x' y',
    (prof_backtrace_equal D x y = true <-> prof_backtrace_equal D x' y' = true) ->
    prof_backtrace_equal D x y = prof_backtrace_equal D x' y') as Hbool.
  { intros x y x' y' Hiff.
    destruct (prof_backtrace_equal D x y), (prof_backtrace_equal D x' y');
      try done; [symmetry|]; by apply Hiff. }
  split_and!.
  - apply Hspec.
  - apply Hbool. rewrite !Hspec. split; intros Hab j Hj.
    + rewrite !aref_take by done. by apply Hab.
    + specialize (Hab j Hj). by rewrite !aref_take in Hab.
  - by apply Hspec.
  - apply Hbool. rewrite !Hspec. split; intros Hab j Hj; symmetry; by apply Hab.
  - intros c Hab Hbc. apply Hspec. intros j Hj.
    rewrite (proj1 (Hspec a b) Hab j Hj). by apply (proj1 (Hspec b c) Hbc).
  - apply prof_backtrace_equal_iff.
Qed.

End Canonical.

(** ** Chains and the free list *)

Section Lists.
Context `{LispHost}.

Ltac same_slot :=
  repeat match goal with
  | H1 : ?h !! ?x = Some ?a, H2 : ?h !! ?x = Some ?b |- _ =>
      assert (b = a) as -> by congruence; clear H2
  end.

Lemma next_path_cons_inv (h : list prof_slot) p i l :
  next_path h p (i :: l) ->
  p = Some i /\ exists si, h !! i = Some si /\ next_path h (next si) l.
Proof. intros Hp. inversion Hp; subst. split; [done|]. by eexists. Qed.

Lemma next_path_cons_inv' (h : list prof_slot) i c :
  next_path h (Some i) c -> exists l, c = i :: l.
Proof. intros Hp. inversion Hp; subst. by eexists. Qed.

(** A path on which slot [z] is made to point past its successor. *)
Lemma next_path_skip (h h' : list prof_slot) c1 : forall p z i c2 sz' si,
  next_path h p (c1 ++ z :: i :: c2) ->
  NoDup (c1 ++ z :: i :: c2) ->
  h !! i = Some si ->
  h' !! z = Some sz' -> next sz' = next si ->
  (forall j, j <> z -> j <> i -> next <$> h' !! j = next <$> h !! j) ->
  next_path h' p (c1 ++ z :: c2).
Proof.
  induction c1 as [|x c1 IH]; intros p z i c2 sz' si Hp Hnd Hi Hz Hn Hsame; simpl in *.
  - inversion Hp as [|z0 sz l Hz0 Hp1]; subst.
    inversion Hp1 as [|i0 si0 l Hi0 Hp2 E]; subst. same_slot.
    apply (next_path_cons h' z sz'); [done|]. rewrite Hn.
    apply (next_path_ext h); [|done].
    intros j Hj. apply Hsame.
    + apply NoDup_cons in Hnd as [Hnz _]. intros ->. apply Hnz. by right.
    + apply NoDup_cons in Hnd as [_ Hnd]. apply NoDup_cons in Hnd as [Hni _].
      by intros ->.
  - inversion Hp as [|x0 sx l Hx Hp1]; subst.
    apply NoDup_cons in Hnd as [Hnx Hnd].
    assert (next <$> h' !! x = next <$> h !! x) as Ex.
    { apply Hsame; intros ->; apply Hnx, elem_of_app; right; [by left|].
      right. by left. }
    rewrite Hx in Ex. simpl in Ex.
    destruct (h' !! x) as [sx'|] eqn:Hx'; [|done]. simpl in Ex. injection Ex as Ex.
    apply (next_path_cons h' x sx'); [done|]. rewrite Ex.
    by apply (IH _ z i c2 sz' si).
Qed.

Lemma unlink_adjust_self si i : unlink_adjust si i si = si.
Proof.
  destruct si as [n p b c u]. unfold unlink_adjust. simpl.
  f_equal; by case_decide.
Qed.

Lemma unlink_adjust_next si (h : list prof_slot) j :
  prev si <> Some j ->
  next <$> imap (unlink_adjust si) h !! j = next <$> h !! j.
Proof.
  intros Hne. rewrite list_lookup_imap. destruct (h !! j) as [sj|]; [|done].
  simpl. by rewrite decide_False.
Qed.

(** A slot of the free list is nobody's predecessor. *)
Lemma free_not_prev s h l i si j :
  pool_ok s h -> next_path h (prof_free_list s) l -> j ∈ l ->
  h !! i = Some si -> used si = true -> prev si <> Some j.
Proof.
  intros Hok Hl Hj Hi Hu E.
  destruct (pool_free _ _ Hok) as (l' & Hl' & _ & Hmem).
  rewrite (next_path_det _ _ _ _ Hl' Hl) in Hmem.
  destruct (lk_prev _ _ _ (pool_links _ _ Hok) i si j Hi Hu E) as (sj & Hsj & Huj & _).
  apply (Hmem j sj Hsj) in Hj. congruence.
Qed.

Lemma next_path_successor (h : list prof_slot) p c j sj x :
  next_path h p c -> j ∈ c -> h !! j = Some sj -> next sj = Some x -> x ∈ c.
Proof.
  intros Hp Hj Hsj Hn. apply list_elem_of_split in Hj as (c1 & c2 & ->).
  pose proof (next_path_suffix h p _ c1 j c2 Hp eq_refl) as Hs.
  apply next_path_cons_inv in Hs as (_ & sj' & Hsj' & Hs). same_slot.
  rewrite Hn in Hs. destruct c2 as [|y c2]; [by inversion Hs|].
  apply next_path_cons_inv in Hs as (E & _). injection E as <-.
  apply elem_of_app. right. right. by left.
Qed.

(** The chain of a bucket after one of its slots was unlinked. *)
Lemma unlink_adjust_chain s h i si b p c1 c2 :
  pool_ok s h -> h !! i = Some si ->
  prof_hash_table s !! b = Some p -> next_path h p (c1 ++ i :: c2) ->
  exists p',
    unlink_table (prof_max_stack_depth s) si (prof_hash_table s) !! b = Some p' /\
    next_path (imap (unlink_adjust si) h) p' (c1 ++ c2).
Proof.
  intros Hok Hi Ht Hp. pose proof (pool_links _ _ Hok) as Hlk.
  destruct (chain_slots s h b p _ Hok Ht Hp) as (_ & Hall).
  pose proof (next_path_NoDup _ _ _ Hp) as Hnd.
  destruct (Hall i) as (si' & Hi' & Hu & Hb).
  { apply elem_of_app. right. by left. }
  same_slot.
  set (D := prof_max_stack_depth s) in *.
  set (h' := imap (unlink_adjust si) h).
  destruct c1 as [|z c1 _] using rev_ind.
  - simpl in *.
    apply next_path_cons_inv in Hp as (-> & si0 & Hi0 & Hp1). same_slot.
    destruct (lk_head _ _ _ Hlk b i Ht) as (sx & Hx & _ & Hprev & _). same_slot.
    exists (next si). split.
    + unfold unlink_table. rewrite Hprev. fold (bucket_of D si). rewrite Hb.
      apply list_lookup_insert_eq. by eapply lookup_lt_Some.
    + apply (next_path_ext h); [|done]. intros j _.
      apply unlink_adjust_next. by rewrite Hprev.
  - rewrite <- app_assoc in Hp, Hnd. simpl in Hp, Hnd.
    destruct (Hall z) as (sz & Hz & Huz & _).
    { apply elem_of_app. left. apply elem_of_app. right. by left. }
    assert (next sz = Some i) as Hnz.
    { pose proof (next_path_suffix h p _ c1 z (i :: c2) Hp eq_refl) as Hs.
      apply next_path_cons_inv in Hs as (_ & sz0 & Hz0 & Hp1). same_slot.
      by apply next_path_cons_inv in Hp1 as (? & _). }
    destruct (lk_next _ _ _ Hlk z sz i Hz Huz Hnz) as (sx & Hx & _ & Hprev & _).
    same_slot. exists p. split.
    + unfold unlink_table. by rewrite Hprev.
    + rewrite <- app_assoc. simpl.
      apply (next_path_skip h h' c1 p z i c2 (unlink_adjust si z sz) si);
        try done.
      * apply lookup_imap_Some. by exists sz.
      * simpl. by rewrite decide_True.
      * intros j Hjz _. apply unlink_adjust_next. rewrite Hprev. congruence.
Qed.

(** A chain the unlinked slot is not on. *)
Lemma unlink_adjust_other_chain s h i si b p c :
  pool_ok s h -> h !! i = Some si -> used si = true ->
  prof_hash_table s !! b = Some p -> next_path h p c -> i ∉ c ->
  unlink_table (prof_max_stack_depth s) si (prof_hash_table s) !! b = Some p /\
  next_path (imap (unlink_adjust si) h) p c.
Proof.
  intros Hok Hi Hu Ht Hp Hic. pose proof (pool_links _ _ Hok) as Hlk.
  destruct (chain_slots s h b p c Hok Ht Hp) as (_ & Hall). split.
  - unfold unlink_table. destruct (prev si) eqn:Hprev; [done|].
    rewrite list_lookup_insert_ne; [done|]. intros Hb.
    pose proof (lk_first _ _ _ Hlk i si Hi Hu Hprev) as Hhead.
    unfold bucket_of in Hhead. rewrite Hb, Ht in Hhead. injection Hhead as ->.
    apply Hic. apply next_path_cons_inv' in Hp as (l & ->). by left.
  - apply (next_path_ext h); [|done]. intros j Hj.
    apply unlink_adjust_next. intros E.
    destruct (lk_prev _ _ _ Hlk i si j Hi Hu E) as (sj & Hsj & _ & Hnx).
    apply Hic. by apply (next_path_successor h p c j sj i).
Qed.


Lemma free_adjust_next (h : list prof_slot) i si fl j :
  j <> i -> prev si <> Some j ->
  next <$> imap (free_adjust i si fl) h !! j = next <$> h !! j.
Proof.
  intros Hji Hne. rewrite list_lookup_imap. destruct (h !! j) as [sj|]; [|done].
  simpl. rewrite free_adjust_ne by done. simpl. by rewrite decide_False.
Qed.

Lemma free_adjust_data i si fl j sj :
  j <> i -> slot_data (free_adjust i si fl j sj) = slot_data sj.
Proof. intros Hji. by rewrite free_adjust_ne. Qed.

(** The free list after [prof_free_slot]. *)
Lemma free_adjust_path s h i si l :
  pool_ok s h -> h !! i = Some si -> used si = true ->
  next_path h (prof_free_list s) l ->
  next_path (imap (free_adjust i si (prof_free_list s)) h) (Some i) (i :: l).
Proof.
  intros Hok Hi Hu Hl.
  apply (next_path_cons _ i (free_adjust i si (prof_free_list s) i si)).
  { apply lookup_imap_Some. by exists si. }
  rewrite free_adjust_eq. simpl.
  apply (next_path_ext h); [|done]. intros j Hj.
  apply free_adjust_next; [|by eapply free_not_prev].
  intros ->.
  destruct (pool_free _ _ Hok) as (l' & Hl' & _ & Hmem).
  rewrite (next_path_det _ _ _ _ Hl' Hl) in Hmem.
  apply (Hmem i si Hi) in Hj. congruence.
Qed.


(** X5.  The free list is a stack: in a state the program can reach,
    [prof_allocate_slot] called right after [prof_free_slot] returns
    the slot that was just freed, marks it used again and leaves the
    free list as it was before the two calls; no slot loses its
    backtrace or its count and nothing is evicted. *)
Theorem free_then_allocate_returns_same_slot s h i si :
  reachable s -> prof_slot_heap s = Some h -> h !! i = Some si ->
  used si = true ->
  exists s1 s2 h2,
    prof_free_slot i s = Some s1 /\ prof_allocate_slot s1 = Some (i, s2) /\
    prof_slot_heap s2 = Some h2 /\
    prof_free_list s2 = prof_free_list s /\
    prof_others_count s2 = prof_others_count s /\
    (forall j sj, h !! j = Some sj ->
       exists sj', h2 !! j = Some sj' /\ slot_data sj' = slot_data sj).
Proof.
  intros Hr Hh Hi Hu. pose proof (reachable_pool_ok s h Hr Hh) as Hok.
  rewrite (prof_free_slot_eq s h i si Hh Hi Hu).
  2:{ intros q Hq. by eapply links_prev_lt; [apply Hok|..]. }
  2:{ intros q Hq. by eapply links_next_lt; [apply Hok|..]. }
  set (fl := prof_free_list s).
  set (h1 := imap (free_adjust i si fl) h).
  assert (h1 !! i = Some (free_adjust i si fl i si)) as Hi1.
  { apply lookup_imap_Some. by exists si. }
  eexists _, _, _. split; [done|]. split.
  { by apply (prof_allocate_slot_eq _ h1 i (free_adjust i si fl i si)). }
  split_and!; try done.
  - simpl. by rewrite free_adjust_eq.
  - intros j sj Hj. destruct (decide (j = i)) as [->|Hji].
    + same_slot. eexists. split.
      * apply list_lookup_insert_eq. by eapply lookup_lt_Some.
      * rewrite free_adjust_eq. unfold slot_data. simpl. by rewrite Hu.
    + eexists. split.
      * rewrite list_lookup_insert_ne by done. apply lookup_imap_Some. by exists sj.
      * by apply free_adjust_data.
Qed.

End Lists.

(** ** The choice of the slot to evict *)

Section Evict.
Context `{LispHost}.

Ltac same_slot :=
  repeat match goal with
  | H1 : ?h !! ?x = Some ?a, H2 : ?h !! ?x = Some ?b |- _ =>
      assert (b = a) as -> by congruence; clear H2
  end.

Lemma prof_evict_min_scan_seed (h : list prof_slot) k :
  0 < k <= length h ->
  exists m sm s0,
    prof_evict_min_scan h k = Some (Some m) /\ m < k /\
    h !! m = Some sm /\ h !! 0 = Some s0 /\
    (m = 0 \/ used sm = true) /\
    (count sm <= count s0)%Z /\
    (m <> 0 -> (count sm < count s0)%Z) /\
    (forall j sj, j < k -> h !! j = Some sj -> used sj = true ->
       (count sm <= count sj)%Z) /\
    (forall j sj, j < m -> h !! j = Some sj -> used sj = true ->
       (count sm < count sj)%Z).
Proof.
  induction k as [|k IH]; [lia|]. intros [_ Hk].
  destruct (lookup_lt_is_Some_2 h k) as [sk Hsk]; [lia|].
  destruct (decide (k = 0)) as [->|Hk0].
  - simpl. rewrite Hsk. simpl. exists 0, sk, sk.
    split_and!; try done; try lia.
    intros j sj Hj Hsj _. assert (j = 0) as -> by lia. same_slot. lia.
  - destruct IH as (m & sm & s0 & Hscan & Hm & Hsm & Hs0 & Hor & Hle0 & Hlt0 & Hmin & Hfirst);
      [lia|].
    simpl. rewrite Hscan. simpl. rewrite Hsk. simpl.
    destruct (used sk) eqn:Hu.
    + rewrite Hsm. simpl. destruct (count sk <? count sm)%Z eqn:Hlt.
      * apply Z.ltb_lt in Hlt. exists k, sk, s0.
        split_and!; try done; try lia.
        -- by right.
        -- intros j sj Hj Hsj Huj. destruct (decide (j = k)) as [->|Hjk].
           ++ same_slot. lia.
           ++ specialize (Hmin j sj ltac:(lia) Hsj Huj). lia.
        -- intros j sj Hj Hsj Huj. specialize (Hmin j sj ltac:(lia) Hsj Huj). lia.
      * apply Z.ltb_ge in Hlt. exists m, sm, s0.
        split_and!; try done; try lia.
        intros j sj Hj Hsj Huj. destruct (decide (j = k)) as [->|Hjk].
        -- same_slot. lia.
        -- apply (Hmin j sj); [lia|done|done].
    + exists m, sm, s0. split_and!; try done; try lia.
      intros j sj Hj Hsj Huj. destruct (decide (j = k)) as [->|Hjk].
      * same_slot. congruence.
      * apply (Hmin j sj); [lia|done|done].
Qed.

(** X6.  The scan of [prof_evict_min_slot] starts from slot 0 whether
    that slot is in use or not, and afterwards only moves to slots in
    use of strictly smaller count.  So after [k >= 1] iterations the
    provisional minimum is slot 0 or a slot in use; its count is at
    most that of slot 0 and of every slot in use among the first [k],
    and strictly smaller than that of every slot in use before it and,
    unless it is slot 0 itself, than that of slot 0. *)
Theorem evict_scan_starts_from_slot_0 (h : list prof_slot) k :
  0 < k <= length h ->
  exists m sm s0,
    prof_evict_min_scan h k = Some (Some m) /\ m < k /\
    h !! m = Some sm /\ h !! 0 = Some s0 /\
    (m = 0 \/ used sm = true) /\
    (count sm <= count s0)%Z /\
    (m <> 0 -> (count sm < count s0)%Z) /\
    (forall j sj, j < k -> h !! j = Some sj -> used sj = true ->
       (count sm <= count sj)%Z) /\
    (forall j sj, j < m -> h !! j = Some sj -> used sj = true ->
       (count sm < count sj)%Z).
Proof. apply prof_evict_min_scan_seed. Qed.

(** X7.  [prof_evict_min_slot] has no result in two cases that the
    function itself does not exclude: with a pool of no slots the scan
    leaves [min] null and [prof_evict_slot] dereferences it; and when
    slot 0 is not in use and no slot in use has a smaller count, the
    scan chooses slot 0 and the [eassert (slot->used)] of
    [prof_free_slot] fails. *)
Theorem evict_min_slot_failures s h :
  prof_slot_heap s = Some h -> prof_slot_heap_size s = length h ->
  (length h = 0 -> prof_evict_min_slot s = None) /\
  (forall s0, h !! 0 = Some s0 -> used s0 = false ->
     (forall j sj, h !! j = Some sj -> used sj = true -> (count s0 <= count sj)%Z) ->
     prof_evict_min_scan h (length h) = Some (Some 0) /\
     prof_evict_min_slot s = None).
Proof.
  intros Hh Hsize. split.
  - intros Hz. unfold prof_evict_min_slot. rewrite Hh, Hsize, Hz. done.
  - intros s0 Hs0 Hu Hmin.
    pose proof (lookup_lt_Some _ _ _ Hs0) as Hpos.
    destruct (prof_evict_min_scan_seed h (length h))
      as (m & sm & s0' & Hscan & _ & Hsm & Hs0' & Hor & _ & Hlt0 & _); [lia|].
    same_slot.
    assert (m = 0) as ->.
    { destruct (decide (m = 0)) as [|Hne]; [done|].
      destruct Hor as [|Hum]; [done|].
      specialize (Hlt0 Hne). specialize (Hmin m sm Hsm Hum). lia. }
    split; [done|].
    unfold prof_evict_min_slot. rewrite Hh, Hsize. simpl. rewrite Hscan. simpl.
    unfold prof_evict_slot. rewrite (slot_at_heap s h 0 Hh), Hs0. simpl.
    unfold prof_free_slot.
    rewrite (slot_at_heap _ h 0) by done. rewrite Hs0. simpl. by rewrite Hu.
Qed.


End Evict.

(** ** Looking a backtrace up *)

Section Lookup.
Context `{LispHost}.

Ltac same_slot :=
  repeat match goal with
  | H1 : ?h !! ?x = Some ?a, H2 : ?h !! ?x = Some ?b |- _ =>
      assert (b = a) as -> by congruence; clear H2
  end.

Lemma last_nil_inv (c : list nat) : last c = None -> c = [].
Proof. by destruct c using rev_ind; [|rewrite last_snoc]. Qed.

(** The chain of the bucket after the linking code of
    [prof_ensure_slot] has run on a slot taken from the free list. *)
Lemma inserted_chain s h bt p c i si :
  pool_ok s h -> length bt = prof_max_stack_depth s ->
  prof_hash_table s !! prof_backtrace_index (prof_max_stack_depth s) bt = Some p ->
  next_path h p c -> h !! i = Some si -> used si = false ->
  exists p',
    prof_hash_table (inserted bt i si (last c) h s)
      !! prof_backtrace_index (prof_max_stack_depth s) bt = Some p' /\
    next_path (imap (link_adjust (prof_max_stack_depth s) bt i (last c)) h) p' (c ++ [i]).
Proof.
  intros Hok Hbt Ht Hp Hi Hu.
  set (D := prof_max_stack_depth s) in *.
  destruct (chain_slots s h _ p c Hok Ht Hp) as (_ & Hall).
  destruct (inserted_fields bt i si (last c) h s) as (_ & _ & _ & Et & _).
  fold D in Et. rewrite Et. clear Et.
  assert (i ∉ c) as Hic.
  { intros Hin. destruct (Hall i Hin) as (si' & Hi' & Hu' & _). same_slot. congruence. }
  destruct (last c) as [z|] eqn:Hz.
  - destruct (Hall z) as (sz & Hsz & Huz & _); [by apply last_Some_elem_of|].
    assert (z <> i) as Hzi by (intros ->; same_slot; congruence).
    exists p. split; [done|].
    apply (next_path_snoc h _ p c z i (link_adjust D bt i (Some z) i si)); try done.
    + intros j Hj Hjz. rewrite list_lookup_imap.
      destruct (h !! j) as [sj|] eqn:Hsj; [|done].
      change (Some (next (link_adjust D bt i (Some z) j sj)) = Some (next sj)).
      rewrite link_adjust_other; [done| |congruence].
      intros ->. done.
    + rewrite list_lookup_imap, Hsz.
      change (Some (next (link_adjust D bt i (Some z) z sz)) = Some (Some i)).
      by rewrite link_adjust_tail.
    + apply lookup_imap_Some. by exists si.
    + by rewrite link_adjust_new_tail.
  - apply last_nil_inv in Hz as ->. exists (Some i). split.
    + apply list_lookup_insert_eq. by eapply lookup_lt_Some.
    + simpl. apply (next_path_cons _ i (link_adjust D bt i None i si)).
      * apply lookup_imap_Some. by exists si.
      * rewrite link_adjust_new_none. simpl. constructor.
Qed.

Lemma link_adjust_slot_data D bt i prev0 j sj :
  j <> i -> slot_data (link_adjust D bt i prev0 j sj) = slot_data sj.
Proof.
  intros Hji. destruct (link_adjust_data D bt i prev0 j sj) as (Eu & Ec & Eb).
  rewrite decide_False in Eu by done. rewrite decide_False in Ec by done.
  rewrite decide_False in Eb by done. unfold slot_data. by rewrite Eu, Ec, Eb.
Qed.

Lemma link_adjust_new_data D bt i prev0 si :
  length bt = D -> length (backtrace si) = D ->
  slot_data (link_adjust D bt i prev0 i si) = (bt, 0%Z, true).
Proof.
  intros Hbt Hsi. destruct (link_adjust_data D bt i prev0 i si) as (Eu & Ec & Eb).
  rewrite decide_True in Eu by done. rewrite decide_True in Ec by done.
  rewrite decide_True in Eb by done. unfold slot_data. rewrite Eu, Ec, Eb.
  by rewrite prof_copy_backtrace_all.
Qed.

(** X9.  In a state the program can reach, [prof_ensure_slot] called
    with a backtrace that a slot of the chain of its bucket holds
    returns the first such slot of the chain and changes nothing at
    all: it takes no slot from the free list and evicts nothing.  The
    sample is then counted in that slot: its count and the total grow
    by one and the rest of the state is as before. *)
Theorem known_backtrace_is_found s h bt p c1 j sj c2 first :
  reachable s -> prof_slot_heap s = Some h ->
  prof_hash_table s !! prof_backtrace_index (prof_max_stack_depth s) bt = Some p ->
  next_path h p (c1 ++ j :: c2) ->
  h !! j = Some sj -> backtrace sj = bt ->
  (forall k sk, k ∈ c1 -> h !! k = Some sk -> backtrace sk <> bt) ->
  bt !! 0 = Some first -> NILP first = false ->
  prof_ensure_slot bt s = Some (j, s) /\
  prof_record_sample (set_backtrace (Some bt) s) =
    Some (counted j h (set_backtrace (Some bt) s)).
Proof.
  intros Hr Hh Ht Hp Hj Hb Hmiss Hfirst Hnil.
  pose proof (reachable_pool_ok s h Hr Hh) as Hok.
  assert (length bt = prof_max_stack_depth s) as Hbt.
  { rewrite <- Hb. by apply (pool_buffers _ _ Hok j). }
  assert (forall s0, prof_slot_heap s0 = Some h ->
    prof_max_stack_depth s0 = prof_max_stack_depth s ->
    prof_hash_table s0 = prof_hash_table s ->
    prof_ensure_slot bt s0 = Some (j, s0)) as Hhit.
  { intros s0 Hh0 HD0 Ht0.
    destruct (chain_slots s h _ p _ Hok Ht Hp) as (Hlen & _).
    apply (prof_ensure_slot_hit s0 h bt p c1 j sj c2); rewrite ?HD0, ?Ht0; try done.
    - intros k sk Hk Hsk. destruct (prof_backtrace_equal _ _ _) eqn:E; [|done].
      apply prof_backtrace_equal_iff in E; [|done|by apply (pool_buffers _ _ Hok k)].
      by destruct (Hmiss k sk Hk Hsk).
    - apply prof_backtrace_equal_iff; [done|by apply (pool_buffers _ _ Hok j)|done]. }
  split; [by apply Hhit|].
  apply (prof_record_sample_step _ bt first j _ h sj); try done.
  by apply Hhit.
Qed.


End Lookup.

(** ** The trigger *)

Section Trigger.
Context `{LispHost}.

Ltac same_slot :=
  repeat match goal with
  | H1 : ?h !! ?x = Some ?a, H2 : ?h !! ?x = Some ?b |- _ =>
      assert (b = a) as -> by congruence; clear H2
  end.

Lemma prof_walk_backtrace_lookup bl : forall i D buf j,
  length buf = D ->
  prof_walk_backtrace i D bl buf !! j =
  if decide (i <= j < D) then
    match bl !! (j - i) with
    | Some f => if SYMBOLP f && negb (NILP (Ffboundp f)) then Some f else buf !! j
    | None => buf !! j
    end
  else buf !! j.
Proof.
  induction bl as [|f bl IH]; intros i D buf j Hlen; simpl.
  - by case_decide.
  - destruct (decide (i < D)) as [HiD|HiD].
    2:{ rewrite decide_False by lia. done. }
    set (ok := SYMBOLP f && negb (NILP (Ffboundp f))).
    rewrite IH.
    2:{ destruct ok; [by rewrite length_insert|done]. }
    destruct (decide (S i <= j < D)) as [Hj|Hj].
    + rewrite decide_True by lia.
      replace (j - i) with (S (j - S i)) by lia. simpl.
      assert ((if ok then <[i:=f]> buf else buf) !! j = buf !! j) as ->.
      { destruct ok; [|done]. apply list_lookup_insert_ne. lia. }
      done.
    + destruct (decide (j = i)) as [->|Hji].
      * rewrite decide_True by lia. rewrite Nat.sub_diag. simpl. fold ok.
        destruct ok; [|done]. apply list_lookup_insert_eq. lia.
      * rewrite decide_False by lia.
        destruct ok; [|done]. by apply list_lookup_insert_ne.
Qed.

Lemma captured_lookup D bl j :
  j < D ->
  captured D bl !! j = Some (if bl !! j is Some f then frame_token f else Qnil).
Proof.
  intros Hj. unfold captured.
  rewrite prof_walk_backtrace_lookup by apply length_replicate.
  rewrite decide_True by lia. rewrite Nat.sub_0_r.
  assert (replicate D Qnil !! j = Some Qnil) as Hq by by apply lookup_replicate_2.
  rewrite Hq. destruct (bl !! j) as [f|]; [|done].
  unfold frame_token. by destruct (SYMBOLP f && negb (NILP (Ffboundp f))).
Qed.

Lemma captured_resize D bl : captured D bl = resize D Qnil (frame_token <$> bl).
Proof.
  apply list_eq. intros j. destruct (decide (j < D)) as [Hj|Hj].
  - rewrite captured_lookup by done.
    destruct (bl !! j) as [f|] eqn:Hf.
    + rewrite lookup_resize; [|done|].
      * by rewrite list_lookup_fmap, Hf.
      * rewrite length_fmap. by eapply lookup_lt_Some.
    + rewrite lookup_resize_new; [done| |done].
      rewrite length_fmap. by apply lookup_ge_None.
  - rewrite lookup_resize_old by lia.
    apply lookup_ge_None. rewrite captured_length. lia.
Qed.

(** X11.  The two loops of [prof_signal_handler] fill the scratch
    buffer from the host's frames alone: position [j] below
    [prof_max_stack_depth] receives the function of frame [j] when it
    is an fbound symbol and the sentinel otherwise (also when the
    stack is shallower), so that a frame which is not an fbound symbol
    leaves a sentinel in the middle of the backtrace; the frames from
    [prof_max_stack_depth] on are not read, and what the buffer held
    before does not matter. *)
Theorem trigger_captures_innermost_frames s buf bl :
  prof_backtrace s = Some buf -> length buf = prof_max_stack_depth s ->
  captured (prof_max_stack_depth s) bl =
    resize (prof_max_stack_depth s) Qnil (frame_token <$> bl) /\
  captured (prof_max_stack_depth s) (take (prof_max_stack_depth s) bl) =
    captured (prof_max_stack_depth s) bl /\
  prof_signal_handler bl s =
    prof_record_sample
      (set_backtrace (Some (captured (prof_max_stack_depth s) bl)) s).
Proof.
  intros Hbuf Hlen. split_and!.
  - apply captured_resize.
  - rewrite !captured_resize. rewrite fmap_take. by rewrite resize_take_eq.
  - by apply (prof_signal_handler_captured s buf).
Qed.

(** How the trigger ends. *)
Lemma prof_signal_handler_cases s h bl :
  pool_ok s h -> 0 < prof_max_stack_depth s ->
  (accepted (prof_max_stack_depth s) bl = false /\
   prof_signal_handler bl s =
     Some (set_backtrace (Some (captured (prof_max_stack_depth s) bl)) s)) \/
  (accepted (prof_max_stack_depth s) bl = true /\
   exists p c,
     prof_hash_table s
       !! prof_backtrace_index (prof_max_stack_depth s)
            (captured (prof_max_stack_depth s) bl) = Some p /\
     next_path h p c /\
     ((exists c1 j sj c2,
         c = c1 ++ j :: c2 /\ h !! j = Some sj /\ used sj = true /\
         backtrace sj = captured (prof_max_stack_depth s) bl /\
         prof_signal_handler bl s =
           Some (counted j h
                   (set_backtrace (Some (captured (prof_max_stack_depth s) bl)) s))) \/
      ((forall k sk, k ∈ c -> h !! k = Some sk ->
          backtrace sk <> captured (prof_max_stack_depth s) bl) /\
       ((exists i si,
           prof_free_list s = Some i /\ h !! i = Some si /\ used si = false /\
           prof_signal_handler bl s =
             Some (counted i
                     (imap (link_adjust (prof_max_stack_depth s)
                              (captured (prof_max_stack_depth s) bl) i (last c)) h)
                     (inserted (captured (prof_max_stack_depth s) bl) i si (last c) h
                        (set_backtrace
                           (Some (captured (prof_max_stack_depth s) bl)) s)))) \/
        (prof_free_list s = None /\
         exists v sv,
           first_min h v sv /\ used sv = true /\
           prof_signal_handler bl s =
             Some (counted v
                     (imap (link_adjust (prof_max_stack_depth s)
                              (captured (prof_max_stack_depth s) bl) v (last c))
                        (imap (free_adjust v sv None) h))
                     (inserted (captured (prof_max_stack_depth s) bl) v
                        (free_adjust v sv None v sv) (last c)
                        (imap (free_adjust v sv None) h)
                        (evicted v sv h
                           (set_backtrace
                              (Some (captured (prof_max_stack_depth s) bl)) s))))))))).
Proof.
  intros Hok HD. destruct (pool_scratch _ _ Hok) as (buf & Hbuf & Hlen).
  rewrite (prof_signal_handler_captured s buf bl Hbuf Hlen).
  set (D := prof_max_stack_depth s) in *.
  set (bt := captured D bl).
  set (s0 := set_backtrace (Some bt) s).
  assert (length bt = D) as Hbt by apply captured_length.
  assert (pool_ok s0 h) as Hok0 by by apply pool_ok_set_backtrace.
  destruct (lookup_lt_is_Some_2 bt 0) as [first Hfirst]; [lia|].
  assert (accepted D bl = negb (NILP first)) as Hacc.
  { unfold accepted. fold bt. by rewrite (aref_lookup bt 0 first). }
  rewrite Hacc. destruct (NILP first) eqn:Hnil; simpl.
  - left. split; [done|]. unfold prof_record_sample. simpl.
    rewrite Hfirst. simpl. by rewrite Hnil.
  - right. split; [done|].
    destruct (bucket_lookup s h bt Hok) as (p & c & Ht & Hp). fold D in Ht.
    exists p, c. split; [done|]. split; [done|].
    destruct (prof_ensure_slot_cases s0 h bt p c Hok0 Hbt Ht Hp)
      as [(c1 & j & sj & c2 & -> & Hj & Hu & Hb & _ & He)
         |[Hmiss [(i & si & Hf & Hi & Hu & He & _)
                 |(Hf & v & sv & Hfm & Hu & _ & He & _)]]].
    + left. exists c1, j, sj, c2. split_and!; try done.
      apply (prof_record_sample_step s0 bt first j s0 h sj); try done.
      apply (pool_heap _ _ Hok0).
    + right. split; [done|]. left. exists i, si. split_and!; try done.
      eapply (prof_record_sample_step s0 bt first i); try done.
      * apply inserted_fields.
      * apply lookup_imap_Some. by exists si.
    + right. split; [done|]. right. split; [done|]. exists v, sv.
      split_and!; try done.
      eapply (prof_record_sample_step s0 bt first v); try done.
      * apply inserted_fields.
      * apply lookup_imap_Some. eexists. split; [|done].
        apply lookup_imap_Some. exists sv. split; [apply Hfm|done].
Qed.

Lemma prof_record_sample_frame s s' :
  prof_record_sample s = Some s' ->
  control_of s' = control_of s /\ prof_backtrace s' = prof_backtrace s /\
  length (prof_hash_table s') = length (prof_hash_table s) /\
  length <$> prof_slot_heap s' = length <$> prof_slot_heap s.
Proof.
  unfold prof_record_sample. intros Hs.
  apply bind_Some in Hs as (buf & _ & Hs). apply bind_Some in Hs as (first & _ & Hs).
  destruct (NILP first); simpl in Hs; [by injection Hs as <-|].
  apply bind_Some in Hs as ([slot s1] & H1 & Hs). simpl in Hs.
  apply bind_Some in Hs as (sl & _ & Hs). apply bind_Some in Hs as (s2 & H2 & Hs).
  injection Hs as <-.
  destruct (same_frame_trans _ _ _ (prof_ensure_slot_frame _ _ _ _ H1)
              (update_slot_frame _ _ _ _ H2)) as (A1 & A2 & _ & A4 & A5).
  by split_and!.
Qed.

Lemma prof_signal_handler_frame bl s s' :
  prof_signal_handler bl s = Some s' ->
  control_of s' = control_of s /\
  length (prof_hash_table s') = length (prof_hash_table s) /\
  length <$> prof_slot_heap s' = length <$> prof_slot_heap s /\
  length <$> prof_backtrace s' = length <$> prof_backtrace s.
Proof.
  unfold prof_signal_handler. intros Hs.
  apply bind_Some in Hs as (buf & Hbuf & Hs).
  apply prof_record_sample_frame in Hs as (A1 & A2 & A3 & A4).
  split_and!; try done.
  rewrite A2, Hbuf. simpl.
  by rewrite prof_walk_backtrace_length, prof_clear_backtrace_length.
Qed.

(** X12.  Whatever state it runs in, when [prof_signal_handler]
    returns it has not written the mode, the start time, the
    interval, the two dimensions [prof_max_stack_depth] and
    [prof_slot_heap_size], the two Lisp variables, the signal action,
    the timer or the signal mask, and the hash table, the slot array
    and the scratch buffer have the sizes they had. *)
Theorem trigger_leaves_control_state bl s s' :
  prof_signal_handler bl s = Some s' ->
  control_of s' = control_of s /\
  length (prof_hash_table s') = length (prof_hash_table s) /\
  length <$> prof_slot_heap s' = length <$> prof_slot_heap s /\
  length <$> prof_backtrace s' = length <$> prof_backtrace s.
Proof. apply prof_signal_handler_frame. Qed.

Lemma trigger_frame_depth bl s s' :
  prof_signal_handler bl s = Some s' ->
  prof_max_stack_depth s' = prof_max_stack_depth s.
Proof.
  intros Hs. unfold prof_signal_handler in Hs.
  apply bind_Some in Hs as (buf & Hbuf & Hs).
  apply prof_record_sample_frame in Hs as (A1 & _).
  unfold control_of in A1. simpl in A1. congruence.
Qed.

(** One firing of the trigger and the total. *)
Lemma prof_signal_handler_total s h bl :
  pool_ok s h -> 0 < prof_max_stack_depth s ->
  exists s' h',
    prof_signal_handler bl s = Some s' /\ pool_ok s' h' /\
    prof_total_count s' =
      (if accepted (prof_max_stack_depth s) bl
       then ulong (prof_total_count s + 1) else prof_total_count s).
Proof.
  intros Hok HD.
  destruct (prof_signal_handler_ok s h bl Hok HD) as (s' & h' & Hs & Hok').
  exists s', h'. split; [done|]. split; [done|].
  destruct (pool_scratch _ _ Hok) as (buf & Hbuf & Hlen).
  rewrite (prof_signal_handler_captured s buf bl Hbuf Hlen) in Hs.
  set (bt := captured (prof_max_stack_depth s) bl) in *.
  destruct (lookup_lt_is_Some_2 bt 0) as [first Hfirst].
  { unfold bt. rewrite captured_length. lia. }
  unfold accepted. fold bt. rewrite (aref_lookup bt 0 first Hfirst).
  unfold prof_record_sample in Hs. simpl in Hs. rewrite Hfirst in Hs. simpl in Hs.
  destruct (NILP first); simpl in *; [by injection Hs as <-|].
  apply bind_Some in Hs as ([slot s1] & H1 & Hs). simpl in Hs.
  apply bind_Some in Hs as (sl & _ & Hs). apply bind_Some in Hs as (s2 & H2 & Hs).
  injection Hs as <-. simpl.
  destruct (same_frame_trans _ _ _ (prof_ensure_slot_frame _ _ _ _ H1)
              (update_slot_frame _ _ _ _ H2)) as (_ & _ & A3 & _).
  by rewrite A3.
Qed.

Lemma count_accepted_cons D bl bls :
  count_accepted D (bl :: bls) =
  (if accepted D bl then 1 else 0) + count_accepted D bls.
Proof.
  unfold count_accepted. rewrite filter_cons.
  destruct (accepted D bl); [by rewrite decide_True|by rewrite decide_False].
Qed.

Lemma signals_total bls : forall s h,
  pool_ok s h -> 0 < prof_max_stack_depth s ->
  exists s' h',
    signals bls s = Some s' /\ pool_ok s' h' /\
    prof_max_stack_depth s' = prof_max_stack_depth s /\
    prof_total_count s' =
      ulong (prof_total_count s +
             Z.of_nat (count_accepted (prof_max_stack_depth s) bls)).
Proof.
  induction bls as [|bl bls IH]; intros s h Hok HD.
  - exists s, h. split_and!; try done. simpl.
    rewrite Z.add_0_r, (pool_balance _ _ Hok). symmetry.
    apply ulong_small, ulong_range.
  - destruct (prof_signal_handler_total s h bl Hok HD) as (s1 & h1 & Hs1 & Hok1 & Ht1).
    pose proof (trigger_frame_depth bl s s1 Hs1) as HD1.
    destruct (IH s1 h1 Hok1) as (s' & h' & Hs' & Hok' & HD' & Ht'); [lia|].
    exists s', h'. simpl. rewrite Hs1. simpl. split_and!; try done; [congruence|].
    rewrite Ht', HD1, Ht1, count_accepted_cons.
    destruct (accepted (prof_max_stack_depth s) bl).
    + rewrite ulong_add_l. f_equal. lia.
    + f_equal.
Qed.


Lemma zero_depth_reads_outside s h bl :
  pool_ok s h -> prof_max_stack_depth s = 0 -> prof_signal_handler bl s = None.
Proof.
  intros Hok HD. destruct (pool_scratch _ _ Hok) as (buf & Hbuf & Hlen).
  unfold prof_signal_handler, prof_record_sample. rewrite Hbuf. simpl.
  rewrite lookup_ge_None_2; [done|].
  rewrite prof_walk_backtrace_length, prof_clear_backtrace_length. lia.
Qed.

(** X14.  With [prof_max_stack_depth] zero (the Lisp variable was 0,
    or a multiple of 2^32, when the pool was allocated) the scratch
    buffer has no element, and every firing of the trigger reads
    [prof_backtrace[0]] outside of it: the trigger has no result. *)
Theorem zero_depth_trigger_reads_outside s h bl :
  reachable s -> prof_slot_heap s = Some h -> prof_max_stack_depth s = 0 ->
  prof_signal_handler bl s = None.
Proof.
  intros Hr Hh HD. pose proof (reachable_pool_ok s h Hr Hh) as Hok.
  by apply (zero_depth_reads_outside s h).
Qed.

Lemma counted_next (h : list prof_slot) j k :
  next <$> imap (upd j (fun sl => with_count (ulong (count sl + 1)) sl)) h !! k =
  next <$> h !! k.
Proof.
  rewrite list_lookup_imap. destruct (h !! k) as [sk|]; [|done].
  simpl. unfold upd. by case_decide.
Qed.

Lemma next_path_nil_inv (h : list prof_slot) l : next_path h None l -> l = [].
Proof. intros Hl. by inversion Hl. Qed.


End Trigger.

(** ** Allocation of the pool and the control functions *)

Section Control.
Context `{LispHost}.

Ltac same_slot :=
  repeat match goal with
  | H1 : ?h !! ?x = Some ?a, H2 : ?h !! ?x = Some ?b |- _ =>
      assert (b = a) as -> by congruence; clear H2
  end.

Lemma init_heap_unused mem D N i sl :
  init_heap mem D N !! i = Some sl ->
  used sl = false /\ length (backtrace sl) = D.
Proof.
  intros Hi. pose proof (lookup_lt_Some _ _ _ Hi) as Hlt.
  rewrite init_heap_length in Hlt. rewrite init_heap_lookup in Hi by done.
  injection Hi as <-. simpl. by rewrite length_resize.
Qed.

Lemma init_heap_path mem D N :
  0 < N -> next_path (init_heap mem D N) (Some 0) (seq 0 N).
Proof.
  intros HN. pose proof (init_heap_free mem D N N (le_n N)) as Hp.
  rewrite Nat.sub_diag in Hp. by rewrite decide_True in Hp.
Qed.

(** X16.  [prof_init] returns exactly when the capacity it reads from
    [profiler_slot_heap_size] (as an [unsigned int]) is not zero; with
    capacity zero it writes [free_list->next] outside of the empty
    slot array.  When it returns, whatever [xmalloc] left in the
    memory: the pool has that capacity and the depth read from
    [profiler_max_stack_depth], no slot is in use, the free list
    visits all the slots in the order of the array, the 128 buckets
    are empty, the two counters are zero and every buffer has the
    depth as its length; mode, timer and signal action are not
    written. *)
Theorem prof_init_builds_empty_pool mem s :
  (is_Some (prof_init mem s) <-> 0 < uint (profiler_slot_heap_size s)) /\
  forall s', prof_init mem s = Some s' ->
    exists h,
      prof_slot_heap s' = Some h /\
      prof_max_stack_depth s' = uint (profiler_max_stack_depth s) /\
      prof_slot_heap_size s' = uint (profiler_slot_heap_size s) /\
      length h = prof_slot_heap_size s' /\
      (forall i sl, h !! i = Some sl ->
         used sl = false /\ length (backtrace sl) = prof_max_stack_depth s') /\
      next_path h (prof_free_list s') (seq 0 (prof_slot_heap_size s')) /\
      prof_hash_table s' = replicate PROF_HASH_TABLE_SIZE None /\
      prof_total_count s' = 0%Z /\ prof_others_count s' = 0%Z /\
      (exists buf, prof_backtrace s' = Some buf /\
                   length buf = prof_max_stack_depth s') /\
      prof_mode s' = prof_mode s /\ sigprof_action s' = sigprof_action s /\
      itimer_prof s' = itimer_prof s.
Proof.
  destruct (decide (0 < uint (profiler_slot_heap_size s))) as [HN|HN].
  - rewrite (prof_init_eq mem s HN). split; [by split; [|eexists]|].
    intros s' [= <-]. eexists. split; [done|]. simpl.
    split_and!; try done.
    + apply init_heap_length.
    + apply init_heap_unused.
    + by apply init_heap_path.
    + eexists. split; [done|]. by rewrite length_resize.
  - rewrite prof_init_zero by lia. split; [|done].
    split; [by intros [? ?]|lia].
Qed.

(** X17.  With the capacity variable at zero (or at a multiple of
    2^32) and no pool allocated, [Fprofiler_start_sampling] has no
    result: the fault of [prof_init] comes before the mode is set and
    before the handler and the timer are installed. *)
Theorem zero_capacity_start_faults i now mem a t s :
  prof_slot_heap s = None -> uint (profiler_slot_heap_size s) = 0 ->
  Fprofiler_start_sampling i now mem a t s = None.
Proof.
  intros Hh HN. unfold Fprofiler_start_sampling. rewrite Hh.
  by rewrite prof_init_zero.
Qed.

Lemma step_mode c s s' :
  step c s = Some s' ->
  prof_mode s' = if is_start c then intern "sample" else prof_mode s.
Proof.
  intros Hs. destruct c; simpl in *.
  - by injection Hs as <-.
  - apply fmap_Some in Hs as ([r s1] & Hs & ->). unfold Fprofiler_start_sampling in Hs.
    apply bind_Some in Hs as (s0 & _ & Hs). injection Hs as _ <-.
    by destruct sigaction_ok, setitimer_ok.
  - injection Hs as <-. unfold Fprofiler_stop_sampling. by destruct setitimer_ok.
  - injection Hs as <-. unfold Fprofiler_reset. simpl. by destruct (prof_slot_heap s).
  - apply fmap_Some in Hs as ([r s1] & Hs & ->). unfold Fprofiler_take_snapshot in Hs.
    apply bind_Some in Hs as (slots & _ & Hs). by injection Hs as _ <-.
  - destruct (sigprof_action s); [|done].
    apply prof_signal_handler_frame in Hs as (A & _).
    unfold control_of in A. congruence.
Qed.

Lemma run_mode cs : forall s s',
  run cs s = Some s' ->
  prof_mode s' = if existsb is_start cs then intern "sample" else prof_mode s.
Proof.
  induction cs as [|c cs IH]; intros s s' Hr; simpl in Hr.
  - by injection Hr as <-.
  - apply bind_Some in Hr as (s1 & Hs & Hr). rewrite (IH s1 s' Hr).
    rewrite (step_mode c s s1 Hs). simpl. by destruct (is_start c), (existsb is_start cs).
Qed.

(** X18.  [Fprofiler_mode] tells whether sampling was ever started,
    not whether it is running: after any sequence of calls from the
    state [syms_of_profiler] leaves, the mode is [Qnil] if
    [Fprofiler_start_sampling] was never called and the symbol
    [sample] otherwise; neither [Fprofiler_stop_sampling] nor
    [Fprofiler_reset] sets it back. *)
Theorem mode_records_first_start cs s :
  run cs syms_of_profiler = Some s ->
  Fprofiler_mode s = if existsb is_start cs then intern "sample" else Qnil.
Proof. intros Hr. unfold Fprofiler_mode. by rewrite (run_mode cs _ s Hr). Qed.

Lemma step_dimensions c s s' h :
  prof_slot_heap s = Some h -> step c s = Some s' -> is_reset c = false ->
  exists h', prof_slot_heap s' = Some h' /\ length h' = length h /\
    prof_max_stack_depth s' = prof_max_stack_depth s /\
    prof_slot_heap_size s' = prof_slot_heap_size s.
Proof.
  intros Hh Hs Hc. destruct c; simpl in *; try done.
  - injection Hs as <-. by exists h.
  - apply fmap_Some in Hs as ([r s1] & Hs & ->). unfold Fprofiler_start_sampling in Hs.
    rewrite Hh in Hs. simpl in Hs. injection Hs as _ <-. exists h.
    by destruct sigaction_ok, setitimer_ok.
  - injection Hs as <-. exists h. unfold Fprofiler_stop_sampling.
    by destruct setitimer_ok.
  - apply fmap_Some in Hs as ([r s1] & Hs & ->). unfold Fprofiler_take_snapshot in Hs.
    apply bind_Some in Hs as (slots & _ & Hs). injection Hs as _ <-. by exists h.
  - destruct (sigprof_action s); [|done].
    apply prof_signal_handler_frame in Hs as (A & _ & B & _).
    rewrite Hh in B. simpl in B.
    destruct (prof_slot_heap s') as [h'|]; [|done]. simpl in B. injection B as B.
    exists h'. unfold control_of in A. split_and!; try done; congruence.
Qed.

(** X19.  The dimensions of the pool are fixed when it is allocated:
    from a state with a pool, through any calls other than
    [Fprofiler_reset] - assignments to the two Lisp variables, stops
    and further starts included - the pool stays allocated with the
    same number of slots and the same depth.  A new value of
    [profiler-max-stack-depth] or [profiler-slot-heap-size] is read
    only by the first start after a reset. *)
Theorem pool_dimensions_fixed_until_reset cs : forall s s' h,
  prof_slot_heap s = Some h -> run cs s = Some s' ->
  existsb is_reset cs = false ->
  exists h', prof_slot_heap s' = Some h' /\ length h' = length h /\
    prof_max_stack_depth s' = prof_max_stack_depth s /\
    prof_slot_heap_size s' = prof_slot_heap_size s.
Proof.
  induction cs as [|c cs IH]; intros s s' h Hh Hr Hc; simpl in *.
  - injection Hr as <-. by exists h.
  - apply bind_Some in Hr as (s1 & Hs & Hr).
    apply orb_false_elim in Hc as [Hc Hcs].
    destruct (step_dimensions c s s1 h Hh Hs Hc) as (h1 & Hh1 & L1 & D1 & N1).
    destruct (IH s1 s' h1 Hh1 Hr Hcs) as (h' & Hh' & L' & D' & N').
    exists h'. split_and!; congruence.
Qed.

Lemma filter_unused (h : list prof_slot) :
  (forall i sl, h !! i = Some sl -> used sl = false) ->
  filter (fun sl => used sl = true) h = [].
Proof.
  induction h as [|x h IH]; intros Hall; [done|].
  rewrite filter_cons. rewrite decide_False.
  - apply IH. intros i sl Hi. by apply (Hall (S i)).
  - rewrite (Hall 0 x); done.
Qed.

Lemma take_snapshot_eq now s h :
  prof_slot_heap s = Some h -> length h = prof_slot_heap_size s ->
  Fprofiler_take_snapshot now s =
  Some (snapshot_of now
          (rev (slot_entry (prof_max_stack_depth s) <$>
                  filter (fun sl => used sl = true) h) ++ [overflow_entry s]) s,
        set_blocked false s).
Proof.
  intros Hh Hlen. unfold Fprofiler_take_snapshot. simpl. rewrite Hh, <- Hlen.
  rewrite prof_snapshot_slots_spec by done. by rewrite firstn_all.
Qed.

(** X20.  [Fprofiler_reset] followed by [Fprofiler_start_sampling]
    gives an empty pool, whatever the state before: with a capacity
    variable that is not zero the start returns [Qt], the pool is
    allocated anew with the dimensions the two Lisp variables have at
    that time, no slot is in use, the total and the overflow count are
    zero, and a snapshot reports the overflow entry alone. *)
Theorem reset_then_start_gives_empty_pool i now mem a t s now' :
  0 < uint (profiler_slot_heap_size s) ->
  exists s' h,
    Fprofiler_start_sampling i now mem a t (Fprofiler_reset s) = Some (Qt, s') /\
    prof_slot_heap s' = Some h /\
    length h = uint (profiler_slot_heap_size s) /\
    prof_max_stack_depth s' = uint (profiler_max_stack_depth s) /\
    (forall j sl, h !! j = Some sl -> used sl = false) /\
    prof_total_count s' = 0%Z /\ prof_others_count s' = 0%Z /\
    fst <$> Fprofiler_take_snapshot now' s' =
      Some (snapshot_of now' [overflow_entry s'] s').
Proof.
  intros HN.
  assert (prof_slot_heap (Fprofiler_reset s) = None) as Hnone.
  { unfold Fprofiler_reset. simpl. by destruct (prof_slot_heap s) eqn:E. }
  assert (profiler_slot_heap_size (Fprofiler_reset s) = profiler_slot_heap_size s /\
          profiler_max_stack_depth (Fprofiler_reset s) = profiler_max_stack_depth s)
    as [EN ED].
  { unfold Fprofiler_reset. simpl. by destruct (prof_slot_heap s). }
  set (r := Fprofiler_reset s) in *. clearbody r.
  unfold Fprofiler_start_sampling. rewrite Hnone.
  rewrite prof_init_eq by by rewrite EN. simpl.
  set (s0 := initialized mem r).
  set (s' := (if t then _ else _)).
  set (h := init_heap mem (uint (profiler_max_stack_depth s))
              (uint (profiler_slot_heap_size s))).
  assert (prof_slot_heap s' = Some h /\ prof_slot_heap_size s' = length h /\
          prof_max_stack_depth s' = uint (profiler_max_stack_depth s) /\
          prof_total_count s' = 0%Z /\ prof_others_count s' = 0%Z)
    as (Hh & Hsize & HD & Ht & Ho).
  { unfold s', h. rewrite init_heap_length.
    destruct a, t; simpl; by rewrite ?EN, ?ED. }
  assert (forall j sl, h !! j = Some sl -> used sl = false) as Hun.
  { intros j sl Hj. by apply init_heap_unused in Hj as [? _]. }
  exists s', h. split_and!; try done.
  - apply init_heap_length.
  - rewrite (take_snapshot_eq now' s' h Hh); [|done]. simpl.
    by rewrite (filter_unused h Hun).
Qed.

(** X21.  [Fprofiler_take_snapshot] only reads the aggregated data:
    when it returns, the state is the one before with SIGPROF
    unblocked - also when SIGPROF was blocked before the call, since
    [prof_unblock_signal] does not restore the earlier mask - and a
    second snapshot at the same time gives the same report. *)
Theorem snapshot_only_unblocks_signal now s r s' :
  Fprofiler_take_snapshot now s = Some (r, s') ->
  s' = set_blocked false s /\ sigprof_blocked s' = false /\
  Fprofiler_take_snapshot now s' = Some (r, s').
Proof.
  unfold Fprofiler_take_snapshot. intros Hs.
  apply bind_Some in Hs as (slots & Hslots & Hs). injection Hs as <- <-.
  simpl in *. split_and!; try done. by rewrite Hslots.
Qed.

(** X22.  [Fprofiler_reset] frees the pool once: a second reset finds
    [prof_slot_heap] null and frees nothing; without a pool a reset
    only unblocks SIGPROF.  A reset does not clear what points into
    the freed pool or counts its samples: the hash table, the head of
    the free list, the total and the overflow count keep their
    values. *)
Theorem reset_frees_once s :
  Fprofiler_reset (Fprofiler_reset s) = Fprofiler_reset s /\
  (prof_slot_heap s = None -> Fprofiler_reset s = set_blocked false s) /\
  sigprof_blocked (Fprofiler_reset s) = false /\
  prof_hash_table (Fprofiler_reset s) = prof_hash_table s /\
  prof_free_list (Fprofiler_reset s) = prof_free_list s /\
  prof_total_count (Fprofiler_reset s) = prof_total_count s /\
  prof_others_count (Fprofiler_reset s) = prof_others_count s /\
  prof_mode (Fprofiler_reset s) = prof_mode s.
Proof.
  unfold Fprofiler_reset, prof_block_signal, prof_unblock_signal. simpl.
  destruct (prof_slot_heap s) eqn:E; simpl; split_and!; try done.
  by rewrite E.
Qed.

Lemma quiet_step c s :
  quiet c = true -> prof_slot_heap s = None -> prof_slot_heap_size s = 0 ->
  exists s', step c s = Some s' /\
    prof_slot_heap s' = None /\ prof_slot_heap_size s' = 0 /\
    prof_mode s' = prof_mode s /\ prof_total_count s' = prof_total_count s /\
    prof_others_count s' = prof_others_count s.
Proof.
  intros Hq Hh Hn. destruct c; simpl in *; try done.
  - by eexists.
  - eexists. split; [done|]. unfold Fprofiler_stop_sampling. by destruct setitimer_ok.
  - eexists. split; [done|]. unfold Fprofiler_reset. simpl. by rewrite Hh.
  - unfold Fprofiler_take_snapshot. simpl. rewrite Hn. simpl. by eexists.
Qed.

Lemma quiet_run cs : forall s,
  forallb quiet cs = true -> prof_slot_heap s = None -> prof_slot_heap_size s = 0 ->
  exists s', run cs s = Some s' /\
    prof_slot_heap s' = None /\ prof_slot_heap_size s' = 0 /\
    prof_mode s' = prof_mode s /\ prof_total_count s' = prof_total_count s /\
    prof_others_count s' = prof_others_count s.
Proof.
  induction cs as [|c cs IH]; intros s Hq Hh Hn; simpl in *.
  - by exists s.
  - apply andb_prop in Hq as [Hc Hcs].
    destruct (quiet_step c s Hc Hh Hn) as (s1 & Hs & Hh1 & Hn1 & M1 & T1 & O1).
    destruct (IH s1 Hcs Hh1 Hn1) as (s' & Hr & Hh' & Hn' & M' & T' & O').
    exists s'. rewrite Hs. simpl. split_and!; try done; congruence.
Qed.

(** X23.  Before the first start nothing can go wrong: from the state
    [syms_of_profiler] leaves, any sequence of assignments to the two
    Lisp variables, stops, resets and snapshots returns; no pool is
    allocated, the mode is [Qnil], and a snapshot - whose loop runs
    over [prof_slot_heap_size = 0] slots - reports the overflow entry
    alone, with count zero, and a sample count of zero. *)
Theorem never_started_profiler_is_safe cs now :
  forallb quiet cs = true ->
  exists s,
    run cs syms_of_profiler = Some s /\ prof_slot_heap s = None /\
    Fprofiler_mode s = Qnil /\
    prof_total_count s = 0%Z /\ prof_others_count s = 0%Z /\
    fst <$> Fprofiler_take_snapshot now s =
      Some (snapshot_of now [overflow_entry s] s).
Proof.
  intros Hq.
  destruct (quiet_run cs syms_of_profiler Hq eq_refl eq_refl)
    as (s & Hr & Hh & Hn & M & T & O).
  exists s. split_and!; try done.
  unfold Fprofiler_take_snapshot. simpl. by rewrite Hn.
Qed.


End Control.

(** ** The backtraces of the slots in use and the report *)

Section Report.
Context `{LispHost}.

Ltac same_slot :=
  repeat match goal with
  | H1 : ?h !! ?x = Some ?a, H2 : ?h !! ?x = Some ?b |- _ =>
      assert (b = a) as -> by congruence; clear H2
  end.

Lemma heads_ok_imap (F : nat -> prof_slot -> prof_slot) (h : list prof_slot) :
  heads_ok h ->
  (forall j sj, h !! j = Some sj -> used (F j sj) = true ->
     (used sj = true /\ backtrace (F j sj) = backtrace sj) \/
     NILP (aref (backtrace (F j sj)) 0) = false) ->
  heads_ok (imap F h).
Proof.
  intros Hh HF i sl Hi Hu. apply lookup_imap_Some in Hi as (si & Hi & ->).
  destruct (HF i si Hi Hu) as [[Hu' ->]|Hn]; [|done]. by apply (Hh i).
Qed.

Lemma counted_heads (h : list prof_slot) j :
  heads_ok h ->
  heads_ok (imap (upd j (fun sl => with_count (ulong (count sl + 1)) sl)) h).
Proof.
  intros Hh. apply heads_ok_imap; [done|]. intros k sk _ Hu. left.
  unfold upd in *. by case_decide.
Qed.

Lemma link_adjust_heads D bt i prev0 (h : list prof_slot) :
  heads_ok h -> length bt = D ->
  (forall si, h !! i = Some si -> length (backtrace si) = D) ->
  NILP (aref bt 0) = false ->
  heads_ok (imap (link_adjust D bt i prev0) h).
Proof.
  intros Hh Hbt Hlen Hn. apply heads_ok_imap; [done|]. intros j sj Hj Hu.
  destruct (link_adjust_data D bt i prev0 j sj) as (Eu & _ & Eb).
  rewrite Eb. rewrite Eu in Hu. destruct (decide (j = i)) as [->|Hji].
  - right. rewrite prof_copy_backtrace_all; [done|done|by apply Hlen].
  - by left.
Qed.

Lemma free_adjust_heads v sv fl (h : list prof_slot) :
  heads_ok h -> heads_ok (imap (free_adjust v sv fl) h).
Proof.
  intros Hh. apply heads_ok_imap; [done|]. intros j sj Hj Hu. left.
  apply free_adjust_used_true in Hu as [Hjv Hu]. split; [done|].
  by rewrite free_adjust_ne.
Qed.

Lemma prof_signal_handler_heads s h bl s' h' :
  pool_ok s h -> heads_ok h ->
  prof_signal_handler bl s = Some s' -> prof_slot_heap s' = Some h' ->
  heads_ok h'.
Proof.
  intros Hok Hh Hs Hh'.
  destruct (decide (0 < prof_max_stack_depth s)) as [HD|HD].
  2:{ rewrite (zero_depth_reads_outside s h bl Hok) in Hs by lia. done. }
  set (D := prof_max_stack_depth s) in *.
  assert (length (captured D bl) = D) as Hbt by apply captured_length.
  destruct (prof_signal_handler_cases s h bl Hok HD)
    as [[_ Hs']|(Hacc & p & c & Ht & Hp &
         [(c1 & j & sj & c2 & _ & _ & _ & _ & Hs')
         |[_ [(i & si & Hf & Hi & Hu & Hs')|(Hf & v & sv & Hfm & Hu & Hs')]]])];
    fold D in Hs'; rewrite Hs' in Hs; injection Hs as <-; simpl in Hh'.
  - rewrite (pool_heap _ _ Hok) in Hh'. by injection Hh' as <-.
  - injection Hh' as <-. by apply counted_heads.
  - injection Hh' as <-. apply counted_heads. apply link_adjust_heads; try done.
    + intros si' Hi'. by apply (pool_buffers _ _ Hok i).
    + fold D in Hacc. unfold accepted in Hacc. by apply negb_true_iff in Hacc.
  - injection Hh' as <-. apply counted_heads. apply link_adjust_heads; try done.
    + by apply free_adjust_heads.
    + intros si' Hi'. apply lookup_imap_Some in Hi' as (sv' & Hv' & ->).
      rewrite free_adjust_eq. simpl. by apply (pool_buffers _ _ Hok v).
    + fold D in Hacc. unfold accepted in Hacc. by apply negb_true_iff in Hacc.
Qed.

Lemma step_heads c s s' :
  wf s -> (forall h, prof_slot_heap s = Some h -> heads_ok h) ->
  step c s = Some s' ->
  forall h', prof_slot_heap s' = Some h' -> heads_ok h'.
Proof.
  intros Hwf Hh Hs h' Hh'. destruct c; simpl in Hs.
  - injection Hs as <-. by apply Hh.
  - apply fmap_Some in Hs as ([r s1] & Hs & ->). simpl in Hh'.
    unfold Fprofiler_start_sampling in Hs.
    apply bind_Some in Hs as (s0 & H0 & Hs). injection Hs as _ <-.
    assert (prof_slot_heap s0 = Some h') as Hh0.
    { by destruct sigaction_ok, setitimer_ok. }
    destruct (prof_slot_heap s) as [h|] eqn:E.
    + injection H0 as <-. apply Hh. congruence.
    + destruct (decide (0 < uint (profiler_slot_heap_size s))) as [HN|HN].
      * rewrite (prof_init_eq mem s HN) in H0. injection H0 as <-.
        simpl in Hh0. injection Hh0 as <-. intros i sl Hi Hu.
        apply init_heap_unused in Hi as [Hi _]. congruence.
      * rewrite prof_init_zero in H0 by lia. done.
  - injection Hs as <-. apply Hh. unfold Fprofiler_stop_sampling in Hh'.
    by destruct setitimer_ok.
  - injection Hs as <-. unfold Fprofiler_reset in Hh'. simpl in Hh'.
    destruct (prof_slot_heap s) eqn:E; simpl in Hh'; congruence.
  - apply fmap_Some in Hs as ([r s1] & Hs & ->). simpl in Hh'.
    unfold Fprofiler_take_snapshot in Hs.
    apply bind_Some in Hs as (slots & _ & Hs). injection Hs as _ <-. by apply Hh.
  - destruct (sigprof_action s); [|done].
    destruct (prof_slot_heap s) as [h|] eqn:E.
    + apply (prof_signal_handler_heads s h backtrace_list s' h'); try done.
      * by apply Hwf.
      * by apply Hh.
    + pose proof (prof_signal_handler_wf s s' backtrace_list Hwf Hs) as Hwf'.
      apply prof_signal_handler_frame in Hs as (_ & _ & B & _).
      rewrite E, Hh' in B. done.
Qed.

Lemma run_heads cs : forall s s',
  wf s -> (forall h, prof_slot_heap s = Some h -> heads_ok h) ->
  run cs s = Some s' ->
  forall h', prof_slot_heap s' = Some h' -> heads_ok h'.
Proof.
  induction cs as [|c cs IH]; intros s s' Hwf Hh Hr; simpl in Hr.
  - by injection Hr as <-.
  - apply bind_Some in Hr as (s1 & Hs & Hr). apply (IH s1 s'); try done.
    + by eapply step_wf.
    + by eapply step_heads.
Qed.

Lemma reachable_heads s h :
  reachable s -> prof_slot_heap s = Some h -> heads_ok h.
Proof.
  intros [cs Hr] Hh. apply (run_heads cs syms_of_profiler s); try done.
Qed.

Lemma spec_real_prefix_nonnil (l : list Lisp_Object) :
  Forall (fun x => NILP x = false) (spec_real_prefix l).
Proof.
  induction l as [|x l IH]; simpl; [constructor|].
  destruct (NILP x) eqn:E; [constructor|]. by constructor.
Qed.

Lemma spec_real_prefix_length (l : list Lisp_Object) :
  length (spec_real_prefix l) <= length l.
Proof.
  induction l as [|x l IH]; simpl; [done|].
  destruct (NILP x); simpl; lia.
Qed.

(** X25.  In every state the program can reach with a pool,
    [Fprofiler_take_snapshot] returns a report with one entry per
    slot in use and the overflow entry, so with at most
    [prof_slot_heap_size + 1] entries; and the frames of the entry of
    a slot in use are never empty: they are between one and
    [prof_max_stack_depth] tokens, none of them the sentinel, because
    a backtrace is only stored when its first token is not the
    sentinel. *)
Theorem report_entries_have_frames now s h :
  reachable s -> prof_slot_heap s = Some h ->
  exists report entries,
    fst <$> Fprofiler_take_snapshot now s = Some report /\
    snapshot_entries report = Some entries /\
    length entries = used_count h + 1 /\
    length entries <= prof_slot_heap_size s + 1 /\
    forall i sl, h !! i = Some sl -> used sl = true ->
      0 < length (prof_backtrace_list (prof_max_stack_depth s) (backtrace sl) 0)
        <= prof_max_stack_depth s /\
      Forall (fun x => NILP x = false)
        (prof_backtrace_list (prof_max_stack_depth s) (backtrace sl) 0).
Proof.
  intros Hr Hh. pose proof (reachable_pool_ok s h Hr Hh) as Hok.
  pose proof (reachable_heads s h Hr Hh) as Hheads.
  rewrite (take_snapshot_eq now s h Hh (pool_size _ _ Hok)). simpl.
  eexists _, _. split; [done|]. split; [done|].
  assert (length (rev (slot_entry (prof_max_stack_depth s) <$>
                         filter (fun sl => used sl = true) h)
                  ++ [overflow_entry s]) = used_count h + 1) as Hlen.
  { rewrite length_app, length_rev, length_fmap. done. }
  split_and!.
  - exact Hlen.
  - rewrite Hlen, <- (pool_size _ _ Hok). unfold used_count.
    pose proof (length_filter (fun sl => used sl = true) h). lia.
  - intros i sl Hi Hu. rewrite prof_backtrace_list_spec.
    pose proof (pool_buffers _ _ Hok i sl Hi) as Hb.
    rewrite firstn_all2 by lia.
    split; [|apply spec_real_prefix_nonnil].
    split; [|rewrite <- Hb; apply spec_real_prefix_length].
    specialize (Hheads i sl Hi Hu). unfold aref in Hheads.
    destruct (backtrace sl) as [|x l]; simpl in *.
    + by rewrite NILP_Qnil in Hheads.
    + rewrite Hheads. simpl. lia.
Qed.

End Report.

(** ** A new backtrace in a full pool *)

Section Orphan.
Context `{LispHost}.

Ltac same_slot :=
  repeat match goal with
  | H1 : ?h !! ?x = Some ?a, H2 : ?h !! ?x = Some ?b |- _ =>
      assert (b = a) as -> by congruence; clear H2
  end.

Lemma first_min_unique (h : list prof_slot) v sv v' sv' :
  first_min h v sv -> first_min h v' sv' -> v' = v /\ sv' = sv.
Proof.
  intros (Hv & Hle & Hlt) (Hv' & Hle' & Hlt').
  assert (v' = v) as ->.
  { destruct (Nat.lt_trichotomy v v') as [Hc|[Hc|Hc]]; [|done|].
    - specialize (Hlt' v sv Hc Hv). specialize (Hle v' sv' Hv'). lia.
    - specialize (Hlt v' sv' Hc Hv'). specialize (Hle' v sv Hv). lia. }
  split; [done|congruence].
Qed.

(** A slot whose [next] is itself lies on no path that ends. *)
Lemma self_loop_off_path (h : list prof_slot) v sv p c :
  h !! v = Some sv -> next sv = Some v -> next_path h p c -> v ∉ c.
Proof.
  intros Hv Hn Hp Hin.
  apply list_elem_of_split in Hin as (c1 & c2 & ->).
  pose proof (next_path_NoDup _ _ _ Hp) as Hnd.
  pose proof (next_path_suffix h p _ c1 v c2 Hp eq_refl) as Hs.
  apply next_path_cons_inv in Hs as (_ & sv' & Hv' & Hs). same_slot.
  rewrite Hn in Hs. destruct c2 as [|x c2]; [by inversion Hs|].
  apply next_path_cons_inv in Hs as (E & _). injection E as <-.
  apply NoDup_app in Hnd as (_ & _ & Hnd). apply NoDup_cons in Hnd as [Hnd _].
  apply Hnd. by left.
Qed.


Lemma filter_ne_notin (c : list nat) v :
  v ∉ c -> filter (fun k => k <> v) c = c.
Proof.
  induction c as [|x c IH]; intros Hv; [done|].
  rewrite filter_cons. rewrite decide_True.
  - f_equal. apply IH. intros Hin. apply Hv. by right.
  - intros ->. apply Hv. by left.
Qed.

Lemma filter_ne_split (c1 c2 : list nat) v :
  NoDup (c1 ++ v :: c2) -> filter (fun k => k <> v) (c1 ++ v :: c2) = c1 ++ c2.
Proof.
  intros Hnd. apply NoDup_app in Hnd as (_ & H1 & Hnd).
  apply NoDup_cons in Hnd as [H2 _].
  rewrite filter_app, filter_cons. rewrite decide_False by (intros Hne; by apply Hne).
  rewrite !filter_ne_notin; [done|done|].
  intros Hin. apply (H1 v Hin). by left.
Qed.

Lemma last_skip (c1 c2 : list nat) v :
  last (c1 ++ v :: c2) <> Some v -> last (c1 ++ c2) = last (c1 ++ v :: c2).
Proof.
  intros Hl. destruct c2 as [|x c2 _] using rev_ind.
  - by rewrite last_snoc in Hl.
  - rewrite app_assoc, last_snoc.
    change (c1 ++ v :: c2 ++ [x]) with (c1 ++ (v :: c2) ++ [x]).
    by rewrite app_assoc, last_snoc.
Qed.

(** The chain of a bucket after the eviction of slot [v]. *)
Lemma evicted_chain s h v sv b p c :
  pool_ok s h -> h !! v = Some sv -> used sv = true ->
  prof_hash_table s !! b = Some p -> next_path h p c ->
  exists p1,
    prof_hash_table (evicted v sv h s) !! b = Some p1 /\
    next_path (imap (free_adjust v sv (prof_free_list s)) h) p1
      (filter (fun k => k <> v) c).
Proof.
  intros Hok Hv Hu Ht Hp.
  assert (forall p1 c1, v ∉ c1 ->
    next_path (imap (unlink_adjust sv) h) p1 c1 ->
    next_path (imap (free_adjust v sv (prof_free_list s)) h) p1 c1) as Hext.
  { intros p1 c1 Hv1 Hp1. apply (next_path_ext (imap (unlink_adjust sv) h)); [|done].
    intros j Hj. rewrite !list_lookup_imap. destruct (h !! j) as [sj|]; [|done].
    simpl. rewrite free_adjust_ne; [done|]. by intros ->. }
  destruct (decide (v ∈ c)) as [Hin|Hin].
  - apply list_elem_of_split in Hin as (c1 & c2 & ->).
    pose proof (next_path_NoDup _ _ _ Hp) as Hnd.
    rewrite filter_ne_split by done.
    destruct (unlink_adjust_chain s h v sv b p c1 c2 Hok Hv Ht Hp) as (p1 & Ht1 & Hp1).
    exists p1. split; [done|]. apply Hext; [|done].
    apply NoDup_app in Hnd as (_ & H1 & Hnd). apply NoDup_cons in Hnd as [H2 _].
    intros [Hc|Hc]%elem_of_app; [|done]. apply (H1 v Hc). by left.
  - rewrite filter_ne_notin by done.
    destruct (unlink_adjust_other_chain s h v sv b p c Hok Hv Hu Ht Hp Hin) as [Ht1 Hp1].
    exists p. split; [done|]. by apply Hext.
Qed.


End Orphan.

(** ** What holds of the two kinds of list in every reachable state *)

Section Invariant.
Context `{LispHost}.

Ltac same_slot :=
  repeat match goal with
  | H1 : ?h !! ?x = Some ?a, H2 : ?h !! ?x = Some ?b |- _ =>
      assert (b = a) as -> by congruence; clear H2
  end.

Lemma filter_ext_in {A} (P Q : A -> Prop) `{!forall x, Decision (P x)}
  `{!forall x, Decision (Q x)} (l : list A) :
  (forall x, x ∈ l -> (P x <-> Q x)) -> filter P l = filter Q l.
Proof.
  induction l as [|x l IH]; intros Hpq; [done|].
  rewrite !filter_cons.
  assert (filter P l = filter Q l) as ->.
  { apply IH. intros y Hy. apply Hpq. by right. }
  destruct (decide (P x)) as [HP|HP], (decide (Q x)) as [HQ|HQ]; try done.
  - destruct HQ. apply (Hpq x); [by left|done].
  - destruct HP. apply (Hpq x); [by left|done].
Qed.

(** Counting the slots not in use by their indices. *)
Lemma unused_index_count (h : list prof_slot) : forall k,
  length (filter (fun i => used <$> h !! (i - k) = Some false) (seq k (length h))) =
  length (filter (fun sl => used sl = false) h).
Proof.
  induction h as [|x h IH]; intros k; [done|].
  simpl seq. rewrite !filter_cons. rewrite Nat.sub_diag. simpl lookup.
  rewrite (filter_ext_in _ (fun i => used <$> h !! (i - S k) = Some false)).
  2:{ intros i Hi. apply elem_of_seq in Hi.
      replace (i - k) with (S (i - S k)) by lia. done. }
  simpl fmap. destruct (used x) eqn:Hu.
  - rewrite decide_False by done. rewrite decide_False by done. apply IH.
  - rewrite decide_True by done. rewrite decide_True by done. simpl. f_equal. apply IH.
Qed.

Lemma used_unused_count (h : list prof_slot) :
  used_count h + length (filter (fun sl => used sl = false) h) = length h.
Proof.
  unfold used_count. induction h as [|x h IH]; [done|].
  rewrite !filter_cons. destruct (used x) eqn:Hu; simpl; lia.
Qed.



End Invariant.

(** * mem-limits.h *)

Section MemLimits.

Lemma to_uint_range W z : (0 <= to_uint W z < 2 ^ Z.pos W)%Z.
Proof. unfold to_uint. apply Z.mod_pos_bound. by apply Z.pow_pos_nonneg. Qed.

Lemma to_uint_small W z : (0 <= z < 2 ^ Z.pos W)%Z -> to_uint W z = z.
Proof. intros Hz. unfold to_uint. by apply Z.mod_small. Qed.

Lemma to_uint_wrap W z :
  (- 2 ^ Z.pos W <= z < 0)%Z -> to_uint W z = (z + 2 ^ Z.pos W)%Z.
Proof.
  intros Hz. unfold to_uint.
  rewrite <- (Z_mod_plus_full z 1 (2 ^ Z.pos W)). rewrite Z.mul_1_l.
  apply Z.mod_small. lia.
Qed.


End MemLimits.

(** * The properties on concrete runs *)

Module Concrete.
Import Example64.



(** C2 as stated fails: with one slot in use the first entry of the
    report is the entry of that slot; the overflow entry comes last. *)
Lemma snapshot_overflow_first_counterexample :
  exists report entries first,
    fst <$> Fprofiler_take_snapshot 200%Z Trace.after_A = Some report /\
    snapshot_entries report = Some entries /\
    head entries = Some first /\
    first <> overflow_entry Trace.after_A /\
    last entries = Some (overflow_entry Trace.after_A).
Proof.
  eexists _, _, _. split_and!; [vm_compute; reflexivity|reflexivity|reflexivity| |reflexivity].
  vm_compute. discriminate.
Qed.

Lemma snapshot_overflow_entry_last_witness :
  exists entries,
    entries =
      rev (slot_entry (prof_max_stack_depth Trace.after_A) <$>
             filter (fun sl => used sl = true)
               (default [] (prof_slot_heap Trace.after_A))) ++
      [overflow_entry Trace.after_A] /\
    Fprofiler_take_snapshot 200%Z Trace.after_A =
      Some (snapshot_of 200%Z entries Trace.after_A,
            prof_unblock_signal (prof_block_signal Trace.after_A)) /\
    snapshot_entries (snapshot_of 200%Z entries Trace.after_A) = Some entries /\
    last entries = Some (overflow_entry Trace.after_A) /\
    forall sl,
      prof_backtrace_list (prof_max_stack_depth Trace.after_A) (backtrace sl) 0 =
      spec_real_prefix (take (prof_max_stack_depth Trace.after_A) (backtrace sl)).
Proof.
  apply (snapshot_overflow_entry_last 200%Z Trace.after_A); reflexivity.
Defined.

(** C3 as stated fails: when [setitimer] fails the function still
    returns [Qt], which is not [Qnil], and leaves the pool allocated,
    the mode set and the handler installed. *)
Lemma start_sampling_failure_counterexample :
  Fprofiler_start_sampling 1%Z 100%Z mem0 true false Trace.config1 =
    Some (Qt, Trace.after_failed_start) /\
  Qt <> Qnil /\
  sigprof_action Trace.after_failed_start = true /\
  itimer_prof Trace.after_failed_start = 0%Z /\
  prof_mode Trace.after_failed_start = intern "sample" /\
  prof_mode Trace.after_failed_start <> prof_mode Trace.config1 /\
  prof_slot_heap Trace.after_failed_start <> None.
Proof.
  split_and!.
  - vm_compute. reflexivity.
  - vm_compute. discriminate.
  - reflexivity.
  - reflexivity.
  - vm_compute. reflexivity.
  - vm_compute. discriminate.
  - vm_compute. discriminate.
Qed.

Lemma start_sampling_returns_Qt_witness :
  exists s',
    Fprofiler_start_sampling 1%Z 100%Z mem0 true false Trace.config1 =
      Some (Qt, s') /\
    is_Some (prof_slot_heap s') /\
    prof_mode s' = intern "sample" /\ prof_start_time s' = 100%Z /\
    prof_sample_interval s' = 1%Z /\
    sigprof_action s' = (true || sigprof_action Trace.config1) /\
    itimer_prof s' = itimer_prof Trace.config1.
Proof.
  apply (start_sampling_returns_Qt 1%Z 100%Z mem0 true false Trace.config1).
  right. vm_compute. lia.
Defined.

(** C5 on the code.  With capacity 1, after a sample of [A] the pool
    is partitioned; after a sample of [B], whose backtrace falls into
    the bucket of [A], the only slot is in use, linked to itself, and
    neither on the free list nor on the chain of any bucket.  With
    capacity 2, after three samples of [A], two of [C] and one of [F],
    whose backtrace falls into the bucket of [C], the slot that holds
    [F] is in the same condition. *)
Theorem partition_broken_by_tail_eviction :
  run Trace.calls_A syms_of_profiler = Some Trace.after_A /\
  (exists h, prof_slot_heap Trace.after_A = Some h /\ partitioned Trace.after_A h) /\
  run Trace.calls_AB syms_of_profiler = Some Trace.after_AB /\
  (exists h sl,
     prof_slot_heap Trace.after_AB = Some h /\ h !! 0 = Some sl /\
     used sl = true /\ next sl = Some 0 /\ prev sl = Some 0 /\
     backtrace sl = [Trace.B] /\
     ~ on_free_list Trace.after_AB h 0 /\
     (forall b, ~ on_chain Trace.after_AB h b 0) /\
     ~ partitioned Trace.after_AB h) /\
  run Trace.calls_AAACCF syms_of_profiler = Some Trace.after_AAACCF /\
  (exists h sl,
     prof_slot_heap Trace.after_AAACCF = Some h /\ h !! 1 = Some sl /\
     used sl = true /\ next sl = Some 1 /\ prev sl = Some 1 /\
     backtrace sl = [Trace.F] /\
     ~ on_free_list Trace.after_AAACCF h 1 /\
     (forall b, ~ on_chain Trace.after_AAACCF h b 1) /\
     ~ partitioned Trace.after_AAACCF h).
Proof.
  split_and!.
  - vm_compute. reflexivity.
  - eexists. split; [reflexivity|].
    assert (prof_hash_table Trace.after_A =
            <[32 := Some 0]> (replicate PROF_HASH_TABLE_SIZE None)) as Ht
      by (vm_compute; reflexivity).
    intros i sl Hi. destruct i as [|i]; [|done].
    injection Hi as <-. right. split_and!.
    + done.
    + intros (l & Hp & Hl). inversion Hp; subst. by apply elem_of_nil in Hl.
    + exists 32. split.
      * exists (Some 0), [0]. split_and!; [done| |by left].
        eapply next_path_cons; [reflexivity|]. constructor.
      * intros b' (p & c & Hb & Hp & Hc). rewrite Ht in Hb.
        apply list_lookup_insert_Some in Hb as [(-> & _ & _)|[_ Hb]]; [done|].
        apply lookup_replicate in Hb as [-> _].
        inversion Hp; subst. by apply elem_of_nil in Hc.
  - vm_compute. reflexivity.
  - assert (forall b p, prof_hash_table Trace.after_AB !! b = Some p -> p = None) as Ht.
    { intros b p Hb.
      assert (prof_hash_table Trace.after_AB = replicate PROF_HASH_TABLE_SIZE None) as E
        by (vm_compute; reflexivity).
      rewrite E in Hb. by apply lookup_replicate in Hb as [-> _]. }
    assert (forall h b, ~ on_chain Trace.after_AB h b 0) as Hchain.
    { intros h b (p & c & Hb & Hp & Hc). apply Ht in Hb as ->.
      inversion Hp; subst. by apply elem_of_nil in Hc. }
    eexists _, _. split_and!; try reflexivity.
    + intros (l & Hp & Hl). inversion Hp; subst. by apply elem_of_nil in Hl.
    + apply Hchain.
    + intros Hpart. destruct (Hpart 0 _ eq_refl) as [(Hu & _)|(_ & _ & b & Hb & _)].
      * done.
      * by apply Hchain in Hb.
  - vm_compute. reflexivity.
  - assert (prof_hash_table Trace.after_AAACCF =
            <[32 := Some 0]> (replicate PROF_HASH_TABLE_SIZE None)) as Ht
      by (vm_compute; reflexivity).
    eexists _, _. split; [reflexivity|].
    assert (forall b,
      ~ on_chain Trace.after_AAACCF
          (default [] (prof_slot_heap Trace.after_AAACCF)) b 1) as Hchain.
    { intros b (p & c & Hb & Hp & Hc). rewrite Ht in Hb.
      apply list_lookup_insert_Some in Hb as [(_ & <- & _)|[_ Hb]].
      - inversion Hp as [|i sl l Hi Hp' E1 E2]; subst.
        injection Hi as <-. inversion Hp'; subst.
        apply list_elem_of_singleton in Hc. done.
      - apply lookup_replicate in Hb as [-> _].
        inversion Hp; subst. by apply elem_of_nil in Hc. }
    split_and!; try reflexivity.
    + intros (l & Hp & Hl). inversion Hp; subst. by apply elem_of_nil in Hl.
    + apply Hchain.
    + intros Hpart. destruct (Hpart 1 _ eq_refl) as [(Hu & _)|(_ & _ & b & Hb & _)].
      * done.
      * by apply Hchain in Hb.
Qed.

(** C8 on the code.  With capacity 1, the samples [A], [B], [B], where
    the backtrace of [B] falls into the bucket of [A], leave [B] with
    count 1 and two samples in the overflow count: the second sample of
    [B] did not find the slot of [B] and made a slot for it again.
    With [C], from another bucket, in the place of [B], the second
    sample is counted in the slot of the first.  With capacity 2, after
    three samples of [A] and two of [C], two samples of [F], whose
    backtrace falls into the bucket of [C], leave [F] with count 1 and
    three samples in the overflow count. *)
Theorem repeated_sample_makes_slot_again :
  run Trace.calls_ABB syms_of_profiler = Some Trace.after_ABB /\
  (exists sl, prof_slot_heap Trace.after_ABB = Some [sl] /\
     slot_data sl = ([Trace.B], 1%Z, true)) /\
  prof_others_count Trace.after_ABB = 2%Z /\
  prof_total_count Trace.after_ABB = 3%Z /\
  (exists s sl,
     run (Trace.calls_AC ++ [CallSignal [Trace.C]]) syms_of_profiler = Some s /\
     prof_slot_heap s = Some [sl] /\
     slot_data sl = ([Trace.C], 2%Z, true) /\
     prof_others_count s = 1%Z /\ prof_total_count s = 3%Z) /\
  run Trace.calls_AAACCFF syms_of_profiler = Some Trace.after_AAACCFF /\
  (exists sa sf, prof_slot_heap Trace.after_AAACCFF = Some [sa; sf] /\
     slot_data sa = ([Trace.A], 3%Z, true) /\
     slot_data sf = ([Trace.F], 1%Z, true)) /\
  prof_others_count Trace.after_AAACCFF = 3%Z /\
  prof_total_count Trace.after_AAACCFF = 7%Z.
Proof.
  split_and!.
  - vm_compute. reflexivity.
  - eexists. split; reflexivity.
  - reflexivity.
  - reflexivity.
  - eexists _, _. split_and!; [vm_compute; reflexivity|reflexivity..].
  - vm_compute. reflexivity.
  - eexists _, _. split_and!; reflexivity.
  - reflexivity.
  - reflexivity.
Qed.

Lemma sentinel_sample_discarded_witness :
  exists s',
    s' = set_backtrace (Some (captured (prof_max_stack_depth Trace.after_A) [0%Z]))
           Trace.after_A /\
    prof_record_sample s' = Some s' /\
    prof_signal_handler [0%Z] Trace.after_A = Some s' /\
    prof_slot_heap s' = prof_slot_heap Trace.after_A /\
    prof_hash_table s' = prof_hash_table Trace.after_A /\
    prof_free_list s' = prof_free_list Trace.after_A /\
    prof_total_count s' = prof_total_count Trace.after_A /\
    prof_others_count s' = prof_others_count Trace.after_A.
Proof.
  apply (sentinel_sample_discarded Trace.after_A [Trace.A] [0%Z] Qnil); reflexivity.
Defined.

Lemma reset_leaves_size_and_trigger_witness :
  prof_slot_heap (Fprofiler_reset Trace.after_A) = None /\
  prof_backtrace (Fprofiler_reset Trace.after_A) = None /\
  prof_slot_heap_size (Fprofiler_reset Trace.after_A) =
    prof_slot_heap_size Trace.after_A /\
  0 < prof_slot_heap_size (Fprofiler_reset Trace.after_A) /\
  itimer_prof (Fprofiler_reset Trace.after_A) = itimer_prof Trace.after_A /\
  sigprof_action (Fprofiler_reset Trace.after_A) = sigprof_action Trace.after_A /\
  slot_at (Fprofiler_reset Trace.after_A) 0 = None /\
  Fprofiler_take_snapshot 200%Z (Fprofiler_reset Trace.after_A) = None /\
  prof_signal_handler [Trace.A] (Fprofiler_reset Trace.after_A) = None /\
  (forall s0 j, is_Some (slot_at s0 j) <->
                exists h0, prof_slot_heap s0 = Some h0 /\ j < length h0).
Proof.
  apply (reset_leaves_size_and_trigger Trace.after_A
           (default [] (prof_slot_heap Trace.after_A))).
  - exists Trace.calls_A. vm_compute. reflexivity.
  - reflexivity.
Defined.

Lemma fill_then_evict_first_minimum_witness :
  exists s1 h1 v sv s2 h2,
    signals Trace.stacks2 (initialized mem0 Trace.config2) = Some s1 /\
    prof_slot_heap s1 = Some h1 /\
    length h1 = uint (profiler_slot_heap_size Trace.config2) /\
    prof_others_count s1 = 0%Z /\ prof_free_list s1 = None /\
    (forall i k,
       keys_of (captured (uint (profiler_max_stack_depth Trace.config2)) <$>
                  Trace.stacks2) !! i = Some k ->
       exists sl, h1 !! i = Some sl /\
         slot_data sl =
         (k, ulong (Z.of_nat
                      (occurrences k
                         (captured (uint (profiler_max_stack_depth Trace.config2)) <$>
                            Trace.stacks2))), true)) /\
    first_min h1 v sv /\
    prof_signal_handler [Trace.E] s1 = Some s2 /\ prof_slot_heap s2 = Some h2 /\
    prof_others_count s2 = count sv /\
    (exists sv', h2 !! v = Some sv' /\
       slot_data sv' =
       (captured (uint (profiler_max_stack_depth Trace.config2)) [Trace.E],
        1%Z, true)) /\
    (forall j sj, j <> v -> h1 !! j = Some sj ->
       exists sj', h2 !! j = Some sj' /\ slot_data sj' = slot_data sj).
Proof.
  apply (fill_then_evict_first_minimum mem0 Trace.config2 Trace.stacks2 [Trace.E]).
  - vm_compute. lia.
  - vm_compute. lia.
  - repeat constructor.
  - reflexivity.
  - vm_compute. intros Hin.
    repeat (apply elem_of_cons in Hin as [Hin|Hin]; [discriminate|]).
    by apply elem_of_nil in Hin.
  - reflexivity.
Defined.

End Concrete.

(** * The further properties on concrete runs *)

Module ConcreteExtra.
Import Example64.

Ltac reach cs := exists cs; vm_compute; reflexivity.

Ltac path :=
  repeat first
    [ apply next_path_nil
    | eapply next_path_cons; [reflexivity|simpl] ].

Lemma equal_backtraces_same_bucket_witness :
  prof_backtrace_hash 1 [Trace.A] = prof_backtrace_hash 1 [Trace.A; Trace.C] /\
  prof_backtrace_index 1 [Trace.A] = prof_backtrace_index 1 [Trace.A; Trace.C] /\
  prof_backtrace_index 1 [Trace.A] < PROF_HASH_TABLE_SIZE.
Proof.
  apply (equal_backtraces_same_bucket 1 [Trace.A] [Trace.A; Trace.C]).
  reflexivity.
Defined.



Lemma free_then_allocate_returns_same_slot_witness :
  exists s1 s2 h2,
    prof_free_slot 0 Trace2.after_A2 = Some s1 /\
    prof_allocate_slot s1 = Some (0, s2) /\
    prof_slot_heap s2 = Some h2 /\
    prof_free_list s2 = prof_free_list Trace2.after_A2 /\
    prof_others_count s2 = prof_others_count Trace2.after_A2 /\
    (forall j sj, heap_of Trace2.after_A2 !! j = Some sj ->
       exists sj', h2 !! j = Some sj' /\ slot_data sj' = slot_data sj).
Proof.
  apply (free_then_allocate_returns_same_slot Trace2.after_A2
           (heap_of Trace2.after_A2) 0 (slot_of Trace2.after_A2 0)).
  - reach Trace2.calls_A2.
  - reflexivity.
  - reflexivity.
  - reflexivity.
Defined.

(** A slot array whose slot 0 is not in use: the scan still starts
    from it. *)
Lemma evict_scan_starts_from_slot_0_witness :
  exists m sm s0,
    prof_evict_min_scan (rev (heap_of Trace2.after_A2)) 2 = Some (Some m) /\ m < 2 /\
    rev (heap_of Trace2.after_A2) !! m = Some sm /\
    rev (heap_of Trace2.after_A2) !! 0 = Some s0 /\
    (m = 0 \/ used sm = true) /\
    (count sm <= count s0)%Z /\
    (m <> 0 -> (count sm < count s0)%Z) /\
    (forall j sj, j < 2 -> rev (heap_of Trace2.after_A2) !! j = Some sj ->
       used sj = true -> (count sm <= count sj)%Z) /\
    (forall j sj, j < m -> rev (heap_of Trace2.after_A2) !! j = Some sj ->
       used sj = true -> (count sm < count sj)%Z).
Proof.
  apply (evict_scan_starts_from_slot_0 (rev (heap_of Trace2.after_A2)) 2).
  vm_compute. lia.
Defined.

(** A pool whose only slot is not in use: the eviction fails its
    assertion. *)
Lemma evict_min_slot_failures_witness :
  (length (heap_of Trace2.after_boot1) = 0 ->
   prof_evict_min_slot Trace2.after_boot1 = None) /\
  (forall s0, heap_of Trace2.after_boot1 !! 0 = Some s0 -> used s0 = false ->
     (forall j sj, heap_of Trace2.after_boot1 !! j = Some sj -> used sj = true ->
        (count s0 <= count sj)%Z) ->
     prof_evict_min_scan (heap_of Trace2.after_boot1)
       (length (heap_of Trace2.after_boot1)) = Some (Some 0) /\
     prof_evict_min_slot Trace2.after_boot1 = None).
Proof.
  apply (evict_min_slot_failures Trace2.after_boot1 (heap_of Trace2.after_boot1)).
  - reflexivity.
  - reflexivity.
Defined.


(** The backtrace of [A] is in slot 0: a further sample of [A] finds
    it. *)
Lemma known_backtrace_is_found_witness :
  prof_ensure_slot [Trace.A] Trace.after_A = Some (0, Trace.after_A) /\
  prof_record_sample (set_backtrace (Some [Trace.A]) Trace.after_A) =
    Some (counted 0 (heap_of Trace.after_A)
            (set_backtrace (Some [Trace.A]) Trace.after_A)).
Proof.
  apply (known_backtrace_is_found Trace.after_A (heap_of Trace.after_A) [Trace.A]
           (Some 0) [] 0 (slot_of Trace.after_A 0) [] Trace.A).
  - reach Trace.calls_A.
  - reflexivity.
  - reflexivity.
  - path.
  - reflexivity.
  - reflexivity.
  - intros k sk Hk. by apply elem_of_nil in Hk.
  - reflexivity.
  - reflexivity.
Defined.


(** A stack of three frames, the second not an fbound symbol, at
    depth 1. *)
Lemma trigger_captures_innermost_frames_witness :
  captured (prof_max_stack_depth Trace.after_A) [Trace.B; 0%Z; Trace.C] =
    resize (prof_max_stack_depth Trace.after_A) Qnil
      (frame_token <$> [Trace.B; 0%Z; Trace.C]) /\
  captured (prof_max_stack_depth Trace.after_A)
    (take (prof_max_stack_depth Trace.after_A) [Trace.B; 0%Z; Trace.C]) =
    captured (prof_max_stack_depth Trace.after_A) [Trace.B; 0%Z; Trace.C] /\
  prof_signal_handler [Trace.B; 0%Z; Trace.C] Trace.after_A =
    prof_record_sample
      (set_backtrace
         (Some (captured (prof_max_stack_depth Trace.after_A)
                  [Trace.B; 0%Z; Trace.C])) Trace.after_A).
Proof.
  apply (trigger_captures_innermost_frames Trace.after_A [Trace.A]
           [Trace.B; 0%Z; Trace.C]).
  - reflexivity.
  - reflexivity.
Defined.

Lemma trigger_leaves_control_state_witness :
  control_of Trace.after_AB = control_of Trace.after_A /\
  length (prof_hash_table Trace.after_AB) = length (prof_hash_table Trace.after_A) /\
  length <$> prof_slot_heap Trace.after_AB = length <$> prof_slot_heap Trace.after_A /\
  length <$> prof_backtrace Trace.after_AB = length <$> prof_backtrace Trace.after_A.
Proof.
  apply (trigger_leaves_control_state [Trace.B] Trace.after_A Trace.after_AB).
  vm_compute. reflexivity.
Defined.


Lemma zero_depth_trigger_reads_outside_witness :
  prof_signal_handler [Trace.A] Trace2.after_depth0 = None.
Proof.
  apply (zero_depth_trigger_reads_outside Trace2.after_depth0
           (heap_of Trace2.after_depth0) [Trace.A]).
  - reach (boot 0 1).
  - reflexivity.
  - reflexivity.
Defined.


Lemma zero_capacity_start_faults_witness :
  Fprofiler_start_sampling 1%Z 100%Z mem0 true true
    (set_config 1 0 syms_of_profiler) = None.
Proof.
  apply (zero_capacity_start_faults 1%Z 100%Z mem0 true true
           (set_config 1 0 syms_of_profiler)).
  - reflexivity.
  - reflexivity.
Defined.

(** After a start, a sample, a stop and a reset the mode is still
    [sample]. *)
Lemma mode_records_first_start_witness :
  Fprofiler_mode Trace2.after_A_reset =
  if existsb is_start Trace2.calls_A_reset then intern "sample" else Qnil.
Proof.
  apply (mode_records_first_start Trace2.calls_A_reset Trace2.after_A_reset).
  vm_compute. reflexivity.
Defined.

(** New values of the two Lisp variables, a stop and a second start
    do not change the pool of capacity 1 and depth 1. *)
Lemma pool_dimensions_fixed_until_reset_witness :
  exists h',
    prof_slot_heap Trace2.after_A_more = Some h' /\
    length h' = length (heap_of Trace.after_A) /\
    prof_max_stack_depth Trace2.after_A_more = prof_max_stack_depth Trace.after_A /\
    prof_slot_heap_size Trace2.after_A_more = prof_slot_heap_size Trace.after_A.
Proof.
  apply (pool_dimensions_fixed_until_reset Trace2.calls_more Trace.after_A
           Trace2.after_A_more (heap_of Trace.after_A)).
  - reflexivity.
  - vm_compute. reflexivity.
  - reflexivity.
Defined.

Lemma reset_then_start_gives_empty_pool_witness :
  exists s' h,
    Fprofiler_start_sampling 2%Z 300%Z mem0 true true (Fprofiler_reset Trace.after_A) =
      Some (Qt, s') /\
    prof_slot_heap s' = Some h /\
    length h = uint (profiler_slot_heap_size Trace.after_A) /\
    prof_max_stack_depth s' = uint (profiler_max_stack_depth Trace.after_A) /\
    (forall j sl, h !! j = Some sl -> used sl = false) /\
    prof_total_count s' = 0%Z /\ prof_others_count s' = 0%Z /\
    fst <$> Fprofiler_take_snapshot 400%Z s' =
      Some (snapshot_of 400%Z [overflow_entry s'] s').
Proof.
  apply (reset_then_start_gives_empty_pool 2%Z 300%Z mem0 true true Trace.after_A
           400%Z).
  vm_compute. lia.
Defined.

Lemma snapshot_only_unblocks_signal_witness :
  set_blocked false Trace.after_A = set_blocked false Trace.after_A /\
  sigprof_blocked (set_blocked false Trace.after_A) = false /\
  Fprofiler_take_snapshot 200%Z (set_blocked false Trace.after_A) =
    Some (Trace2.report_A, set_blocked false Trace.after_A).
Proof.
  apply (snapshot_only_unblocks_signal 200%Z Trace.after_A Trace2.report_A
           (set_blocked false Trace.after_A)).
  vm_compute. reflexivity.
Defined.

Lemma never_started_profiler_is_safe_witness :
  exists s,
    run Trace2.calls_quiet syms_of_profiler = Some s /\ prof_slot_heap s = None /\
    Fprofiler_mode s = Qnil /\
    prof_total_count s = 0%Z /\ prof_others_count s = 0%Z /\
    fst <$> Fprofiler_take_snapshot 6%Z s =
      Some (snapshot_of 6%Z [overflow_entry s] s).
Proof.
  apply (never_started_profiler_is_safe Trace2.calls_quiet 6%Z).
  reflexivity.
Defined.


Lemma report_entries_have_frames_witness :
  exists report entries,
    fst <$> Fprofiler_take_snapshot 200%Z Trace2.after_AB2 = Some report /\
    snapshot_entries report = Some entries /\
    length entries = used_count (heap_of Trace2.after_AB2) + 1 /\
    length entries <= prof_slot_heap_size Trace2.after_AB2 + 1 /\
    forall i sl, heap_of Trace2.after_AB2 !! i = Some sl -> used sl = true ->
      0 < length (prof_backtrace_list (prof_max_stack_depth Trace2.after_AB2)
                    (backtrace sl) 0)
        <= prof_max_stack_depth Trace2.after_AB2 /\
      Forall (fun x => NILP x = false)
        (prof_backtrace_list (prof_max_stack_depth Trace2.after_AB2)
           (backtrace sl) 0).
Proof.
  apply (report_entries_have_frames 200%Z Trace2.after_AB2
           (heap_of Trace2.after_AB2)).
  - reach Trace2.calls_AB2.
  - reflexivity.
Defined.






End ConcreteExtra.

